(** * wait-times-exporter: a shallow embedding of [main.go]

    The program is a linear script: it loads its configuration from the
    environment, opens one database connection, exports three reporting
    views as dated JSON snapshot files and publishes the output directory
    with three git sub-processes.

    Everything the program does to the outside world is recorded as an
    [event] in the history of the process; everything the outside world
    answers is read from a [World], whose answers may depend on the whole
    state of the process at the time of the call.  The functions of the Go
    standard library that decide what ends up in a snapshot file
    ([strconv.Atoi], [json.Marshal] on the wrapper map, [json.Indent],
    [bytes.Contains], [filepath.Join], [Time.Format]) are embedded as
    executable definitions; the ones that talk to the outside world are
    answered by the [World]. *)

From Stdlib Require Import List String Ascii ZArith NArith Lia Bool.
From Stdlib Require Import DecimalString.
Import ListNotations.

(** ** Go values *)

(** A Go [[]byte] that is known not to be nil. *)
Definition bytes := list ascii.

(** A Go [[]byte]: [None] is the nil slice. *)
Definition byteslice := option bytes.

(** [[]byte(s)] and [string(b)]. *)
Definition bytes_of (s : string) : bytes := list_ascii_of_string s.
Definition string_of (b : bytes) : string := string_of_list_ascii b.

Definition code (c : ascii) : N := N_of_ascii c.

(** Go's [error] values, kept structured: the text of a message is only
    ever produced by [fmt] verbs, which the model records unrendered. *)
Inductive error : Type :=
| ErrExternal (msg : string)
    (* an error returned by the operating system, a driver or a library *)
| ErrNum (fn input reason : string)
    (* *strconv.NumError *)
| ErrSyntax (msg : string) (c : option ascii)
    (* *json.SyntaxError: invalid character c <msg>, or <msg> alone *)
| ErrMarshaler (cause : error)
    (* *json.MarshalerError *)
| Errorf (format : string) (args : list arg)
    (* fmt.Errorf *)
with arg : Type :=
| AString (s : string)
| AInt (n : Z)
| ABytes (b : byteslice)
| AError (e : error).

(** ** encoding/json: the scanner *)

Module json.

Open Scope char_scope.

(** The [step] field of the scanner: one constructor per state function. *)
Inductive stepfn : Type :=
| stateBeginValueOrEmpty | stateBeginValue
| stateBeginStringOrEmpty | stateBeginString
| stateEndValue | stateEndTop
| stateInString | stateInStringEsc
| stateInStringEscU | stateInStringEscU1 | stateInStringEscU12
| stateInStringEscU123
| stateNeg | state1 | state0 | stateDot | stateDot0
| stateE | stateESign | stateE0
| stateT | stateTr | stateTru
| stateF | stateFa | stateFal | stateFals
| stateN | stateNu | stateNul
| stateError.

Inductive parsestate : Type :=
| parseObjectKey | parseObjectValue | parseArrayValue.

(** The values returned by the state functions.  Go orders them; the only
    comparison the callers make is [v >= scanSkipSpace]. *)
Inductive opcode : Type :=
| scanContinue | scanBeginLiteral | scanBeginObject | scanObjectKey
| scanObjectValue | scanEndObject | scanBeginArray | scanArrayValue
| scanEndArray | scanSkipSpace | scanEnd | scanError.

Definition ge_scanSkipSpace (v : opcode) : bool :=
  match v with
  | scanSkipSpace | scanEnd | scanError => true
  | _ => false
  end.

Definition opcode_eqb (a b : opcode) : bool :=
  match a, b with
  | scanContinue, scanContinue | scanBeginLiteral, scanBeginLiteral
  | scanBeginObject, scanBeginObject | scanObjectKey, scanObjectKey
  | scanObjectValue, scanObjectValue | scanEndObject, scanEndObject
  | scanBeginArray, scanBeginArray | scanArrayValue, scanArrayValue
  | scanEndArray, scanEndArray | scanSkipSpace, scanSkipSpace
  | scanEnd, scanEnd | scanError, scanError => true
  | _, _ => false
  end.

(** The parse stack grows at its end in Go; here its head is the top. *)
Record scanner : Type := mkScanner {
  step : stepfn;
  endTop : bool;
  parseState : list parsestate;
  err : option error
}.

Definition maxNestingDepth : Z := 10000.

Definition newScanner : scanner :=
  {| step := stateBeginValue; endTop := false; parseState := []; err := None |}.

Definition set_step (s : scanner) (f : stepfn) : scanner :=
  {| step := f; endTop := endTop s; parseState := parseState s; err := err s |}.

Definition set_parseState (s : scanner) (ps : list parsestate) : scanner :=
  {| step := step s; endTop := endTop s; parseState := ps; err := err s |}.

(** [s.error(c, context)] *)
Definition scan_error (s : scanner) (c : ascii) (context : string)
  : scanner * opcode :=
  ({| step := stateError; endTop := endTop s; parseState := parseState s;
      err := Some (ErrSyntax context (Some c)) |}, scanError).

Definition pushParseState (s : scanner) (c : ascii) (newParseState : parsestate)
    (successState : opcode) : scanner * opcode :=
  let s := set_parseState s (newParseState :: parseState s) in
  if (Z.of_nat (List.length (parseState s)) <=? maxNestingDepth)%Z
  then (s, successState)
  else scan_error s c "exceeded max depth".

Definition popParseState (s : scanner) : scanner :=
  match tl (parseState s) with
  | [] => {| step := stateEndTop; endTop := true; parseState := [];
             err := err s |}
  | ps => {| step := stateEndValue; endTop := endTop s; parseState := ps;
             err := err s |}
  end.

Definition isSpace (c : ascii) : bool :=
  (c <=? " ") && ((c =? " ") || (c =? "009") || (c =? "013") || (c =? "010")).

Definition isDigit (c : ascii) : bool := ("0" <=? c) && (c <=? "9").
Definition isDigit19 (c : ascii) : bool := ("1" <=? c) && (c <=? "9").
Definition isHex (c : ascii) : bool :=
  isDigit c || (("a" <=? c) && (c <=? "f")) || (("A" <=? c) && (c <=? "F")).

Definition do_stateEndTop (s : scanner) (c : ascii) : scanner * opcode :=
  if negb (isSpace c)
  then (fst (scan_error s c "after top-level value"), scanEnd)
  else (s, scanEnd).

Definition do_stateEndValue (s : scanner) (c : ascii) : scanner * opcode :=
  match parseState s with
  | [] =>
      do_stateEndTop
        {| step := stateEndTop; endTop := true; parseState := [];
           err := err s |} c
  | ps :: rest =>
      if isSpace c then (set_step s stateEndValue, scanSkipSpace)
      else
        match ps with
        | parseObjectKey =>
            if c =? ":" then
              (set_step (set_parseState s (parseObjectValue :: rest))
                 stateBeginValue, scanObjectKey)
            else scan_error s c "after object key"
        | parseObjectValue =>
            if c =? "," then
              (set_step (set_parseState s (parseObjectKey :: rest))
                 stateBeginString, scanObjectValue)
            else if c =? "}" then (popParseState s, scanEndObject)
            else scan_error s c "after object key:value pair"
        | parseArrayValue =>
            if c =? "," then (set_step s stateBeginValue, scanArrayValue)
            else if c =? "]" then (popParseState s, scanEndArray)
            else scan_error s c "after array element"
        end
  end.

Definition do_stateBeginValue (s : scanner) (c : ascii) : scanner * opcode :=
  if isSpace c then (s, scanSkipSpace)
  else if c =? "{" then
    pushParseState (set_step s stateBeginStringOrEmpty) c parseObjectKey
      scanBeginObject
  else if c =? "[" then
    pushParseState (set_step s stateBeginValueOrEmpty) c parseArrayValue
      scanBeginArray
  else if c =? "034" then (set_step s stateInString, scanBeginLiteral)
  else if c =? "-" then (set_step s stateNeg, scanBeginLiteral)
  else if c =? "0" then (set_step s state0, scanBeginLiteral)
  else if c =? "t" then (set_step s stateT, scanBeginLiteral)
  else if c =? "f" then (set_step s stateF, scanBeginLiteral)
  else if c =? "n" then (set_step s stateN, scanBeginLiteral)
  else if isDigit19 c then (set_step s state1, scanBeginLiteral)
  else scan_error s c "looking for beginning of value".

Definition do_stateBeginString (s : scanner) (c : ascii) : scanner * opcode :=
  if isSpace c then (s, scanSkipSpace)
  else if c =? "034" then (set_step s stateInString, scanBeginLiteral)
  else scan_error s c "looking for beginning of object key string".

Definition do_state0 (s : scanner) (c : ascii) : scanner * opcode :=
  if c =? "." then (set_step s stateDot, scanContinue)
  else if (c =? "e") || (c =? "E") then (set_step s stateE, scanContinue)
  else do_stateEndValue s c.

Definition do_stateESign (s : scanner) (c : ascii) : scanner * opcode :=
  if isDigit c then (set_step s stateE0, scanContinue)
  else scan_error s c "in exponent of numeric literal".

(** One letter of [true], [false] or [null]. *)
Definition expect (s : scanner) (c want : ascii) (next : stepfn)
    (context : string) : scanner * opcode :=
  if c =? want then (set_step s next, scanContinue)
  else scan_error s c context.

Definition expectHex (s : scanner) (c : ascii) (next : stepfn)
  : scanner * opcode :=
  if isHex c then (set_step s next, scanContinue)
  else scan_error s c "in \u hexadecimal character escape".

(** [s.step(s, c)] *)
Definition scan_step (s : scanner) (c : ascii) : scanner * opcode :=
  match step s with
  | stateBeginValueOrEmpty =>
      if isSpace c then (s, scanSkipSpace)
      else if c =? "]" then do_stateEndValue s c
      else do_stateBeginValue s c
  | stateBeginValue => do_stateBeginValue s c
  | stateBeginStringOrEmpty =>
      if isSpace c then (s, scanSkipSpace)
      else if c =? "}" then
        do_stateEndValue
          (set_parseState s (parseObjectValue :: tl (parseState s))) c
      else do_stateBeginString s c
  | stateBeginString => do_stateBeginString s c
  | stateEndValue => do_stateEndValue s c
  | stateEndTop => do_stateEndTop s c
  | stateInString =>
      if c =? "034" then (set_step s stateEndValue, scanContinue)
      else if c =? "\" then (set_step s stateInStringEsc, scanContinue)
      else if (code c <? 32)%N then scan_error s c "in string literal"
      else (s, scanContinue)
  | stateInStringEsc =>
      if (c =? "b") || (c =? "f") || (c =? "n") || (c =? "r") || (c =? "t")
         || (c =? "\") || (c =? "/") || (c =? "034")
      then (set_step s stateInString, scanContinue)
      else if c =? "u" then (set_step s stateInStringEscU, scanContinue)
      else scan_error s c "in string escape code"
  | stateInStringEscU => expectHex s c stateInStringEscU1
  | stateInStringEscU1 => expectHex s c stateInStringEscU12
  | stateInStringEscU12 => expectHex s c stateInStringEscU123
  | stateInStringEscU123 => expectHex s c stateInString
  | stateNeg =>
      if c =? "0" then (set_step s state0, scanContinue)
      else if isDigit19 c then (set_step s state1, scanContinue)
      else scan_error s c "in numeric literal"
  | state1 =>
      if isDigit c then (set_step s state1, scanContinue)
      else do_state0 s c
  | state0 => do_state0 s c
  | stateDot =>
      if isDigit c then (set_step s stateDot0, scanContinue)
      else scan_error s c "after decimal point in numeric literal"
  | stateDot0 =>
      if isDigit c then (s, scanContinue)
      else if (c =? "e") || (c =? "E") then (set_step s stateE, scanContinue)
      else do_stateEndValue s c
  | stateE =>
      if (c =? "+") || (c =? "-") then (set_step s stateESign, scanContinue)
      else do_stateESign s c
  | stateESign => do_stateESign s c
  | stateE0 =>
      if isDigit c then (s, scanContinue) else do_stateEndValue s c
  | stateT => expect s c "r" stateTr "in literal true (expecting 'r')"
  | stateTr => expect s c "u" stateTru "in literal true (expecting 'u')"
  | stateTru => expect s c "e" stateEndValue "in literal true (expecting 'e')"
  | stateF => expect s c "a" stateFa "in literal false (expecting 'a')"
  | stateFa => expect s c "l" stateFal "in literal false (expecting 'l')"
  | stateFal => expect s c "s" stateFals "in literal false (expecting 's')"
  | stateFals =>
      expect s c "e" stateEndValue "in literal false (expecting 'e')"
  | stateN => expect s c "u" stateNu "in literal null (expecting 'u')"
  | stateNu => expect s c "l" stateNul "in literal null (expecting 'l')"
  | stateNul => expect s c "l" stateEndValue "in literal null (expecting 'l')"
  | stateError => (s, scanError)
  end.

(** [s.eof()]: the scanner after the call, and whether it returned
    [scanError]. *)
Definition scan_eof (s : scanner) : scanner * opcode :=
  match err s with
  | Some _ => (s, scanError)
  | None =>
      if endTop s then (s, scanEnd)
      else
        let s := fst (scan_step s " ") in
        if endTop s then (s, scanEnd)
        else
          match err s with
          | Some _ => (s, scanError)
          | None =>
              ({| step := step s; endTop := endTop s;
                  parseState := parseState s;
                  err := Some (ErrSyntax "unexpected end of JSON input" None) |},
               scanError)
          end
  end.

(** *** [appendCompact] (indent.go)

    [src[lo:hi]] for [lo <= hi]. *)
Definition slice (src : bytes) (lo hi : nat) : bytes :=
  firstn (hi - lo) (skipn lo src).

Definition hex (n : N) : ascii :=
  nth (N.to_nat n) (bytes_of "0123456789abcdef") "0".

Definition isHTML (c : ascii) : bool := (c =? "<") || (c =? ">") || (c =? "&").

(** The loop variables of [appendCompact]. *)
Record compacting : Type := mkCompacting {
  c_dst : bytes;
  c_start : nat;
  c_scan : scanner
}.

(** [if start < i { dst = append(dst, src[start:i]...) }] *)
Definition flush (src dst : bytes) (start i : nat) : bytes :=
  if Nat.ltb start i then dst ++ slice src start i else dst.

(** The loop [for i, c := range src] from index [i] on; [rest] is
    [src[i:]].  [break] leaves the loop with the variables as they are. *)
Fixpoint compact_loop (escape : bool) (src : bytes) (i : nat) (rest : bytes)
    (st : compacting) : compacting :=
  match rest with
  | [] => st
  | c :: rest' =>
      let dst := c_dst st in
      let start := c_start st in
      let '(dst, start) :=
        if escape && isHTML c
        then (flush src dst start i
                ++ ["\"; "u"; "0"; "0"; hex (N.shiftr (code c) 4);
                    hex (N.land (code c) 15)],
              S i)
        else (dst, start) in
      let '(dst, start) :=
        match rest' with
        | c1 :: c2 :: _ =>
            if escape && (code c =? 226)%N && (code c1 =? 128)%N
               && (N.ldiff (code c2) 1 =? 168)%N
            then (flush src dst start i
                    ++ ["\"; "u"; "2"; "0"; "2"; hex (N.land (code c2) 15)],
                  i + 3)
            else (dst, start)
        | _ => (dst, start)
        end in
      let '(scan, v) := scan_step (c_scan st) c in
      if ge_scanSkipSpace v then
        if opcode_eqb v scanError
        then {| c_dst := dst; c_start := start; c_scan := scan |}
        else
          compact_loop escape src (S i) rest'
            {| c_dst := flush src dst start i; c_start := S i;
               c_scan := scan |}
      else
        compact_loop escape src (S i) rest'
          {| c_dst := dst; c_start := start; c_scan := scan |}
  end.

(** [appendCompact(nil, src, escape)].  On error Go returns [dst[:origLen]]
    with the error; the callers here drop the bytes. *)
Definition appendCompact (src : bytes) (escape : bool) : bytes + error :=
  let st := compact_loop escape src 0 src
              {| c_dst := []; c_start := 0; c_scan := newScanner |} in
  match scan_eof (c_scan st) with
  | (scan, scanError) =>
      inr (match err scan with
           | Some e => e
           | None => ErrSyntax "unexpected end of JSON input" None
           end)
  | _ =>
      inl (if Nat.ltb (c_start st) (List.length src)
           then c_dst st ++ skipn (c_start st) src
           else c_dst st)
  end.

(** *** [appendIndent] and [Indent] (indent.go) *)

Fixpoint repeat_string (n : nat) (s : bytes) : bytes :=
  match n with
  | O => []
  | S n => s ++ repeat_string n s
  end.

Definition appendNewline (dst : bytes) (prefix indent : string) (depth : Z)
  : bytes :=
  dst ++ ["010"] ++ bytes_of prefix
      ++ repeat_string (Z.to_nat depth) (bytes_of indent).

Record indenting : Type := mkIndenting {
  i_dst : bytes;
  i_needIndent : bool;
  i_depth : Z;
  i_scan : scanner
}.

Definition isEnd (v : opcode) : bool :=
  opcode_eqb v scanEndObject || opcode_eqb v scanEndArray.

Fixpoint indent_loop (prefix indent : string) (src : bytes) (st : indenting)
  : indenting :=
  match src with
  | [] => st
  | c :: src' =>
      let '(scan, v) := scan_step (i_scan st) c in
      if opcode_eqb v scanSkipSpace then
        indent_loop prefix indent src'
          {| i_dst := i_dst st; i_needIndent := i_needIndent st;
             i_depth := i_depth st; i_scan := scan |}
      else if opcode_eqb v scanError then
        {| i_dst := i_dst st; i_needIndent := i_needIndent st;
           i_depth := i_depth st; i_scan := scan |}
      else
        let '(dst, needIndent, depth) :=
          if i_needIndent st && negb (isEnd v)
          then (appendNewline (i_dst st) prefix indent (i_depth st + 1),
                false, (i_depth st + 1)%Z)
          else (i_dst st, i_needIndent st, i_depth st) in
        if opcode_eqb v scanContinue then
          indent_loop prefix indent src'
            {| i_dst := dst ++ [c]; i_needIndent := needIndent;
               i_depth := depth; i_scan := scan |}
        else
          let '(dst, needIndent, depth) :=
            if (c =? "{") || (c =? "[") then (dst ++ [c], true, depth)
            else if c =? "," then
              (appendNewline (dst ++ [c]) prefix indent depth,
               needIndent, depth)
            else if c =? ":" then (dst ++ [c; " "], needIndent, depth)
            else if (c =? "}") || (c =? "]") then
              if needIndent then (dst ++ [c], false, depth)
              else
                (appendNewline dst prefix indent (depth - 1) ++ [c],
                 needIndent, (depth - 1)%Z)
            else (dst ++ [c], needIndent, depth) in
          indent_loop prefix indent src'
            {| i_dst := dst; i_needIndent := needIndent; i_depth := depth;
               i_scan := scan |}
  end.

(** [json.Indent(&buf, src, prefix, indent)] on an empty buffer: the bytes
    of the buffer afterwards, or the error. *)
Definition Indent (src : bytes) (prefix indent : string) : bytes + error :=
  let st := indent_loop prefix indent src
              {| i_dst := []; i_needIndent := false; i_depth := 0;
                 i_scan := newScanner |} in
  match scan_eof (i_scan st) with
  | (scan, scanError) =>
      inr (match err scan with
           | Some e => e
           | None => ErrSyntax "unexpected end of JSON input" None
           end)
  | _ => inl (i_dst st)
  end.

(** *** [appendString] (encode.go), with [escapeHTML] set *)

(** [utf8.DecodeRuneInString]: the rune and its width. *)
Definition RuneError : N := 65533.

Definition between (lo x hi : N) : bool := ((lo <=? x) && (x <=? hi))%N.

(** [first[s0]]: the width of the sequence that [s0] starts and the range
    accepted for its second byte; [None] for the bytes that start none. *)
Definition utf8_first (s0 : N) : option (nat * N * N) :=
  if between 194 s0 223 then Some (2, 128%N, 191%N)
  else if (s0 =? 224)%N then Some (3, 160%N, 191%N)
  else if between 225 s0 236 then Some (3, 128%N, 191%N)
  else if (s0 =? 237)%N then Some (3, 128%N, 159%N)
  else if between 238 s0 239 then Some (3, 128%N, 191%N)
  else if (s0 =? 240)%N then Some (4, 144%N, 191%N)
  else if between 241 s0 243 then Some (4, 128%N, 191%N)
  else if (s0 =? 244)%N then Some (4, 128%N, 143%N)
  else None.

Definition DecodeRune (s : bytes) : N * nat :=
  match s with
  | [] => (RuneError, 0)
  | b0 :: s =>
      let s0 := code b0 in
      if (s0 <? 128)%N then (s0, 1)
      else
        match utf8_first s0 with
        | None => (RuneError, 1)
        | Some (sz, lo, hi) =>
            if Nat.ltb (S (List.length s)) sz then (RuneError, 1)
            else
              match s with
              | b1 :: s =>
                  let s1 := code b1 in
                  if negb (between lo s1 hi) then (RuneError, 1)
                  else if Nat.leb sz 2 then
                    (N.lor (N.shiftl (N.land s0 31) 6) (N.land s1 63), 2)
                  else
                    match s with
                    | b2 :: s =>
                        let s2 := code b2 in
                        if negb (between 128 s2 191) then (RuneError, 1)
                        else if Nat.leb sz 3 then
                          (N.lor (N.shiftl (N.land s0 15) 12)
                             (N.lor (N.shiftl (N.land s1 63) 6)
                                (N.land s2 63)), 3)
                        else
                          match s with
                          | b3 :: _ =>
                              let s3 := code b3 in
                              if negb (between 128 s3 191)
                              then (RuneError, 1)
                              else
                                (N.lor (N.shiftl (N.land s0 7) 18)
                                   (N.lor (N.shiftl (N.land s1 63) 12)
                                      (N.lor (N.shiftl (N.land s2 63) 6)
                                         (N.land s3 63))), 4)
                          | [] => (RuneError, 1)
                          end
                    | [] => (RuneError, 1)
                    end
              | [] => (RuneError, 1)
              end
        end
  end.

(** [htmlSafeSet[b]] for [b < utf8.RuneSelf]. *)
Definition htmlSafe (b : ascii) : bool :=
  (32 <=? code b)%N && (code b <? 128)%N
  && negb ((b =? "034") || (b =? "\") || isHTML b).

(** The escape written for an ASCII byte outside [htmlSafeSet]. *)
Definition escapeByte (b : ascii) : bytes :=
  if (b =? "\") || (b =? "034") then ["\"; b]
  else if b =? "008" then ["\"; "b"]
  else if b =? "012" then ["\"; "f"]
  else if b =? "010" then ["\"; "n"]
  else if b =? "013" then ["\"; "r"]
  else if b =? "009" then ["\"; "t"]
  else ["\"; "u"; "0"; "0"; hex (N.shiftr (code b) 4);
        hex (N.land (code b) 15)].

(** The body of the loop of [appendString], one rune at a time; [fuel]
    bounds the number of runes by the number of bytes. *)
Fixpoint appendString_loop (fuel : nat) (src : bytes) : bytes :=
  match fuel, src with
  | _, [] => []
  | O, _ => []
  | S fuel, b :: rest =>
      if (code b <? 128)%N then
        (if htmlSafe b then [b] else escapeByte b)
          ++ appendString_loop fuel rest
      else
        let '(r, size) := DecodeRune (firstn 4 src) in
        if (r =? RuneError)%N && Nat.eqb size 1 then
          bytes_of "\ufffd" ++ appendString_loop fuel rest
        else if (r =? 8232)%N || (r =? 8233)%N then
          ["\"; "u"; "2"; "0"; "2"; hex (N.land r 15)]
            ++ appendString_loop fuel (skipn size src)
        else
          firstn size src ++ appendString_loop fuel (skipn size src)
  end.

Definition appendString (src : string) : bytes :=
  ["034"] ++ appendString_loop (String.length src) (bytes_of src) ++ ["034"].

(** *** [Marshal] on a [map[string]interface{}]

    The dynamic types the program stores in the map. *)
Inductive iface : Type :=
| RawMessage (m : byteslice)
| GoString (s : string).

(** [RawMessage.MarshalJSON] *)
Definition RawMessage_MarshalJSON (m : byteslice) : bytes :=
  match m with
  | None => bytes_of "null"
  | Some b => b
  end.

(** [marshalerEncoder] and [stringEncoder]. *)
Definition encodeValue (v : iface) : bytes + error :=
  match v with
  | RawMessage m =>
      match appendCompact (RawMessage_MarshalJSON m) true with
      | inl b => inl b
      | inr e => inr (ErrMarshaler e)
      end
  | GoString s => inl (appendString s)
  end.

(** The keys of a map are written in sorted order. *)
Fixpoint insertKey (kv : string * iface) (sv : list (string * iface))
  : list (string * iface) :=
  match sv with
  | [] => [kv]
  | kv' :: sv' =>
      if String.leb (fst kv) (fst kv') then kv :: sv
      else kv' :: insertKey kv sv'
  end.

Definition sortKeys (m : list (string * iface)) : list (string * iface) :=
  fold_right insertKey [] m.

Fixpoint encodeMembers (first : bool) (sv : list (string * iface))
  : bytes + error :=
  match sv with
  | [] => inl []
  | (k, v) :: sv' =>
      match encodeValue v with
      | inr e => inr e
      | inl b =>
          match encodeMembers false sv' with
          | inr e => inr e
          | inl more =>
              inl ((if first then [] else [","])
                     ++ appendString k ++ [":"] ++ b ++ more)
          end
      end
  end.

(** [json.Marshal(m)] for a non-nil map [m], given by its entries. *)
Definition Marshal (m : list (string * iface)) : bytes + error :=
  match encodeMembers true (sortKeys m) with
  | inr e => inr e
  | inl b => inl (["{"] ++ b ++ ["}"])
  end.

End json.

(** ** strconv, bytes, path/filepath, time *)

Module strconv.

Open Scope Z_scope.

Definition syntaxError (fn str : string) : error :=
  ErrNum fn str "invalid syntax".
Definition rangeError (fn str : string) : error :=
  ErrNum fn str "value out of range".

Definition maxUint64 : Z := 2 ^ 64 - 1.

(** The digit loop of [ParseUint(s, 10, 64)]: [n] is the value so far. *)
Fixpoint parseDigits (s0 : string) (s : bytes) (n : Z) : Z + error :=
  match s with
  | [] => inl n
  | c :: s' =>
      if json.isDigit c then
        let d := Z.of_N (code c) - 48 in
        if n >=? maxUint64 / 10 + 1 then inr (rangeError "ParseUint" s0)
        else
          let n1 := n * 10 + d in
          if n1 >? maxUint64 then inr (rangeError "ParseUint" s0)
          else parseDigits s0 s' n1
      else inr (syntaxError "ParseUint" s0)
  end.

Definition ParseUint (s : string) : Z + error :=
  match bytes_of s with
  | [] => inr (syntaxError "ParseUint" s)
  | b => parseDigits s b 0
  end.

Definition isRange (e : error) : bool :=
  match e with
  | ErrNum _ _ reason => String.eqb reason "value out of range"
  | _ => false
  end.

(** [ParseInt(s, 10, 0)] on a platform whose [int] has 64 bits; the clamped
    value that accompanies a range error is not kept. *)
Definition ParseInt (fn s0 : string) : Z + error :=
  match s0 with
  | EmptyString => inr (syntaxError fn s0)
  | String c rest =>
      let neg := Ascii.eqb c "-" in
      let s := if Ascii.eqb c "+" || neg then rest else s0 in
      let cutoff := 2 ^ 63 in
      match ParseUint s with
      | inr e => if isRange e then inr (rangeError fn s0)
                 else inr (syntaxError fn s0)
      | inl un =>
          if negb neg && (un >=? cutoff) then inr (rangeError fn s0)
          else if neg && (un >? cutoff) then inr (rangeError fn s0)
          else inl (if neg then - un else un)
      end
  end.

(** [strconv.Atoi].  Go takes a fast path for inputs shorter than 19
    bytes; it accepts the same inputs with the same values as
    [ParseInt(s, 10, 0)], to which every other input goes. *)
Definition Atoi (s : string) : Z + error := ParseInt "Atoi" s.

End strconv.

Module gobytes.

Fixpoint HasPrefix (s prefix : bytes) : bool :=
  match prefix, s with
  | [], _ => true
  | _ :: _, [] => false
  | p :: prefix', c :: s' => Ascii.eqb c p && HasPrefix s' prefix'
  end.

(** [bytes.Contains(b, subslice)] *)
Fixpoint Contains (b subslice : bytes) : bool :=
  HasPrefix b subslice
  || match b with
     | [] => false
     | _ :: b' => Contains b' subslice
     end.

End gobytes.

Module filepath.

Open Scope string_scope.

(** The elements of a path between its separators. *)
Fixpoint split (path : bytes) (cur : bytes) : list bytes :=
  match path with
  | [] => [cur]
  | c :: path' =>
      if Ascii.eqb c "/" then cur :: split path' []
      else split path' (cur ++ [c])%list
  end.

(** One element of the path in [Clean]; [out] holds the elements written
    so far, the last one first. *)
Definition cleanElem (rooted : bool) (out : list string) (e : string)
  : list string :=
  if String.eqb e "" || String.eqb e "." then out
  else if String.eqb e ".." then
    match out with
    | top :: out' =>
        if String.eqb top ".." then ".." :: out else out'
    | [] => if rooted then out else [".."]
    end
  else e :: out.

(** [filepath.Clean] with the separator of Unix. *)
Definition Clean (path : string) : string :=
  match path with
  | EmptyString => "."
  | String c _ =>
      let rooted := Ascii.eqb c "/" in
      let out :=
        fold_left (cleanElem rooted)
          (map string_of (split (bytes_of path) [])) [] in
      match out, rooted with
      | [], false => "."
      | _, _ => (if rooted then "/" else "") ++ String.concat "/" (rev out)
      end
  end.

(** [filepath.Join]: the elements from the first non-empty one on, joined
    by the separator and cleaned. *)
Fixpoint Join (elem : list string) : string :=
  match elem with
  | [] => ""
  | e :: elem' =>
      if String.eqb e "" then Join elem'
      else Clean (String.concat "/" elem)
  end.

End filepath.

Module time.

Open Scope string_scope.

(** What [Time.Date] returns for a [Time]. *)
Record Time : Type := mkTime { Year : Z; Month : Z; Day : Z }.

Fixpoint zeros (n : nat) : string :=
  match n with
  | O => ""
  | S n => String "0" (zeros n)
  end.

(** [appendInt(b, x, width)]: the decimal form of [x], padded with zeros
    to [width] digits, after the sign. *)
Definition appendInt (x : Z) (width : nat) : string :=
  let digits := NilZero.string_of_uint (N.to_uint (Z.to_N (Z.abs x))) in
  (if (x <? 0)%Z then "-" else "")
    ++ zeros (width - String.length digits) ++ digits.

(** [t.Format("2006-01-02")] *)
Definition Format_2006_01_02 (t : Time) : string :=
  appendInt (Year t) 4 ++ "-" ++ appendInt (Month t) 2 ++ "-"
    ++ appendInt (Day t) 2.

End time.

(** ** The process and the outside world *)

Open Scope string_scope.

(** What the program does to the outside world, in the order it does it.
    An event records the call, whether or not the call succeeded. *)
Inductive event : Type :=
| EvPrintf (format : string) (args : list arg)      (* fmt.Printf *)
| EvPrintln (line : string)                         (* fmt.Println *)
| EvSqlOpen (driverName dataSourceName : string)    (* sql.Open *)
| EvPing                                            (* db.Ping *)
| EvClose                                           (* db.Close *)
| EvMkdirAll (path : string) (perm : Z)             (* os.MkdirAll *)
| EvQueryRow (query : string)                       (* db.QueryRow(q).Scan *)
| EvWriteFile (name : string) (data : bytes) (perm : Z)  (* os.WriteFile *)
| EvChdir (dir : string)                            (* os.Chdir *)
| EvCommand (name : string) (args : list string)    (* cmd.CombinedOutput *)
| EvExit (code : Z).                                (* os.Exit *)

(** The state of the process that the program can change: its
    environment, its working directory, and the history of its events. *)
Record Proc : Type := mkProc {
  environ : list (string * string);
  cwd : string;
  history : list event
}.

(** The answers of the outside world.  Each may depend on everything the
    process did before the call. *)
Record World : Type := mkWorld {
  w_environ : list (string * string);
      (* the environment the process starts with; the first binding of a
         key is the one in force *)
  w_cwd : string;
      (* the directory the process starts in *)
  w_dotenv : list (string * string) + error;
      (* godotenv.Load: the bindings read from ./.env, or why not *)
  w_sql_Open : Proc -> string -> string -> option error;
  w_Ping : Proc -> option error;
  w_Close : Proc -> option error;
  w_MkdirAll : Proc -> string -> Z -> option error;
  w_Now : Proc -> time.Time;
  w_Scan : Proc -> string -> byteslice + error;
      (* db.QueryRow(query).Scan(&jsonData): the value left in jsonData
         (nil for a database NULL), or the error *)
  w_WriteFile : Proc -> string -> bytes -> Z -> option error;
  w_Getwd : Proc -> option error;
  w_Chdir : Proc -> string -> option error;
  w_CombinedOutput : Proc -> string -> list string -> bytes * option error
      (* the combined output (nil and empty are not told apart by the
         program) and the error of a sub-process run in the working
         directory of the process *)
}.

Definition start (w : World) : Proc :=
  {| environ := w_environ w; cwd := w_cwd w; history := [] |}.

(** A computation of the program: it reads the world and changes the
    process. *)
Definition M (A : Type) : Type := World -> Proc -> A * Proc.

Definition ret {A} (a : A) : M A := fun _ p => (a, p).

Definition bind {A B} (m : M A) (k : A -> M B) : M B :=
  fun w p => let '(a, p') := m w p in k a w p'.

Declare Scope go_scope.
Delimit Scope go_scope with go.
Notation "x <- m ;; k" := (bind m (fun x => k))
  (at level 61, m at next level, right associativity) : go_scope.
Notation "m ;; k" := (bind m (fun _ => k))
  (at level 61, right associativity) : go_scope.
Open Scope go_scope.

(** Ask the world, then record the call. *)
Definition call {A} (answer : World -> Proc -> A) (e : event) : M A :=
  fun w p =>
    (answer w p,
     {| environ := environ p; cwd := cwd p; history := history p ++ [e] |}).

Definition ask {A} (answer : World -> Proc -> A) : M A :=
  fun w p => (answer w p, p).

Definition emit (e : event) : M unit := call (fun _ _ => tt) e.

(** [defer f()] around the rest of a function body. *)
Definition defer {A B} (f : M B) (body : M A) : M A :=
  r <- body ;; f ;; ret r.

(** *** The calls the program makes *)

(** The line feed that ends the formats of the program. *)
Definition LF : string := String "010" EmptyString.

Definition fmt_Printf (format : string) (args : list arg) : M unit :=
  emit (EvPrintf format args).

Definition fmt_Println (line : string) : M unit := emit (EvPrintln line).

(** [%d] of an [int]. *)
Definition fmt_d (n : Z) : string := NilZero.string_of_int (Z.to_int n).

Fixpoint lookup (key : string) (env : list (string * string)) : option string :=
  match env with
  | [] => None
  | (k, v) :: env' => if String.eqb k key then Some v else lookup key env'
  end.

Definition os_LookupEnv (key : string) : M (option string) :=
  ask (fun _ p => lookup key (environ p)).

Definition os_Getenv (key : string) : M string :=
  ask (fun _ p => match lookup key (environ p) with
                  | Some v => v
                  | None => ""
                  end).

(** [godotenv.Load()]: every binding of ./.env whose key the environment
    does not have yet is added to the environment. *)
Definition godotenv_Load : M (option error) :=
  fun w p =>
    match w_dotenv w with
    | inr e => (Some e, p)
    | inl envMap =>
        (None,
         {| environ := environ p ++ envMap; cwd := cwd p;
            history := history p |})
    end.

Definition sql_Open (driverName dataSourceName : string) : M (option error) :=
  call (fun w p => w_sql_Open w p driverName dataSourceName)
       (EvSqlOpen driverName dataSourceName).

Definition db_Ping : M (option error) := call w_Ping EvPing.

(** [db.Close()]; the program defers the call and drops what it returns. *)
Definition db_Close : M (option error) := call w_Close EvClose.

Definition os_MkdirAll (path : string) (perm : Z) : M (option error) :=
  call (fun w p => w_MkdirAll w p path perm) (EvMkdirAll path perm).

Definition time_Now : M time.Time := ask w_Now.

Definition db_QueryRow_Scan (query : string) : M (byteslice + error) :=
  call (fun w p => w_Scan w p query) (EvQueryRow query).

Definition os_WriteFile (name : string) (data : bytes) (perm : Z)
  : M (option error) :=
  call (fun w p => w_WriteFile w p name data perm) (EvWriteFile name data perm).

Definition os_Getwd : M (string + error) :=
  ask (fun w p => match w_Getwd w p with
                  | Some e => inr e
                  | None => inl (cwd p)
                  end).

(** The directory a successful [Chdir(dir)] leaves the process in. *)
Definition chdir_target (cwd dir : string) : string :=
  match dir with
  | String "/" _ => dir
  | _ => filepath.Join [cwd; dir]
  end.

Definition os_Chdir (dir : string) : M (option error) :=
  fun w p =>
    match w_Chdir w p dir with
    | Some e =>
        (Some e,
         {| environ := environ p; cwd := cwd p;
            history := history p ++ [EvChdir dir] |})
    | None =>
        (None,
         {| environ := environ p; cwd := chdir_target (cwd p) dir;
            history := history p ++ [EvChdir dir] |})
    end.

Definition exec_CombinedOutput (name : string) (args : list string)
  : M (bytes * option error) :=
  call (fun w p => w_CombinedOutput w p name args) (EvCommand name args).

(** ** The program *)

(** Config holds database connection parameters *)
Record Config : Type := mkConfig {
  Host : string;
  Port : Z;
  User : string;
  Password : string;
  DBName : string;
  SSLMode : string;
  OutputDir : string
}.

(** getEnvWithDefault returns the value of an environment variable or a
    default value if not set *)
Definition getEnvWithDefault (key defaultValue : string) : M string :=
  r <- os_LookupEnv key ;;
  match r with
  | Some value => ret value
  | None => ret defaultValue
  end.

(** loadConfig loads configuration from environment variables *)
Definition loadConfig : M (Config + error) :=
  e <- godotenv_Load ;;
  match e with
  | Some err => ret (inr (Errorf "error loading .env file: %v" [AError err]))
  | None =>
      v <- os_Getenv "DB_PORT" ;;
      match strconv.Atoi v with
      | inr err => ret (inr (Errorf "invalid DB_PORT: %v" [AError err]))
      | inl port =>
          host <- getEnvWithDefault "DB_HOST" "localhost" ;;
          user <- getEnvWithDefault "DB_USER" "postgres" ;;
          password <- getEnvWithDefault "DB_PASSWORD" "" ;;
          dbname <- getEnvWithDefault "DB_NAME" "hospital_db" ;;
          sslmode <- getEnvWithDefault "DB_SSLMODE" "disable" ;;
          outputDir <- getEnvWithDefault "OUTPUT_DIR" "data_exports" ;;
          ret (inl {| Host := host; Port := port; User := user;
                      Password := password; DBName := dbname;
                      SSLMode := sslmode; OutputDir := outputDir |})
      end
  end.

(** addExportDateToJSON adds an export_date field to the JSON data *)
Definition addExportDateToJSON (data : byteslice) (date : string)
  : bytes + error :=
  let wrapper :=
    [("data", json.RawMessage data); ("export_date", json.GoString date)] in
  json.Marshal wrapper.

(** [gitCommitAndPush] is cut at its three sub-processes, each part being
    the rest of the function once the step before it has passed.
    Lines 206-213: push to remote repository. *)
Definition gitPush : M (option error) :=
  r <- exec_CombinedOutput "git" ["push"] ;;
  match r with
  | (output, Some err) =>
      ret (Some (Errorf "git push failed: %v, output: %s"
                   [AError err; ABytes (Some output)]))
  | (_, None) =>
      fmt_Println "Pushed changes to remote repository" ;;
      ret None
  end.

(** Lines 192-204: commit with date as message. *)
Definition gitCommit (commitMessage : string) : M (option error) :=
  let commitMsg := "Data export " ++ commitMessage in
  r <- exec_CombinedOutput "git" ["commit"; "-m"; commitMsg] ;;
  match r with
  | (output, Some err) =>
      let outStr := string_of output in
      if negb (gobytes.Contains output (bytes_of "nothing to commit"))
      then
        ret (Some (Errorf "git commit failed: %v, output: %s"
                     [AError err; AString outStr]))
      else
        fmt_Println "Nothing to commit, working tree clean" ;;
        ret None
  | (_, None) =>
      fmt_Printf ("Committed changes with message: %s" ++ LF)
        [AString commitMsg] ;;
      gitPush
  end.

(** Lines 185-190: add all files. *)
Definition gitAdd (commitMessage : string) : M (option error) :=
  r <- exec_CombinedOutput "git" ["add"; "."] ;;
  match r with
  | (output, Some err) =>
      ret (Some (Errorf "git add failed: %v, output: %s"
                   [AError err; ABytes (Some output)]))
  | (_, None) =>
      fmt_Println "Added files to Git staging area" ;;
      gitCommit commitMessage
  end.

Definition gitCommitAndPush (repoPath commitMessage : string)
  : M (option error) :=
  r <- os_Getwd ;;
  match r with
  | inr err =>
      ret (Some (Errorf "failed to get current directory: %v" [AError err]))
  | inl currentDir =>
      e <- os_Chdir repoPath ;;
      match e with
      | Some err =>
          ret (Some (Errorf "failed to change directory: %v" [AError err]))
      | None => defer (os_Chdir currentDir) (gitAdd commitMessage)
      end
  end.

(** Views to query *)
Definition views : list string :=
  ["hospital_seven_avg_change";
   "daily_wait_time_stats";
   "monthly_avg_wait_times"].

Definition view_query (view : string) : string :=
  "SELECT json_agg(t) FROM (SELECT * FROM " ++ view ++ ") t".

Definition view_filename (config : Config) (view : string) : string :=
  filepath.Join [OutputDir config; view ++ ".json"].

(** The body of the loop of [main] over the views; [continue] ends it. *)
Definition exportView (config : Config) (currentDate view : string) : M unit :=
  let query := view_query view in
  r <- db_QueryRow_Scan query ;;
  match r with
  | inr err =>
      fmt_Printf ("Error querying view %s: %v" ++ LF) [AString view; AError err]
  | inl jsonData =>
      let jsonData :=
        match jsonData with
        | None => Some (bytes_of "[]")
        | Some _ => jsonData
        end in
      match addExportDateToJSON jsonData currentDate with
      | inr err =>
          fmt_Printf ("Error adding date to JSON for %s: %v" ++ LF)
            [AString view; AError err]
      | inl jsonData =>
          match json.Indent jsonData "" "  " with
          | inr err =>
              fmt_Printf ("Error formatting JSON for %s: %v" ++ LF)
                [AString view; AError err]
          | inl prettyJSON =>
              let filename := view_filename config view in
              e <- os_WriteFile filename prettyJSON 420 ;;
              match e with
              | Some err =>
                  fmt_Printf ("Error writing file %s: %v" ++ LF)
                    [AString filename; AError err]
              | None =>
                  fmt_Printf ("Successfully exported %s to %s" ++ LF)
                    [AString view; AString filename]
              end
          end
      end
  end.

(** [for _, view := range views { body }] *)
Fixpoint forEach (vs : list string) (body : string -> M unit) : M unit :=
  match vs with
  | [] => ret tt
  | view :: vs' => body view ;; forEach vs' body
  end.

Definition connString (config : Config) : string :=
  "host=" ++ Host config ++ " port=" ++ fmt_d (Port config)
    ++ " user=" ++ User config ++ " password=" ++ Password config
    ++ " dbname=" ++ DBName config ++ " sslmode=" ++ SSLMode config.

(** [main] is one function in the source; it is cut here at its fatal
    checks, each part being the rest of the function after the check
    before it has passed.  Lines 98-157: the export and the publication. *)
Definition main_export (config : Config) : M unit :=
  now <- time_Now ;;
  let currentDate := time.Format_2006_01_02 now in
  forEach views (exportView config currentDate) ;;
  e <- gitCommitAndPush (OutputDir config) currentDate ;;
  match e with
  | Some err => fmt_Printf ("Error with Git operations: %v" ++ LF) [AError err]
  | None =>
      fmt_Println "Data export and Git operations completed successfully"
  end.

(** Lines 83-96, under the deferred [db.Close()]. *)
Definition main_session (config : Config) : M unit :=
  e <- db_Ping ;;
  match e with
  | Some err => fmt_Printf ("Error pinging database: %v" ++ LF) [AError err]
  | None =>
      fmt_Println "Successfully connected to the database" ;;
      e <- os_MkdirAll (OutputDir config) 493 ;;
      match e with
      | Some err =>
          fmt_Printf ("Error creating output directory: %v" ++ LF)
            [AError err]
      | None => main_export config
      end
  end.

(** Lines 72-81. *)
Definition main_connect (config : Config) : M unit :=
  let connStr := connString config in
  e <- sql_Open "postgres" connStr ;;
  match e with
  | Some err =>
      fmt_Printf ("Error connecting to database: %v" ++ LF) [AError err]
  | None => defer db_Close (main_session config)
  end.

Definition main : M unit :=
  r <- loadConfig ;;
  match r with
  | inr err =>
      fmt_Printf ("Error loading configuration: %v" ++ LF) [AError err]
  | inl config => main_connect config
  end.

(** The status a process ends with: the code of its first [os.Exit], and 0
    when [main.main] returns without one. *)
Fixpoint exitStatus (es : list event) : Z :=
  match es with
  | [] => 0%Z
  | EvExit code :: _ => code
  | _ :: es' => exitStatus es'
  end.

(** The Go runtime calls [main.main] in the initial process; the process
    ends with the status of [os.Exit] if the program calls it, and with
    status 0 when [main.main] returns. *)
Definition run (w : World) : Z * Proc :=
  let '(_, p) := main w (start w) in (exitStatus (history p), p).

(** ** The vocabulary of the statements *)

(** The process [p] after the events [es]. *)
Definition record (p : Proc) (es : list event) : Proc :=
  {| environ := environ p; cwd := cwd p; history := history p ++ es |}.

(** The process [p] after a successful [os.Chdir(dir)]. *)
Definition entered (p : Proc) (dir : string) : Proc :=
  {| environ := environ p; cwd := chdir_target (cwd p) dir;
     history := history p ++ [EvChdir dir] |}.

(** *** The steps of the publisher *)

Definition commitArgs (commitMessage : string) : list string :=
  ["commit"; "-m"; "Data export " ++ commitMessage].

(** The process after [p] once the publisher has entered [repoPath] and
    its staging step has succeeded. *)
Definition staged (p : Proc) (repoPath : string) : Proc :=
  record (entered p repoPath)
    [EvCommand "git" ["add"; "."]; EvPrintln "Added files to Git staging area"].

(** The sub-processes among some events, in order. *)
Fixpoint commands (es : list event) : list (list string) :=
  match es with
  | [] => []
  | EvCommand _ args :: es' => args :: commands es'
  | _ :: es' => commands es'
  end.

Definition isChdir (e : event) : bool :=
  match e with
  | EvChdir _ => true
  | _ => false
  end.

(** The events of the three git steps: sub-processes and printed lines. *)
Definition isTalk (e : event) : bool :=
  match e with
  | EvCommand _ _ | EvPrintln _ | EvPrintf _ _ => true
  | _ => false
  end.

(** A world in which nothing fails, except that [git commit] finds
    nothing to commit. *)
Definition world_clean_tree : World :=
  {| w_environ := [("DB_PORT", "5432")];
     w_cwd := "/srv/exporter";
     w_dotenv := inl [("DB_HOST", "db.internal")];
     w_sql_Open := fun _ _ _ => None;
     w_Ping := fun _ => None;
     w_Close := fun _ => None;
     w_MkdirAll := fun _ _ _ => None;
     w_Now := fun _ => time.mkTime 2024 3 9;
     w_Scan := fun _ _ => inl None;
     w_WriteFile := fun _ _ _ _ => None;
     w_Getwd := fun _ => None;
     w_Chdir := fun _ _ => None;
     w_CombinedOutput := fun _ _ args =>
       match args with
       | "commit" :: _ =>
           (bytes_of "On branch main
nothing to commit, working tree clean
", Some (ErrExternal "exit status 1"))
       | _ => ([], None)
       end |}.

(** A world in which [git commit] is killed and leaves no output. *)
Definition world_commit_killed : World :=
  {| w_environ := [("DB_PORT", "5432")];
     w_cwd := "/srv/exporter";
     w_dotenv := inl [];
     w_sql_Open := fun _ _ _ => None;
     w_Ping := fun _ => None;
     w_Close := fun _ => None;
     w_MkdirAll := fun _ _ _ => None;
     w_Now := fun _ => time.mkTime 2024 3 9;
     w_Scan := fun _ _ => inl None;
     w_WriteFile := fun _ _ _ _ => None;
     w_Getwd := fun _ => None;
     w_Chdir := fun _ _ => None;
     w_CombinedOutput := fun _ _ args =>
       match args with
       | "commit" :: _ => ([], Some (ErrExternal "signal: killed"))
       | _ => ([], None)
       end |}.

(** A rooted path: what [os.Getwd] returns. *)
Definition rooted (path : string) : bool :=
  match path with
  | String "/" _ => true
  | _ => false
  end.

(** A world in which the process cannot change back to the directory it
    started in, and nothing else fails. *)
Definition world_cannot_return : World :=
  {| w_environ := [("DB_PORT", "5432")];
     w_cwd := "/srv/exporter";
     w_dotenv := inl [];
     w_sql_Open := fun _ _ _ => None;
     w_Ping := fun _ => None;
     w_Close := fun _ => None;
     w_MkdirAll := fun _ _ _ => None;
     w_Now := fun _ => time.mkTime 2024 3 9;
     w_Scan := fun _ _ => inl None;
     w_WriteFile := fun _ _ _ _ => None;
     w_Getwd := fun _ => None;
     w_Chdir := fun _ dir =>
       if String.eqb dir "/srv/exporter"
       then Some (ErrExternal "chdir /srv/exporter: no such file or directory")
       else None;
     w_CombinedOutput := fun _ _ _ => ([], None) |}.

(** *** The configuration loader *)

(** The value of [key] in [env], or [default] when [env] has no [key]. *)
Definition envOr (env : list (string * string)) (key default : string)
  : string :=
  match lookup key env with
  | Some v => v
  | None => default
  end.

(** The process after [godotenv.Load] has added the bindings [envMap]. *)
Definition loaded (p : Proc) (envMap : list (string * string)) : Proc :=
  {| environ := environ p ++ envMap; cwd := cwd p; history := history p |}.

(** The environment the program reads its settings from: the one the
    process starts with, completed by the settings file when that file
    can be loaded. *)
Definition loaded_environ (w : World) : list (string * string) :=
  match w_dotenv w with
  | inl envMap => (w_environ w ++ envMap)%list
  | inr _ => w_environ w
  end.

(** The events that reach the database or the file system. *)
Definition isIO (e : event) : bool :=
  match e with
  | EvSqlOpen _ _ | EvPing | EvMkdirAll _ _ | EvQueryRow _
  | EvWriteFile _ _ _ => true
  | _ => false
  end.

(** A world whose environment and settings file have no DB_PORT. *)
Definition world_no_port : World :=
  {| w_environ := [("DB_HOST", "db.internal")];
     w_cwd := "/srv/exporter";
     w_dotenv := inl [("DB_USER", "exporter")];
     w_sql_Open := fun _ _ _ => None;
     w_Ping := fun _ => None;
     w_Close := fun _ => None;
     w_MkdirAll := fun _ _ _ => None;
     w_Now := fun _ => time.mkTime 2024 3 9;
     w_Scan := fun _ _ => inl None;
     w_WriteFile := fun _ _ _ _ => None;
     w_Getwd := fun _ => None;
     w_Chdir := fun _ _ => None;
     w_CombinedOutput := fun _ _ _ => ([], None) |}.

(** A world whose settings file cannot be read. *)
Definition world_no_dotenv : World :=
  {| w_environ := [("DB_PORT", "5432")];
     w_cwd := "/srv/exporter";
     w_dotenv := inr (ErrExternal "open .env: no such file or directory");
     w_sql_Open := fun _ _ _ => None;
     w_Ping := fun _ => None;
     w_Close := fun _ => None;
     w_MkdirAll := fun _ _ _ => None;
     w_Now := fun _ => time.mkTime 2024 3 9;
     w_Scan := fun _ _ => inl None;
     w_WriteFile := fun _ _ _ _ => None;
     w_Getwd := fun _ => None;
     w_Chdir := fun _ _ => None;
     w_CombinedOutput := fun _ _ _ => ([], None) |}.

(** *** The export loop *)

(** What [exportView] records after its query, decided by the first of
    its four steps that fails. *)
Definition viewOutcome (w : World) (p : Proc) (config : Config)
    (currentDate view : string) (es : list event) : Prop :=
  match w_Scan w p (view_query view) with
  | inr err =>
      es = [EvPrintf ("Error querying view %s: %v" ++ LF)
              [AString view; AError err]]
  | inl jsonData =>
      let jsonData :=
        match jsonData with
        | None => Some (bytes_of "[]")
        | Some _ => jsonData
        end in
      match addExportDateToJSON jsonData currentDate with
      | inr err =>
          es = [EvPrintf ("Error adding date to JSON for %s: %v" ++ LF)
                  [AString view; AError err]]
      | inl doc =>
          match json.Indent doc "" "  " with
          | inr err =>
              es = [EvPrintf ("Error formatting JSON for %s: %v" ++ LF)
                      [AString view; AError err]]
          | inl prettyJSON =>
              let filename := view_filename config view in
              match w_WriteFile w (record p [EvQueryRow (view_query view)])
                      filename prettyJSON 420 with
              | Some err =>
                  es = [EvWriteFile filename prettyJSON 420;
                        EvPrintf ("Error writing file %s: %v" ++ LF)
                          [AString filename; AError err]]
              | None =>
                  es = [EvWriteFile filename prettyJSON 420;
                        EvPrintf ("Successfully exported %s to %s" ++ LF)
                          [AString view; AString filename]]
              end
          end
      end
  end.

(** A world in which the query of the first view fails and nothing else
    does. *)
Definition world_first_view_fails : World :=
  {| w_environ := [("DB_PORT", "5432")];
     w_cwd := "/srv/exporter";
     w_dotenv := inl [];
     w_sql_Open := fun _ _ _ => None;
     w_Ping := fun _ => None;
     w_Close := fun _ => None;
     w_MkdirAll := fun _ _ _ => None;
     w_Now := fun _ => time.mkTime 2024 3 9;
     w_Scan := fun _ query =>
       if String.eqb query (view_query "hospital_seven_avg_change")
       then inr (ErrExternal "pq: relation does not exist")
       else inl (Some (bytes_of "[{},
 {}]"));
     w_WriteFile := fun _ _ _ _ => None;
     w_Getwd := fun _ => None;
     w_Chdir := fun _ _ => None;
     w_CombinedOutput := fun _ _ _ => ([], None) |}.

Definition config_default : Config :=
  {| Host := "localhost"; Port := 5432; User := "postgres"; Password := "";
     DBName := "hospital_db"; SSLMode := "disable";
     OutputDir := "data_exports" |}.

(** The files written among some events, in order. *)
Fixpoint writes (es : list event) : list (string * bytes) :=
  match es with
  | [] => []
  | EvWriteFile name data _ :: es' => (name, data) :: writes es'
  | _ :: es' => writes es'
  end.

(** ** JSON texts and the documents they denote *)

Module jsontext.

Import json.
#[local] Open Scope char_scope.
#[local] Open Scope list_scope.

Definition quote : ascii := "034".

(** A number literal, in the parts it is written in. *)
Record number : Type := mkNumber {
  n_minus : bool;
  n_int : bytes;
  n_frac : option bytes;
  n_exp : option (ascii * bytes * bytes)
}.

Definition digits (t : bytes) : bool :=
  negb (Nat.eqb (List.length t) 0) && forallb isDigit t.

Definition wf_int (t : bytes) : bool :=
  match t with
  | [] => false
  | c :: t' => if c =? "0" then Nat.eqb (List.length t') 0
               else isDigit19 c && forallb isDigit t'
  end.

Definition wf_sign (t : bytes) : bool :=
  match t with
  | [] => true
  | [c] => (c =? "+") || (c =? "-")
  | _ => false
  end.

Definition wf_number (n : number) : bool :=
  wf_int (n_int n)
  && match n_frac n with
     | None => true
     | Some f => digits f
     end
  && match n_exp n with
     | None => true
     | Some (e, sg, d) => ((e =? "e") || (e =? "E")) && wf_sign sg && digits d
     end.

Definition number_text (n : number) : bytes :=
  (if n_minus n then ["-"] else [])
    ++ n_int n
    ++ match n_frac n with
       | None => []
       | Some f => "." :: f
       end
    ++ match n_exp n with
       | None => []
       | Some (e, sg, d) => e :: sg ++ d
       end.

(** The text of a string literal between its quotes: bytes from 0x20 on
    other than the quote and the backslash, and escapes. *)
Definition isSimpleEscape (c : ascii) : bool :=
  (c =? "b") || (c =? "f") || (c =? "n") || (c =? "r") || (c =? "t")
  || (c =? "\") || (c =? "/") || (c =? quote).

Definition isPlain (c : ascii) : bool :=
  negb (c =? quote) && negb (c =? "\") && negb (code c <? 32)%N.

Fixpoint wf_body (b : bytes) : bool :=
  match b with
  | [] => true
  | c :: b' =>
      if c =? "\" then
        match b' with
        | e :: b'' =>
            if e =? "u" then
              match b'' with
              | h1 :: h2 :: h3 :: h4 :: b''' =>
                  isHex h1 && isHex h2 && isHex h3 && isHex h4 && wf_body b'''
              | _ => false
              end
            else isSimpleEscape e && wf_body b''
        | [] => false
        end
      else isPlain c && wf_body b'
  end.

(** A JSON document, every literal kept as it is written. *)
Inductive value : Type :=
| Null
| Bool (b : bool)
| Num (n : number)
| Str (body : bytes)
| Arr (elems : list value)
| Obj (members : list (bytes * value)).

Fixpoint sepConcat (sep : bytes) (ts : list bytes) : bytes :=
  match ts with
  | [] => []
  | [t] => t
  | t :: ts' => t ++ sep ++ sepConcat sep ts'
  end.

Definition string_text (body : bytes) : bytes := quote :: body ++ [quote].

(** The text of a document without any insignificant whitespace. *)
Fixpoint compact_text (v : value) : bytes :=
  match v with
  | Null => bytes_of "null"
  | Bool true => bytes_of "true"
  | Bool false => bytes_of "false"
  | Num n => number_text n
  | Str body => string_text body
  | Arr elems => "[" :: sepConcat [","] (map compact_text elems) ++ ["]"]
  | Obj members =>
      "{" :: sepConcat [","]
               (map (fun m => string_text (fst m) ++ ":" :: compact_text (snd m))
                  members)
          ++ ["}"]
  end.

Definition newline (prefix indent : string) (depth : nat) : bytes :=
  "010" :: bytes_of prefix ++ repeat_string depth (bytes_of indent).

(** The text of a document the way [Indent] lays it out: every element
    and member on a line of its own, [depth] levels deep. *)
Fixpoint indented_text (prefix indent : string) (depth : nat) (v : value)
  : bytes :=
  match v with
  | Arr ((_ :: _) as elems) =>
      "[" :: newline prefix indent (S depth)
          ++ sepConcat ("," :: newline prefix indent (S depth))
               (map (indented_text prefix indent (S depth)) elems)
          ++ newline prefix indent depth ++ ["]"]
  | Obj ((_ :: _) as members) =>
      "{" :: newline prefix indent (S depth)
          ++ sepConcat ("," :: newline prefix indent (S depth))
               (map (fun m => string_text (fst m) ++ ":" :: " "
                                :: indented_text prefix indent (S depth) (snd m))
                  members)
          ++ newline prefix indent depth ++ ["}"]
  | _ => compact_text v
  end.

(** How deep arrays and objects are nested in a document. *)
Fixpoint nesting (v : value) : nat :=
  match v with
  | Arr elems => S (fold_right Nat.max 0 (map nesting elems))
  | Obj members =>
      S (fold_right Nat.max 0 (map (fun m => nesting (snd m)) members))
  | _ => 0
  end.

Definition spaces (ws : bytes) : Prop := forallb isSpace ws = true.

(** [Text v t]: the bytes [t] are a JSON text of the document [v], with
    any amount of whitespace between its tokens. *)
Inductive Text : value -> bytes -> Prop :=
| T_null : Text Null (bytes_of "null")
| T_true : Text (Bool true) (bytes_of "true")
| T_false : Text (Bool false) (bytes_of "false")
| T_num n : wf_number n = true -> Text (Num n) (number_text n)
| T_str body : wf_body body = true -> Text (Str body) (string_text body)
| T_arr0 ws : spaces ws -> Text (Arr []) ("[" :: ws ++ ["]"])
| T_arr elems t : Elems elems t -> Text (Arr elems) ("[" :: t ++ ["]"])
| T_obj0 ws : spaces ws -> Text (Obj []) ("{" :: ws ++ ["}"])
| T_obj members t :
    Members members t -> Text (Obj members) ("{" :: t ++ ["}"])
with Elems : list value -> bytes -> Prop :=
| E_last v ws1 t ws2 :
    spaces ws1 -> Text v t -> spaces ws2 -> Elems [v] (ws1 ++ t ++ ws2)
| E_cons v ws1 t ws2 v' elems t' :
    spaces ws1 -> Text v t -> spaces ws2 -> Elems (v' :: elems) t' ->
    Elems (v :: v' :: elems) (ws1 ++ t ++ ws2 ++ "," :: t')
with Members : list (bytes * value) -> bytes -> Prop :=
| M_last k v ws1 ws2 ws3 t ws4 :
    spaces ws1 -> wf_body k = true -> spaces ws2 -> spaces ws3 ->
    Text v t -> spaces ws4 ->
    Members [(k, v)] (ws1 ++ string_text k ++ ws2 ++ ":" :: ws3 ++ t ++ ws4)
| M_cons k v ws1 ws2 ws3 t ws4 m members t' :
    spaces ws1 -> wf_body k = true -> spaces ws2 -> spaces ws3 ->
    Text v t -> spaces ws4 -> Members (m :: members) t' ->
    Members ((k, v) :: m :: members)
      (ws1 ++ string_text k ++ ws2 ++ ":" :: ws3 ++ t ++ ws4 ++ "," :: t').

Scheme Text_mut := Minimality for Text Sort Prop
  with Elems_mut := Minimality for Elems Sort Prop
  with Members_mut := Minimality for Members Sort Prop.
Combined Scheme Text_Elems_Members_ind from Text_mut, Elems_mut, Members_mut.

(** What [appendCompact] writes for the bytes of a string literal when it
    escapes for HTML: the bytes [<], [>] and [&] become the six bytes of
    the escapes \u003c, \u003e and \u0026, and the three bytes of the
    UTF-8 forms of U+2028 and U+2029 become the escapes \u2028 and
    \u2029. *)
Fixpoint escapeHTML (b : bytes) : bytes :=
  match b with
  | [] => []
  | c :: b' =>
      if isHTML c then
        ["\"; "u"; "0"; "0"; hex (N.shiftr (code c) 4);
         hex (N.land (code c) 15)] ++ escapeHTML b'
      else
        match b' with
        | c1 :: c2 :: b'' =>
            if (code c =? 226)%N && (code c1 =? 128)%N
               && (N.ldiff (code c2) 1 =? 168)%N
            then ["\"; "u"; "2"; "0"; "2"; hex (N.land (code c2) 15)]
                   ++ escapeHTML b''
            else c :: escapeHTML b'
        | _ => c :: escapeHTML b'
        end
  end.

(** The document with the string literals escaped for HTML; nothing else
    changes. *)
Fixpoint escaped (v : value) : value :=
  match v with
  | Str body => Str (escapeHTML body)
  | Arr elems => Arr (map escaped elems)
  | Obj members =>
      Obj (map (fun m => (escapeHTML (fst m), escaped (snd m))) members)
  | _ => v
  end.

(** *** What the escapes stand for *)

(** The value of a hexadecimal digit. *)
Definition hexval (c : ascii) : N :=
  if isDigit c then code c - 48
  else if ("a" <=? c) && (c <=? "f") then code c - 87
  else code c - 55.

(** The UTF-8 form of a character below U+10000. *)
Definition utf8 (u : N) : bytes :=
  if (u <? 128)%N then [ascii_of_N u]
  else if (u <? 2048)%N then
    [ascii_of_N (N.lor 192 (N.shiftr u 6));
     ascii_of_N (N.lor 128 (N.land u 63))]
  else
    [ascii_of_N (N.lor 224 (N.shiftr u 12));
     ascii_of_N (N.lor 128 (N.land (N.shiftr u 6) 63));
     ascii_of_N (N.lor 128 (N.land u 63))].

(** The character a two-byte escape names. *)
Definition simpleEscape (e : ascii) : ascii :=
  if e =? "b" then "008"
  else if e =? "f" then "012"
  else if e =? "n" then "010"
  else if e =? "r" then "013"
  else if e =? "t" then "009"
  else e.

(** The bytes a string literal stands for: every escape replaced by the
    UTF-8 form of the character it names, every other byte kept.  (A
    reader pairs the surrogates among the \u escapes afterwards.) *)
Fixpoint unescape (b : bytes) : bytes :=
  match b with
  | [] => []
  | c :: b' =>
      if c =? "\" then
        match b' with
        | e :: b'' =>
            if e =? "u" then
              match b'' with
              | h1 :: h2 :: h3 :: h4 :: b''' =>
                  utf8 (4096 * hexval h1 + 256 * hexval h2 + 16 * hexval h3
                        + hexval h4)
                    ++ unescape b'''
              | _ => []
              end
            else simpleEscape e :: unescape b''
        | [] => []
        end
      else c :: unescape b'
  end.

(** The document with every string literal, keys included, replaced by
    the bytes it stands for. *)
Fixpoint unescaped (v : value) : value :=
  match v with
  | Str body => Str (unescape body)
  | Arr elems => Arr (map unescaped elems)
  | Obj members =>
      Obj (map (fun m => (unescape (fst m), unescaped (snd m))) members)
  | _ => v
  end.

Definition fits (ps : list parsestate) (n : nat) : Prop :=
  (Z.of_nat (List.length ps) + Z.of_nat n <= maxNestingDepth)%Z.

(** The deepest nesting among the elements of an array or the members of
    an object. *)
Definition deepest (vs : list value) : nat :=
  fold_right Nat.max 0 (map nesting vs).

Definition deepestMember (ms : list (bytes * value)) : nat :=
  fold_right Nat.max 0 (map (fun m => nesting (snd m)) ms).

(** The document of a snapshot file: the rows under [data] and the date
    under [export_date]. *)
Definition wrapper (rows : value) (date : string) : value :=
  Obj [(bytes_of "data", rows); (bytes_of "export_date", Str (bytes_of date))].

(** JSON bytes written with apostrophes for the quotes. *)
Definition dq (s : string) : bytes :=
  map (fun c => if Ascii.eqb c "'" then quote else c) (bytes_of s).

(** [content] is a snapshot stamped with [date]: the indented form of the
    wrapper around some rows, which is the wrapper document itself as soon
    as the rows are a JSON text. *)
Definition stamped (date : string) (content : bytes) : Prop :=
  exists data rows,
    json.appendCompact data true = inl rows
    /\ json.Indent
         (dq "{'data':" ++ rows ++ dq ",'export_date':'" ++ bytes_of date
            ++ dq "'}")%list "" "  " = inl content
    /\ forall v,
         Text v data -> fits [] (S (nesting v)) ->
         content = indented_text "" "  " 0 (wrapper (escaped v) date).

End jsontext.

(** ** The scanner on a JSON text: the states it goes through *)

Module scanning.

Import json jsontext.
#[local] Open Scope char_scope.
#[local] Open Scope list_scope.

(** A scanner without error. *)
Definition at_ (f : stepfn) (et : bool) (ps : list parsestate) : scanner :=
  {| step := f; endTop := et; parseState := ps; err := None |}.

(** The states in which a value may begin, a key may begin, and a value
    has ended. *)
Definition beginsValue (f : stepfn) : bool :=
  match f with
  | stateBeginValue | stateBeginValueOrEmpty => true
  | _ => false
  end.

Definition beginsKey (f : stepfn) : bool :=
  match f with
  | stateBeginString | stateBeginStringOrEmpty => true
  | _ => false
  end.

Definition ended (f : stepfn) : bool :=
  match f with
  | stateEndValue | state0 | state1 | stateDot0 | stateE0 => true
  | _ => false
  end.

Ltac each_byte c :=
  destruct c as [[] [] [] [] [] [] [] []].

(** [continues s t s']: from [s], every byte of [t] is scanned as the
    continuation of a literal, and the scanner ends in [s']. *)
Fixpoint continues (s : scanner) (t : bytes) (s' : scanner) : Prop :=
  match t with
  | [] => s = s'
  | c :: t' =>
      exists s1, scan_step s c = (s1, scanContinue) /\ continues s1 t' s'
  end.

(** The state the scanner is in after the last byte of a number. *)
Definition number_end (n : number) : stepfn :=
  match n_exp n with
  | Some _ => stateE0
  | None =>
      match n_frac n with
      | Some _ => stateDot0
      | None => match n_int n with
                | "0" :: _ => state0
                | _ => state1
                end
      end
  end.

(** The first byte of a literal. *)
Definition startsLiteral (c : ascii) : bool :=
  (c =? quote) || (c =? "-") || isDigit c || (c =? "t") || (c =? "f")
  || (c =? "n").

(** [t] is scanned as one literal that leaves the scanner in state [f']. *)
Definition Literal (t : bytes) (f' : stepfn) : Prop :=
  exists c t',
    t = c :: t' /\ startsLiteral c = true
    /\ forall f et ps,
         beginsValue f = true ->
         exists s1,
           scan_step (at_ f et ps) c = (s1, scanBeginLiteral)
           /\ continues s1 t' (at_ f' et ps).

(** *** Punctuation *)

(** The scanner after the closing bracket of an array or object opened
    under the stack [ps]: [popParseState]. *)
Definition closed (et : bool) (ps : list parsestate) : scanner :=
  match ps with
  | [] => {| step := stateEndTop; endTop := true; parseState := [];
             err := None |}
  | _ => at_ stateEndValue et ps
  end.

(** The scanner after a whole value read under the stack [ps]. *)
Definition Done (et : bool) (ps : list parsestate) (s : scanner) : Prop :=
  s = closed et ps \/ exists f, ended f = true /\ s = at_ f et ps.

Ltac reassoc :=
  repeat (rewrite <- app_assoc || rewrite <- app_comm_cons); cbn [app].

End scanning.

(** ** [Indent] on a JSON text: what the loop is expected to do *)

Module indenting.

Import json jsontext scanning.
#[local] Open Scope char_scope.
#[local] Open Scope list_scope.

Section Layout.

Variables prefix indent : string.

Local Notation "'loop'" := (indent_loop prefix indent).
Local Notation "'nl'" := (newline prefix indent).

(** The variables of the loop at depth [d]. *)
Definition IS (o : bytes) (b : bool) (d : nat) (s : scanner) : indenting :=
  {| i_dst := o; i_needIndent := b; i_depth := Z.of_nat d; i_scan := s |}.

(** The line break that a pending indentation puts before the next token,
    and the depth after it. *)
Definition pending (b : bool) (d : nat) : bytes := if b then nl (S d) else [].
Definition deeper (b : bool) (d : nat) : nat := if b then S d else d.

Definition member_text (d : nat) (m : bytes * value) : bytes :=
  string_text (fst m) ++ ":" :: " " :: indented_text prefix indent d (snd m).

Definition indents_value (v : value) (t : bytes) : Prop :=
  forall rest o b d f et ps,
    beginsValue f = true -> fits ps (nesting v) ->
    exists s',
      Done et ps s'
      /\ loop (t ++ rest) (IS o b d (at_ f et ps))
         = loop rest
             (IS (o ++ pending b d
                    ++ indented_text prefix indent (deeper b d) v)
                false (deeper b d) s').

Definition indents_elems (vs : list value) (t : bytes) : Prop :=
  forall rest o b d f et ps,
    beginsValue f = true -> fits (parseArrayValue :: ps) (deepest vs) ->
    exists f',
      ended f' = true
      /\ loop (t ++ rest) (IS o b d (at_ f et (parseArrayValue :: ps)))
         = loop rest
             (IS (o ++ pending b d
                    ++ sepConcat ("," :: nl (deeper b d))
                         (map (indented_text prefix indent (deeper b d)) vs))
                false (deeper b d) (at_ f' et (parseArrayValue :: ps))).

Definition indents_members (ms : list (bytes * value)) (t : bytes) : Prop :=
  forall rest o b d f et ps,
    beginsKey f = true -> fits (parseObjectKey :: ps) (deepestMember ms) ->
    exists f',
      ended f' = true
      /\ loop (t ++ rest) (IS o b d (at_ f et (parseObjectKey :: ps)))
         = loop rest
             (IS (o ++ pending b d
                    ++ sepConcat ("," :: nl (deeper b d))
                         (map (member_text (deeper b d)) ms))
                false (deeper b d) (at_ f' et (parseObjectValue :: ps))).

End Layout.

End indenting.

(** ** [appendCompact] on a JSON text: what the loop is expected to do *)

Module compacting.

Import json jsontext scanning.
#[local] Open Scope char_scope.
#[local] Open Scope list_scope.

(** The test of [appendCompact] for the UTF-8 form of U+2028 or U+2029 at
    the byte [c], which [rest] follows. *)
Definition isLineSep (c : ascii) (rest : bytes) : bool :=
  match rest with
  | c1 :: c2 :: _ =>
      (code c =? 226)%N && (code c1 =? 128)%N
      && (N.ldiff (code c2) 1 =? 168)%N
  | _ => false
  end.

Definition escape6 (c : ascii) : bytes :=
  ["\"; "u"; "0"; "0"; hex (N.shiftr (code c) 4); hex (N.land (code c) 15)].

Definition escapeSep (c2 : ascii) : bytes :=
  ["\"; "u"; "2"; "0"; "2"; hex (N.land (code c2) 15)].

Definition CS (dst : bytes) (start : nat) (s : scanner) : compacting :=
  {| c_dst := dst; c_start := start; c_scan := s |}.

(** The cursor of the loop: [rest] is what is left of [src] at index [i]. *)
Definition At (src : bytes) (i : nat) (rest : bytes) : Prop :=
  exists pre, src = pre ++ rest /\ List.length pre = i.

(** What the loop has written so far, the bytes it still holds back
    included. *)
Definition written (src : bytes) (st : compacting) (i : nat) : bytes :=
  c_dst st ++ slice src (c_start st) i.

(** The invariant of the loop at index [i]: the scanner is [s] and [out]
    has been written. *)
Definition CI (src : bytes) (i : nat) (st : compacting) (out : bytes)
    (s : scanner) : Prop :=
  c_scan st = s /\ c_start st <= i /\ written src st i = out.

(** An ASCII byte that [appendCompact] does not escape. *)
Definition isSafe (c : ascii) : bool := negb (isHTML c) && (code c <? 128)%N.

(** [compacts t s x s']: on the bytes [t], from the scanner [s], the loop
    writes [x] and leaves the scanner in [s'], whatever follows [t]. *)
Definition compacts (t : bytes) (s : scanner) (x : bytes) (s' : scanner)
  : Prop :=
  forall src i rest st out,
    At src i (t ++ rest) -> CI src i st out s ->
    exists st',
      compact_loop true src i (t ++ rest) st
      = compact_loop true src (i + List.length t) rest st'
      /\ CI src (i + List.length t) st' (out ++ x) s'.

Definition member_compact (m : bytes * value) : bytes :=
  string_text (escapeHTML (fst m)) ++ ":" :: compact_text (escaped (snd m)).

Definition compacts_value (v : value) (t : bytes) : Prop :=
  forall f et ps,
    beginsValue f = true -> fits ps (nesting v) ->
    exists s',
      Done et ps s'
      /\ compacts t (at_ f et ps) (compact_text (escaped v)) s'.

Definition compacts_elems (vs : list value) (t : bytes) : Prop :=
  forall f et ps,
    beginsValue f = true -> fits (parseArrayValue :: ps) (deepest vs) ->
    exists f',
      ended f' = true
      /\ compacts t (at_ f et (parseArrayValue :: ps))
           (sepConcat [","] (map (fun v => compact_text (escaped v)) vs))
           (at_ f' et (parseArrayValue :: ps)).

Definition compacts_members (ms : list (bytes * value)) (t : bytes) : Prop :=
  forall f et ps,
    beginsKey f = true -> fits (parseObjectKey :: ps) (deepestMember ms) ->
    exists f',
      ended f' = true
      /\ compacts t (at_ f et (parseObjectKey :: ps))
           (sepConcat [","] (map member_compact ms))
           (at_ f' et (parseObjectValue :: ps)).

End compacting.

(** The views of [vs] that [keep] marks. *)
Fixpoint select (keep : list bool) (vs : list string) : list string :=
  match keep, vs with
  | b :: keep', v :: vs' =>
      if b then v :: select keep' vs' else select keep' vs'
  | _, _ => []
  end.

Import jsontext.

(** *** The date of a run *)





(** *** The paths of the snapshot files *)



(** *** Sample rows *)

(** What [json_agg] writes between two rows, after the comma: a space, a
    line feed and a space. *)
Definition row_gap : bytes := [" "; "010"; " "]%char.

(** Rows the way the database writes them, one object per line. *)
Definition rows_sample : bytes :=
  (dq "[{'unit':'A&E','wait':12.50}," ++ row_gap
     ++ dq "{'unit':'<1h','wait':7}]")%list.

(** The document [rows_sample] is a text of. *)
Definition rows_sample_value : value :=
  Arr [Obj [(bytes_of "unit", Str (bytes_of "A&E"));
            (bytes_of "wait",
             Num (mkNumber false (bytes_of "12") (Some (bytes_of "50")) None))];
       Obj [(bytes_of "unit", Str (bytes_of "<1h"));
            (bytes_of "wait", Num (mkNumber false (bytes_of "7") None None))]].

(** What [addExportDateToJSON] makes of [rows_sample]. *)
Definition rows_sample_doc : bytes :=
  dq "{'data':[{'unit':'A\u0026E','wait':12.50},{'unit':'\u003c1h','wait':7}],'export_date':'2024-03-09'}".

(** The snapshot file of [rows_sample]. *)
Definition rows_sample_file : bytes :=
  dq "{
  'data': [
    {
      'unit': 'A\u0026E',
      'wait': 12.50
    },
    {
      'unit': '\u003c1h',
      'wait': 7
    }
  ],
  'export_date': '2024-03-09'
}".

(** *** The connection, the queries and the sub-processes of a run *)

Definition isOpen (e : event) : bool :=
  match e with
  | EvSqlOpen _ _ => true
  | _ => false
  end.

Definition isClose (e : event) : bool :=
  match e with
  | EvClose => true
  | _ => false
  end.

(** The events of a session on the database: anything but opening or
    closing the connection, or leaving the process. *)
Definition inSession (e : event) : bool :=
  match e with
  | EvSqlOpen _ _ | EvClose | EvExit _ => false
  | _ => true
  end.

(** The queries among some events, in order. *)
Fixpoint queries (es : list event) : list string :=
  match es with
  | [] => []
  | EvQueryRow query :: es' => query :: queries es'
  | _ :: es' => queries es'
  end.

(** The events of one view: its query, its file, the line it prints. *)
Definition isViewEvent (e : event) : bool :=
  match e with
  | EvQueryRow _ | EvWriteFile _ _ _ | EvPrintf _ _ => true
  | _ => false
  end.

(** The events of the publisher. *)
Definition isGitEvent (e : event) : bool :=
  match e with
  | EvChdir _ | EvCommand _ _ | EvPrintln _ | EvPrintf _ _ => true
  | _ => false
  end.

(** The process after [p] once the publisher has entered [repoPath],
    staged and committed. *)
Definition committed (p : Proc) (repoPath commitMessage : string) : Proc :=
  record (staged p repoPath)
    [EvCommand "git" (commitArgs commitMessage);
     EvPrintf ("Committed changes with message: %s" ++ LF)
       [AString ("Data export " ++ commitMessage)]].

(** The line that ends a run without error. *)
Definition successLine : event :=
  EvPrintln "Data export and Git operations completed successfully".

(** A world in which the output directory cannot be entered. *)
Definition world_no_repository : World :=
  {| w_environ := [("DB_PORT", "5432")];
     w_cwd := "/srv/exporter";
     w_dotenv := inl [];
     w_sql_Open := fun _ _ _ => None;
     w_Ping := fun _ => None;
     w_Close := fun _ => None;
     w_MkdirAll := fun _ _ _ => None;
     w_Now := fun _ => time.mkTime 2024 3 9;
     w_Scan := fun _ _ => inl None;
     w_WriteFile := fun _ _ _ _ => None;
     w_Getwd := fun _ => None;
     w_Chdir := fun _ dir =>
       if String.eqb dir "data_exports"
       then Some (ErrExternal "chdir data_exports: permission denied")
       else None;
     w_CombinedOutput := fun _ _ _ => ([], None) |}.

(** A world in which every query fails and nothing else does. *)
Definition world_no_views : World :=
  {| w_environ := [("DB_PORT", "5432")];
     w_cwd := "/srv/exporter";
     w_dotenv := inl [];
     w_sql_Open := fun _ _ _ => None;
     w_Ping := fun _ => None;
     w_Close := fun _ => None;
     w_MkdirAll := fun _ _ _ => None;
     w_Now := fun _ => time.mkTime 2024 3 9;
     w_Scan := fun _ _ => inr (ErrExternal "pq: permission denied");
     w_WriteFile := fun _ _ _ _ => None;
     w_Getwd := fun _ => None;
     w_Chdir := fun _ _ => None;
     w_CombinedOutput := fun _ _ _ => ([], None) |}.

Definition isSuccessLine (e : event) : bool :=
  match e with
  | EvPrintln line =>
      String.eqb line "Data export and Git operations completed successfully"
  | _ => false
  end.

(** The line that ends [main] after the publisher. *)
Definition lastLine (r : option error) : event :=
  match r with
  | Some err => EvPrintf ("Error with Git operations: %v" ++ LF) [AError err]
  | None => successLine
  end.




(** * Lemmas and theorems *)

(** ** The scanner on JSON texts *)

Module ScannerFacts.

Import json jsontext scanning.
#[local] Open Scope char_scope.
#[local] Open Scope list_scope.

Lemma isSpace_cases c :
  isSpace c = true -> c = " " \/ c = "009" \/ c = "013" \/ c = "010".
Proof. each_byte c; intros H; try discriminate H; auto. Qed.

Lemma isDigit_cases c :
  isDigit c = true ->
  In c ["0"; "1"; "2"; "3"; "4"; "5"; "6"; "7"; "8"; "9"].
Proof. each_byte c; intros H; try discriminate H; simpl; auto 11. Qed.

Lemma isHex_cases c :
  isHex c = true ->
  In c ["0"; "1"; "2"; "3"; "4"; "5"; "6"; "7"; "8"; "9";
        "a"; "b"; "c"; "d"; "e"; "f"; "A"; "B"; "C"; "D"; "E"; "F"].
Proof. each_byte c; intros H; try discriminate H; simpl; auto 23. Qed.

Lemma space_begin f et ps c :
  isSpace c = true -> beginsValue f || beginsKey f = true ->
  scan_step (at_ f et ps) c = (at_ f et ps, scanSkipSpace).
Proof.
  intros Hc Hf. destruct (isSpace_cases c Hc) as [->|[->|[->| ->]]];
    destruct f; try discriminate Hf; reflexivity.
Qed.

Lemma space_end f et p ps c :
  isSpace c = true -> ended f = true ->
  scan_step (at_ f et (p :: ps)) c
  = (at_ stateEndValue et (p :: ps), scanSkipSpace).
Proof.
  intros Hc Hf. destruct (isSpace_cases c Hc) as [->|[->|[->| ->]]];
    destruct f; try discriminate Hf; reflexivity.
Qed.

Lemma continues_app s t s1 t' s' :
  continues s t s1 -> continues s1 t' s' -> continues s (t ++ t') s'.
Proof.
  revert s; induction t as [|c t IH]; intros s; cbn [continues app].
  - now intros ->.
  - intros (s2 & H1 & H2) H3. exists s2. split; [exact H1|]. now apply IH.
Qed.

Lemma continues_one s c s' :
  scan_step s c = (s', scanContinue) -> continues s [c] s'.
Proof. intros H. exists s'. now split. Qed.

(** *** String literals *)

Lemma scan_plain et ps c :
  isPlain c = true ->
  scan_step (at_ stateInString et ps) c = (at_ stateInString et ps, scanContinue).
Proof. each_byte c; intros H; try discriminate H; reflexivity. Qed.

Lemma scan_backslash et ps :
  scan_step (at_ stateInString et ps) "\"
  = (at_ stateInStringEsc et ps, scanContinue).
Proof. reflexivity. Qed.

Lemma scan_simple_escape et ps c :
  isSimpleEscape c = true ->
  scan_step (at_ stateInStringEsc et ps) c
  = (at_ stateInString et ps, scanContinue).
Proof. each_byte c; intros H; try discriminate H; reflexivity. Qed.

Lemma scan_hex et ps c f f' :
  isHex c = true ->
  match f with
  | stateInStringEscU => f' = stateInStringEscU1
  | stateInStringEscU1 => f' = stateInStringEscU12
  | stateInStringEscU12 => f' = stateInStringEscU123
  | stateInStringEscU123 => f' = stateInString
  | _ => False
  end ->
  scan_step (at_ f et ps) c = (at_ f' et ps, scanContinue).
Proof.
  intros Hc Hf.
  destruct f; try contradiction; subst f'; cbn; unfold expectHex;
    rewrite Hc; reflexivity.
Qed.

Lemma scan_body et ps b :
  wf_body b = true ->
  continues (at_ stateInString et ps) (b ++ [quote]) (at_ stateEndValue et ps).
Proof.
  remember (List.length b) as n eqn:Hn.
  revert b Hn. induction n as [n IH] using lt_wf_ind. intros b Hn Hb.
  destruct b as [|c b]; cbn [wf_body] in Hb.
  - cbn. eexists. split; reflexivity.
  - destruct (Ascii.eqb_spec c "\") as [->|Hc].
    + destruct b as [|e b]; [discriminate|].
      destruct (Ascii.eqb_spec e "u") as [->|He].
      * destruct b as [|h1 [|h2 [|h3 [|h4 b]]]]; try discriminate.
        apply andb_prop in Hb as [Hb Hb'].
        apply andb_prop in Hb as [Hb H4]. apply andb_prop in Hb as [Hb H3].
        apply andb_prop in Hb as [H1 H2].
        cbn [app continues].
        eexists; split; [apply scan_backslash|].
        eexists; split; [reflexivity|].
        eexists; split; [apply (scan_hex et ps h1 stateInStringEscU _ H1 eq_refl)|].
        eexists; split; [apply (scan_hex et ps h2 stateInStringEscU1 _ H2 eq_refl)|].
        eexists; split; [apply (scan_hex et ps h3 stateInStringEscU12 _ H3 eq_refl)|].
        eexists; split; [apply (scan_hex et ps h4 stateInStringEscU123 _ H4 eq_refl)|].
        apply (IH (List.length b)); [subst n; cbn; lia | reflexivity | exact Hb'].
      * apply andb_prop in Hb as [He' Hb'].
        cbn [app continues].
        eexists; split; [apply scan_backslash|].
        eexists; split; [apply scan_simple_escape; exact He'|].
        apply (IH (List.length b)); [subst n; cbn; lia | reflexivity | exact Hb'].
    + apply andb_prop in Hb as [Hp Hb'].
      cbn [app continues].
      eexists; split; [apply scan_plain; exact Hp|].
      apply (IH (List.length b)); [subst n; cbn; lia | reflexivity | exact Hb'].
Qed.

Lemma scan_quote_value f et ps :
  beginsValue f || beginsKey f = true ->
  scan_step (at_ f et ps) quote = (at_ stateInString et ps, scanBeginLiteral).
Proof. destruct f; try discriminate; reflexivity. Qed.

(** *** Number literals *)

Lemma scan_digits f et ps t :
  forallb isDigit t = true ->
  match f with state1 | stateDot0 | stateE0 => True | _ => False end ->
  continues (at_ f et ps) t (at_ f et ps).
Proof.
  intros Ht Hf. induction t as [|c t IH]; cbn [continues].
  - reflexivity.
  - cbn in Ht. apply andb_prop in Ht as [Hc Ht].
    exists (at_ f et ps). split; [|now apply IH].
    destruct f; try contradiction; cbn; rewrite Hc; reflexivity.
Qed.

Lemma scan_exponent f et ps (x : option (ascii * bytes * bytes)) :
  match f with state0 | state1 | stateDot0 => True | _ => False end ->
  match x with
  | None => True
  | Some (e, sg, d) =>
      ((e =? "e") || (e =? "E")) && wf_sign sg && digits d = true
  end ->
  continues (at_ f et ps)
    match x with
    | None => []
    | Some (e, sg, d) => e :: sg ++ d
    end
    (at_ match x with None => f | Some _ => stateE0 end et ps).
Proof.
  intros Hf Hx. destruct x as [[[e sg] d]|]; [|reflexivity].
  apply andb_prop in Hx as [Hx Hd]. apply andb_prop in Hx as [He Hsg].
  unfold digits in Hd. apply andb_prop in Hd as [Hne Hd].
  destruct d as [|c d]; [discriminate|]. cbn in Hd.
  apply andb_prop in Hd as [Hc Hd].
  assert (Hstep : scan_step (at_ f et ps) e = (at_ stateE et ps, scanContinue)).
  { apply orb_prop in He as [He|He]; apply Ascii.eqb_eq in He; subst e;
      destruct f; try contradiction; reflexivity. }
  assert (Hdig : continues (at_ stateESign et ps) (c :: d) (at_ stateE0 et ps)).
  { cbn [continues]. exists (at_ stateE0 et ps). split.
    - cbn. unfold do_stateESign. rewrite Hc. reflexivity.
    - now apply scan_digits. }
  cbn [continues]. exists (at_ stateE et ps). split; [exact Hstep|].
  destruct sg as [|s [|s' sg]]; [| |discriminate].
  - cbn [app continues]. exists (at_ stateE0 et ps). split.
    + destruct (isDigit_cases c Hc)
        as [<-|[<-|[<-|[<-|[<-|[<-|[<-|[<-|[<-|[<-|[]]]]]]]]]]]; reflexivity.
    + now apply scan_digits.
  - cbn [app]. cbn [continues]. exists (at_ stateESign et ps). split.
    + cbn in Hsg. apply orb_prop in Hsg as [H|H]; apply Ascii.eqb_eq in H;
        subst s; reflexivity.
    + exact Hdig.
Qed.

Lemma scan_fraction f et ps (x : option bytes) :
  match f with state0 | state1 => True | _ => False end ->
  match x with
  | None => True
  | Some d => digits d = true
  end ->
  continues (at_ f et ps)
    match x with
    | None => []
    | Some d => "." :: d
    end
    (at_ match x with None => f | Some _ => stateDot0 end et ps).
Proof.
  intros Hf Hx. destruct x as [d|]; [|reflexivity].
  unfold digits in Hx. apply andb_prop in Hx as [Hne Hd].
  destruct d as [|c d]; [discriminate|]. cbn in Hd.
  apply andb_prop in Hd as [Hc Hd].
  cbn [continues]. exists (at_ stateDot et ps). split.
  { destruct f; try contradiction; reflexivity. }
  exists (at_ stateDot0 et ps). split.
  { cbn. rewrite Hc. reflexivity. }
  now apply scan_digits.
Qed.

Lemma ended_number_end n : ended (number_end n) = true.
Proof.
  unfold number_end. destruct (n_exp n); [reflexivity|].
  destruct (n_frac n); [reflexivity|].
  destruct (n_int n) as [|c t]; [reflexivity|].
  each_byte c; reflexivity.
Qed.

Lemma scan_int_tail n g et ps :
  wf_number n = true ->
  g = match n_int n with "0" :: _ => state0 | _ => state1 end ->
  continues (at_ g et ps)
    (match n_frac n with None => [] | Some d => "." :: d end
     ++ match n_exp n with
        | None => []
        | Some (e, sg, d) => e :: sg ++ d
        end) (at_ (number_end n) et ps).
Proof.
  intros Hn Hg. unfold wf_number in Hn.
  apply andb_prop in Hn as [Hn Hexp]. apply andb_prop in Hn as [Hint Hfrac].
  assert (Hg' : match g with state0 | state1 => True | _ => False end).
  { subst g. destruct (n_int n) as [|c t]; [exact I|]. each_byte c; exact I. }
  eapply continues_app.
  - apply scan_fraction; [exact Hg'|].
    destruct (n_frac n); [exact Hfrac | exact I].
  - replace (number_end n)
      with (match n_exp n with
            | None => match n_frac n with None => g | Some _ => stateDot0 end
            | Some _ => stateE0
            end).
    + apply scan_exponent.
      * destruct (n_frac n); [exact I|].
        destruct g; try contradiction; exact I.
      * destruct (n_exp n) as [[[e sg] d]|]; [exact Hexp | exact I].
    + unfold number_end. subst g. reflexivity.
Qed.

Lemma scan_int_digits c t g et ps :
  wf_int (c :: t) = true ->
  g = match c :: t with "0" :: _ => state0 | _ => state1 end ->
  continues (at_ g et ps) t (at_ g et ps).
Proof.
  intros Hint Hg. cbn [wf_int] in Hint.
  destruct (Ascii.eqb_spec c "0") as [->|Hc].
  - destruct t; [reflexivity | discriminate].
  - apply andb_prop in Hint as [H19 Ht].
    assert (g = state1) as ->.
    { subst g. revert Hc. clear. each_byte c; intros; try reflexivity.
      now contradiction Hc. }
    now apply scan_digits.
Qed.

Lemma scan_number n :
  wf_number n = true -> Literal (number_text n) (number_end n).
Proof.
  intros Hn. pose proof Hn as Hn'. unfold wf_number in Hn'.
  apply andb_prop in Hn' as [Hn' _]. apply andb_prop in Hn' as [Hint _].
  unfold number_text.
  destruct (n_int n) as [|c t] eqn:Ei; [discriminate|].
  set (g := match c :: t with "0" :: _ => state0 | _ => state1 end).
  assert (Hrest : forall et ps,
             continues (at_ g et ps)
               (t ++ match n_frac n with None => [] | Some d => "." :: d end
                  ++ match n_exp n with
                     | None => []
                     | Some (e, sg, d) => e :: sg ++ d
                     end) (at_ (number_end n) et ps)).
  { intros et ps. eapply continues_app.
    - now apply (scan_int_digits c t g et ps).
    - apply scan_int_tail; [exact Hn|]. now rewrite Ei. }
  assert (Hc : isDigit c = true
               /\ forall f et ps, beginsValue f = true \/ f = stateNeg ->
                    scan_step (at_ f et ps) c
                    = (at_ g et ps,
                       if beginsValue f then scanBeginLiteral else scanContinue)).
  { subst g. cbn [wf_int] in Hint.
    destruct (Ascii.eqb_spec c "0") as [->|Hc0].
    - split; [reflexivity|]. intros f et ps [Hf| ->];
        [destruct f; try discriminate Hf|]; reflexivity.
    - apply andb_prop in Hint as [H19 _]. clear - H19 Hc0.
      revert H19 Hc0. each_byte c; intros H19 Hc0; try discriminate H19;
        try (now contradiction Hc0);
        (split; [reflexivity|]; intros f et ps [Hf| ->];
         [destruct f; try discriminate Hf|]; reflexivity). }
  destruct Hc as [Hd Hc].
  destruct (n_minus n).
  - exists "-", (c :: t ++ match n_frac n with None => [] | Some d => "." :: d end
                      ++ match n_exp n with
                         | None => []
                         | Some (e, sg, d) => e :: sg ++ d
                         end).
    split; [reflexivity|]. split; [reflexivity|].
    intros f et ps Hf. exists (at_ stateNeg et ps). split.
    + destruct f; try discriminate Hf; reflexivity.
    + cbn [continues]. exists (at_ g et ps). split.
      * rewrite (Hc stateNeg et ps (or_intror eq_refl)). reflexivity.
      * apply Hrest.
  - exists c, (t ++ match n_frac n with None => [] | Some d => "." :: d end
                 ++ match n_exp n with
                    | None => []
                    | Some (e, sg, d) => e :: sg ++ d
                    end).
    split; [reflexivity|]. split.
    { unfold startsLiteral. rewrite Hd. now rewrite !orb_true_r. }
    intros f et ps Hf. exists (at_ g et ps). split.
    + rewrite (Hc f et ps (or_introl Hf)), Hf. reflexivity.
    + apply Hrest.
Qed.

Lemma scan_string body :
  wf_body body = true -> Literal (string_text body) stateEndValue.
Proof.
  intros Hb. exists quote, (body ++ [quote]).
  split; [reflexivity|]. split; [reflexivity|].
  intros f et ps Hf. exists (at_ stateInString et ps). split.
  - apply scan_quote_value. now rewrite Hf.
  - now apply scan_body.
Qed.

Lemma scan_keyword t :
  In t [bytes_of "null"; bytes_of "true"; bytes_of "false"] ->
  Literal t stateEndValue.
Proof.
  intros [<-|[<-|[<-|[]]]];
    (eexists; eexists; split; [reflexivity|]; split; [reflexivity|];
     intros f et ps Hf; eexists; split;
     [destruct f; try discriminate Hf; reflexivity|];
     cbn [continues];
     repeat (eexists; split; [reflexivity|]); reflexivity).
Qed.

Lemma Done_cons et p ps s :
  Done et (p :: ps) s -> exists f, ended f = true /\ s = at_ f et (p :: ps).
Proof.
  intros [->|H]; [|exact H]. exists stateEndValue. now split.
Qed.

Lemma fits_le ps n m : fits ps n -> m <= n -> fits ps m.
Proof. unfold fits. lia. Qed.

Lemma fits_push p ps n : fits ps (S n) -> fits (p :: ps) n.
Proof. unfold fits. cbn [List.length]. lia. Qed.

Lemma fits_same p q ps n : fits (p :: ps) n -> fits (q :: ps) n.
Proof. unfold fits. cbn [List.length]. lia. Qed.

Lemma scan_open_array f et ps :
  beginsValue f = true -> fits ps 1 ->
  scan_step (at_ f et ps) "["
  = (at_ stateBeginValueOrEmpty et (parseArrayValue :: ps), scanBeginArray).
Proof.
  intros Hf Hfit. unfold fits in Hfit.
  assert (H : (Z.of_nat (List.length (parseArrayValue :: ps))
               <=? maxNestingDepth)%Z = true).
  { apply Z.leb_le. cbn [List.length]. lia. }
  destruct f; try discriminate Hf; cbn; unfold pushParseState;
    cbn [parseState set_parseState set_step at_]; rewrite H; reflexivity.
Qed.

Lemma scan_open_object f et ps :
  beginsValue f = true -> fits ps 1 ->
  scan_step (at_ f et ps) "{"
  = (at_ stateBeginStringOrEmpty et (parseObjectKey :: ps), scanBeginObject).
Proof.
  intros Hf Hfit. unfold fits in Hfit.
  assert (H : (Z.of_nat (List.length (parseObjectKey :: ps))
               <=? maxNestingDepth)%Z = true).
  { apply Z.leb_le. cbn [List.length]. lia. }
  destruct f; try discriminate Hf; cbn; unfold pushParseState;
    cbn [parseState set_parseState set_step at_]; rewrite H; reflexivity.
Qed.

Lemma scan_close_empty_array et ps :
  scan_step (at_ stateBeginValueOrEmpty et (parseArrayValue :: ps)) "]"
  = (closed et ps, scanEndArray).
Proof. destruct ps; reflexivity. Qed.

Lemma scan_close_empty_object et ps :
  scan_step (at_ stateBeginStringOrEmpty et (parseObjectKey :: ps)) "}"
  = (closed et ps, scanEndObject).
Proof. destruct ps; reflexivity. Qed.

Lemma scan_close_array f et ps :
  ended f = true ->
  scan_step (at_ f et (parseArrayValue :: ps)) "]"
  = (closed et ps, scanEndArray).
Proof. destruct f; try discriminate; destruct ps; reflexivity. Qed.

Lemma scan_close_object f et ps :
  ended f = true ->
  scan_step (at_ f et (parseObjectValue :: ps)) "}"
  = (closed et ps, scanEndObject).
Proof. destruct f; try discriminate; destruct ps; reflexivity. Qed.

Lemma scan_comma_array f et ps :
  ended f = true ->
  scan_step (at_ f et (parseArrayValue :: ps)) ","
  = (at_ stateBeginValue et (parseArrayValue :: ps), scanArrayValue).
Proof. destruct f; try discriminate; reflexivity. Qed.

Lemma scan_comma_object f et ps :
  ended f = true ->
  scan_step (at_ f et (parseObjectValue :: ps)) ","
  = (at_ stateBeginString et (parseObjectKey :: ps), scanObjectValue).
Proof. destruct f; try discriminate; reflexivity. Qed.

Lemma scan_colon f et ps :
  ended f = true ->
  scan_step (at_ f et (parseObjectKey :: ps)) ":"
  = (at_ stateBeginValue et (parseObjectValue :: ps), scanObjectKey).
Proof. destruct f; try discriminate; reflexivity. Qed.

End ScannerFacts.

(** ** [Indent] on JSON texts *)

Module IndentFacts.

Import json jsontext scanning indenting ScannerFacts.
#[local] Open Scope char_scope.
#[local] Open Scope list_scope.

Section Indenting.

Variables prefix indent : string.

Local Notation "'loop'" := (indent_loop prefix indent).
Local Notation "'nl'" := (newline prefix indent).

Lemma appendNewline_nat o d :
  appendNewline o prefix indent (Z.of_nat d) = o ++ nl d.
Proof. unfold appendNewline, newline. now rewrite Nat2Z.id. Qed.

Lemma succ_nat d : (Z.of_nat d + 1)%Z = Z.of_nat (S d).
Proof. lia. Qed.

Lemma pred_nat d : (Z.of_nat (S d) - 1)%Z = Z.of_nat d.
Proof. lia. Qed.

Lemma indent_skip c rest o b d s s' :
  scan_step s c = (s', scanSkipSpace) ->
  loop (c :: rest) (IS o b d s) = loop rest (IS o b d s').
Proof. intros H. unfold IS; cbn [indent_loop i_scan]. rewrite H. reflexivity. Qed.

Lemma indent_spaces ws rest o b d f et ps :
  spaces ws -> beginsValue f || beginsKey f = true ->
  loop (ws ++ rest) (IS o b d (at_ f et ps))
  = loop rest (IS o b d (at_ f et ps)).
Proof.
  intros Hws Hf. induction ws as [|c ws IH]; [reflexivity|].
  unfold spaces in *. cbn in Hws. apply andb_prop in Hws as [Hc Hws].
  cbn [app]. rewrite (indent_skip c _ o b d _ _ (space_begin f et ps c Hc Hf)).
  now apply IH.
Qed.

Lemma indent_spaces_end ws rest o b d f et p ps :
  spaces ws -> ended f = true ->
  exists f', ended f' = true
    /\ loop (ws ++ rest) (IS o b d (at_ f et (p :: ps)))
       = loop rest (IS o b d (at_ f' et (p :: ps))).
Proof.
  intros Hws. revert f. induction ws as [|c ws IH]; intros f Hf.
  - exists f. now split.
  - unfold spaces in *. cbn in Hws. apply andb_prop in Hws as [Hc Hws].
    destruct (IH Hws stateEndValue eq_refl) as (f' & Hf' & H).
    exists f'. split; [exact Hf'|]. cbn [app].
    rewrite (indent_skip c _ o b d _ _ (space_end f et p ps c Hc Hf)).
    exact H.
Qed.

Lemma indent_continues t rest o d s s' :
  continues s t s' ->
  loop (t ++ rest) (IS o false d s) = loop rest (IS (o ++ t) false d s').
Proof.
  revert o s. induction t as [|c t IH]; intros o s; cbn [continues app].
  - intros ->. now rewrite app_nil_r.
  - intros (s1 & H1 & H2). unfold IS; cbn [indent_loop i_scan]. rewrite H1.
    cbn [opcode_eqb i_needIndent andb i_dst i_depth].
    fold (IS (o ++ [c]) false d s1). rewrite (IH _ _ H2).
    now rewrite <- app_assoc.
Qed.

Lemma indent_first c rest o b d s s' :
  startsLiteral c = true ->
  scan_step s c = (s', scanBeginLiteral) ->
  loop (c :: rest) (IS o b d s)
  = loop rest (IS (o ++ pending prefix indent b d ++ [c]) false (deeper b d) s').
Proof.
  intros Hc H. unfold IS; cbn [indent_loop i_scan]. rewrite H.
  cbn [opcode_eqb i_needIndent i_dst i_depth isEnd orb negb andb].
  rewrite andb_true_r.
  assert (Hp : ((c =? "{") || (c =? "["))%bool = false
               /\ (c =? ",") = false /\ (c =? ":") = false
               /\ ((c =? "}") || (c =? "]"))%bool = false).
  { revert Hc. clear. each_byte c; intros Hc; try discriminate Hc;
      repeat split; reflexivity. }
  destruct Hp as (-> & -> & -> & ->).
  destruct b; cbn [pending deeper].
  - rewrite succ_nat, appendNewline_nat, <- app_assoc. reflexivity.
  - reflexivity.
Qed.

Lemma indent_run c t rest o b d s s1 s' :
  startsLiteral c = true ->
  scan_step s c = (s1, scanBeginLiteral) ->
  continues s1 t s' ->
  loop (c :: t ++ rest) (IS o b d s)
  = loop rest (IS (o ++ pending prefix indent b d ++ c :: t) false (deeper b d) s').
Proof.
  intros Hc H1 H2. rewrite (indent_first c _ o b d s s1 Hc H1).
  rewrite (indent_continues t rest _ _ _ _ H2).
  now rewrite <- !app_assoc.
Qed.

Lemma indent_literal t f' rest o b d f et ps :
  Literal t f' -> beginsValue f = true ->
  loop (t ++ rest) (IS o b d (at_ f et ps))
  = loop rest (IS (o ++ pending prefix indent b d ++ t) false (deeper b d) (at_ f' et ps)).
Proof.
  intros (c & t' & -> & Hc & H) Hf.
  destruct (H f et ps Hf) as (s1 & H1 & H2).
  cbn [app]. now apply indent_run with (s1 := s1).
Qed.

Lemma indent_key k rest o b d f et ps :
  wf_body k = true -> beginsKey f = true ->
  loop (string_text k ++ rest) (IS o b d (at_ f et ps))
  = loop rest (IS (o ++ pending prefix indent b d ++ string_text k) false (deeper b d)
                 (at_ stateEndValue et ps)).
Proof.
  intros Hk Hf. unfold string_text. cbn [app].
  apply indent_run with (s1 := at_ stateInString et ps).
  - reflexivity.
  - apply scan_quote_value. rewrite Hf. apply orb_true_r.
  - now apply scan_body.
Qed.

Lemma indent_open c rest o b d s s' v :
  (c = "[" /\ v = scanBeginArray) \/ (c = "{" /\ v = scanBeginObject) ->
  scan_step s c = (s', v) ->
  loop (c :: rest) (IS o b d s)
  = loop rest (IS (o ++ pending prefix indent b d ++ [c]) true (deeper b d) s').
Proof.
  intros Hc H. unfold IS; cbn [indent_loop i_scan]. rewrite H.
  destruct Hc as [[-> ->]|[-> ->]];
    cbn [opcode_eqb i_needIndent i_dst i_depth isEnd orb negb andb];
    rewrite andb_true_r; destruct b; cbn [pending deeper];
    rewrite ?succ_nat, ?appendNewline_nat, <- ?app_assoc; reflexivity.
Qed.

Lemma indent_close_empty c rest o d s s' v :
  (c = "]" /\ v = scanEndArray) \/ (c = "}" /\ v = scanEndObject) ->
  scan_step s c = (s', v) ->
  loop (c :: rest) (IS o true d s) = loop rest (IS (o ++ [c]) false d s').
Proof.
  intros Hc H. unfold IS; cbn [indent_loop i_scan]. rewrite H.
  destruct Hc as [[-> ->]|[-> ->]]; reflexivity.
Qed.

Lemma indent_close c rest o d s s' v :
  (c = "]" /\ v = scanEndArray) \/ (c = "}" /\ v = scanEndObject) ->
  scan_step s c = (s', v) ->
  loop (c :: rest) (IS o false (S d) s)
  = loop rest (IS (o ++ nl d ++ [c]) false d s').
Proof.
  intros Hc H. unfold IS; cbn [indent_loop i_scan]. rewrite H.
  destruct Hc as [[-> ->]|[-> ->]];
    cbn [opcode_eqb i_needIndent i_dst i_depth isEnd orb negb andb
         Ascii.eqb Bool.eqb];
    rewrite pred_nat, appendNewline_nat, <- app_assoc; reflexivity.
Qed.

Lemma indent_comma rest o d s s' v :
  v = scanArrayValue \/ v = scanObjectValue ->
  scan_step s "," = (s', v) ->
  loop ("," :: rest) (IS o false d s)
  = loop rest (IS (o ++ "," :: nl d) false d s').
Proof.
  intros Hc H. unfold IS; cbn [indent_loop i_scan]. rewrite H.
  destruct Hc as [->| ->];
    cbn [opcode_eqb i_needIndent i_dst i_depth isEnd orb negb andb
         Ascii.eqb Bool.eqb];
    rewrite  appendNewline_nat, <- app_assoc; reflexivity.
Qed.

Lemma indent_colon rest o d s s' :
  scan_step s ":" = (s', scanObjectKey) ->
  loop (":" :: rest) (IS o false d s)
  = loop rest (IS (o ++ [":"; " "]) false d s').
Proof. intros H. unfold IS; cbn [indent_loop i_scan]. rewrite H. reflexivity. Qed.

Lemma indent_text :
  (forall v t, Text v t -> indents_value prefix indent v t)
  /\ (forall vs t, Elems vs t -> indents_elems prefix indent vs t)
  /\ (forall ms t, Members ms t -> indents_members prefix indent ms t).
Proof.
  apply Text_Elems_Members_ind.
  - (* null *)
    intros rest o b d f et ps Hf _. eexists. split.
    + right. exists stateEndValue. split; reflexivity.
    + apply indent_literal; [|exact Hf]. apply scan_keyword. cbn; auto.
  - intros rest o b d f et ps Hf _. eexists. split.
    + right. exists stateEndValue. split; reflexivity.
    + apply indent_literal; [|exact Hf]. apply scan_keyword. cbn; auto.
  - intros rest o b d f et ps Hf _. eexists. split.
    + right. exists stateEndValue. split; reflexivity.
    + apply indent_literal; [|exact Hf]. apply scan_keyword. cbn; auto.
  - (* number *)
    intros n Hn rest o b d f et ps Hf _. eexists. split.
    + right. exists (number_end n). split; [apply ended_number_end|reflexivity].
    + apply indent_literal; [|exact Hf]. now apply scan_number.
  - (* string *)
    intros body Hb rest o b d f et ps Hf _. eexists. split.
    + right. exists stateEndValue. split; reflexivity.
    + apply indent_literal; [|exact Hf]. now apply scan_string.
  - (* empty array *)
    intros ws Hws rest o b d f et ps Hf Hfit. exists (closed et ps). split.
    + now left.
    + reassoc.
      rewrite (indent_open "[" _ o b d _ _ scanBeginArray
                 (or_introl (conj eq_refl eq_refl))
                 (scan_open_array f et ps Hf Hfit)).
      rewrite indent_spaces; [|exact Hws|reflexivity].
      rewrite (indent_close_empty "]" _ _ _ _ _ scanEndArray
                 (or_introl (conj eq_refl eq_refl))
                 (scan_close_empty_array et ps)).
      reassoc. reflexivity.
  - (* array *)
    intros elems t He IH rest o b d f et ps Hf Hfit.
    exists (closed et ps). split; [now left|].
    cbn [nesting] in Hfit. fold (deepest elems) in Hfit.
    reassoc.
    rewrite (indent_open "[" _ o b d _ _ scanBeginArray
               (or_introl (conj eq_refl eq_refl))
               (scan_open_array f et ps Hf
                  (fits_le ps _ 1 Hfit ltac:(lia)))).
    destruct (IH ("]" :: rest) (o ++ pending prefix indent b d ++ ["["]) true (deeper b d)
                stateBeginValueOrEmpty et ps eq_refl (fits_push _ _ _ Hfit))
      as (f' & Hf' & ->).
    cbn [deeper].
    rewrite (indent_close "]" _ _ _ _ _ scanEndArray
               (or_introl (conj eq_refl eq_refl))
               (scan_close_array f' et ps Hf')).
    destruct He; cbn [indented_text pending]; reassoc; reflexivity.
  - (* empty object *)
    intros ws Hws rest o b d f et ps Hf Hfit. exists (closed et ps). split.
    + now left.
    + reassoc.
      rewrite (indent_open "{" _ o b d _ _ scanBeginObject
                 (or_intror (conj eq_refl eq_refl))
                 (scan_open_object f et ps Hf Hfit)).
      rewrite indent_spaces; [|exact Hws|reflexivity].
      rewrite (indent_close_empty "}" _ _ _ _ _ scanEndObject
                 (or_intror (conj eq_refl eq_refl))
                 (scan_close_empty_object et ps)).
      reassoc. reflexivity.
  - (* object *)
    intros members t Hm IH rest o b d f et ps Hf Hfit.
    exists (closed et ps). split; [now left|].
    cbn [nesting] in Hfit. fold (deepestMember members) in Hfit.
    reassoc.
    rewrite (indent_open "{" _ o b d _ _ scanBeginObject
               (or_intror (conj eq_refl eq_refl))
               (scan_open_object f et ps Hf
                  (fits_le ps _ 1 Hfit ltac:(lia)))).
    destruct (IH ("}" :: rest) (o ++ pending prefix indent b d ++ ["{"]) true (deeper b d)
                stateBeginStringOrEmpty et ps eq_refl (fits_push _ _ _ Hfit))
      as (f' & Hf' & ->).
    cbn [deeper].
    rewrite (indent_close "}" _ _ _ _ _ scanEndObject
               (or_intror (conj eq_refl eq_refl))
               (scan_close_object f' et ps Hf')).
    destruct Hm; cbn [indented_text pending]; reassoc; reflexivity.
  - (* last element *)
    intros v ws1 t ws2 H1 Ht IH H2 rest o b d f et ps Hf Hfit.
    reassoc. rewrite indent_spaces; [|exact H1|now rewrite Hf].
    destruct (IH (ws2 ++ rest) o b d f et (parseArrayValue :: ps) Hf)
      as (s' & Hs' & ->).
    { eapply fits_le; [exact Hfit|]. cbn. lia. }
    apply Done_cons in Hs' as (f1 & Hf1 & ->).
    destruct (indent_spaces_end ws2 rest
                (o ++ pending prefix indent b d ++ indented_text prefix indent (deeper b d) v)
                false (deeper b d) f1 et parseArrayValue ps H2 Hf1)
      as (f' & Hf' & ->).
    exists f'. split; [exact Hf'|]. reflexivity.
  - (* more elements *)
    intros v ws1 t ws2 v' elems t' H1 Ht IH H2 He IHe rest o b d f et ps Hf Hfit.
    reassoc. rewrite indent_spaces; [|exact H1|now rewrite Hf].
    destruct (IH (ws2 ++ "," :: t' ++ rest) o b d f et (parseArrayValue :: ps)
                Hf) as (s' & Hs' & ->).
    { eapply fits_le; [exact Hfit|]. unfold deepest. cbn [map fold_right]. lia. }
    apply Done_cons in Hs' as (f1 & Hf1 & ->).
    destruct (indent_spaces_end ws2 ("," :: t' ++ rest)
                (o ++ pending prefix indent b d ++ indented_text prefix indent (deeper b d) v)
                false (deeper b d) f1 et parseArrayValue ps H2 Hf1)
      as (f2 & Hf2 & ->).
    rewrite (indent_comma _ _ _ _ _ scanArrayValue (or_introl eq_refl)
               (scan_comma_array f2 et ps Hf2)).
    destruct (IHe rest
                ((o ++ pending prefix indent b d
                    ++ indented_text prefix indent (deeper b d) v)
                   ++ "," :: nl (deeper b d))
                false (deeper b d) stateBeginValue et ps eq_refl)
      as (f' & Hf' & ->).
    { eapply fits_le; [exact Hfit|]. unfold deepest. cbn [map fold_right]. lia. }
    exists f'. split; [exact Hf'|].
    cbn [pending deeper map sepConcat]. reassoc. reflexivity.
  - (* last member *)
    intros k v ws1 ws2 ws3 t ws4 H1 Hk H2 H3 Ht IH H4
      rest o b d f et ps Hf Hfit.
    reassoc. rewrite indent_spaces; [|exact H1|rewrite Hf; apply orb_true_r].
    rewrite (indent_key k _ o b d f et _ Hk Hf).
    destruct (indent_spaces_end ws2 (":" :: ws3 ++ t ++ ws4 ++ rest)
                (o ++ pending prefix indent b d ++ string_text k) false (deeper b d)
                stateEndValue et parseObjectKey ps H2 eq_refl)
      as (f1 & Hf1 & ->).
    rewrite (indent_colon _ _ _ _ _ (scan_colon f1 et ps Hf1)).
    rewrite indent_spaces; [|exact H3|reflexivity].
    destruct (IH (ws4 ++ rest) ((o ++ pending prefix indent b d ++ string_text k) ++ [":"; " "])
                false (deeper b d) stateBeginValue et (parseObjectValue :: ps)
                eq_refl) as (s' & Hs' & ->).
    { eapply fits_le; [eapply fits_same; exact Hfit|].
      unfold deepestMember. cbn. lia. }
    apply Done_cons in Hs' as (f2 & Hf2 & ->).
    destruct (indent_spaces_end ws4 rest
                (((o ++ pending prefix indent b d ++ string_text k) ++ [":"; " "])
                   ++ pending prefix indent false (deeper b d)
                   ++ indented_text prefix indent
                        (deeper false (deeper b d)) v)
                false (deeper false (deeper b d)) f2 et parseObjectValue ps
                H4 Hf2) as (f' & Hf' & ->).
    exists f'. split; [exact Hf'|].
    cbn [pending deeper map sepConcat member_text fst snd]. reassoc.
    reflexivity.
  - (* more members *)
    intros k v ws1 ws2 ws3 t ws4 m members t' H1 Hk H2 H3 Ht IH H4 Hm IHm
      rest o b d f et ps Hf Hfit.
    reassoc. rewrite indent_spaces; [|exact H1|rewrite Hf; apply orb_true_r].
    rewrite (indent_key k _ o b d f et _ Hk Hf).
    destruct (indent_spaces_end ws2
                (":" :: ws3 ++ t ++ ws4 ++ "," :: t' ++ rest)
                (o ++ pending prefix indent b d ++ string_text k) false (deeper b d)
                stateEndValue et parseObjectKey ps H2 eq_refl)
      as (f1 & Hf1 & ->).
    rewrite (indent_colon _ _ _ _ _ (scan_colon f1 et ps Hf1)).
    rewrite indent_spaces; [|exact H3|reflexivity].
    destruct (IH (ws4 ++ "," :: t' ++ rest)
                ((o ++ pending prefix indent b d ++ string_text k) ++ [":"; " "])
                false (deeper b d) stateBeginValue et (parseObjectValue :: ps)
                eq_refl) as (s' & Hs' & ->).
    { eapply fits_le; [eapply fits_same; exact Hfit|].
      unfold deepestMember. cbn [map fold_right snd]. lia. }
    apply Done_cons in Hs' as (f2 & Hf2 & ->).
    destruct (indent_spaces_end ws4 ("," :: t' ++ rest)
                (((o ++ pending prefix indent b d ++ string_text k) ++ [":"; " "])
                   ++ pending prefix indent false (deeper b d)
                   ++ indented_text prefix indent
                        (deeper false (deeper b d)) v)
                false (deeper false (deeper b d)) f2 et parseObjectValue ps
                H4 Hf2) as (f3 & Hf3 & ->).
    cbn [deeper pending].
    rewrite (indent_comma _ _ _ _ _ scanObjectValue (or_intror eq_refl)
               (scan_comma_object f3 et ps Hf3)).
    destruct (IHm rest
                ((((o ++ pending prefix indent b d ++ string_text k) ++ [":"; " "]) ++ []
                    ++ indented_text prefix indent (deeper b d) v)
                   ++ "," :: nl (deeper b d))
                false (deeper b d) stateBeginString et ps eq_refl)
      as (f' & Hf' & ->).
    { eapply fits_le; [exact Hfit|].
      unfold deepestMember. cbn [map fold_right snd]. lia. }
    exists f'. split; [exact Hf'|].
    cbn [pending deeper map sepConcat].
    change (member_text prefix indent (deeper b d) (k, v))
      with (string_text k ++ ":" :: " "
              :: indented_text prefix indent (deeper b d) v).
    reassoc. reflexivity.
Qed.

(** [Indent] lays a JSON text out as [indented_text], whatever whitespace
    the text had between its tokens. *)
Theorem Indent_text v t :
  Text v t -> fits [] (nesting v) ->
  Indent t prefix indent = inl (indented_text prefix indent 0 v).
Proof.
  intros Ht Hfit. destruct indent_text as (H & _ & _).
  destruct (H v t Ht [] [] false 0 stateBeginValue false [] eq_refl Hfit)
    as (s' & Hs' & Hloop).
  unfold Indent. rewrite app_nil_r in Hloop.
  change {| i_dst := []; i_needIndent := false; i_depth := 0;
            i_scan := newScanner |}
    with (IS [] false 0 (at_ stateBeginValue false [])).
  rewrite Hloop. cbn [indent_loop IS i_scan i_dst pending deeper app].
  destruct Hs' as [->|(f & Hf & ->)].
  - reflexivity.
  - destruct f; try discriminate Hf; reflexivity.
Qed.

End Indenting.

End IndentFacts.

(** ** [appendCompact] on JSON texts *)

Module CompactFacts.

Import json jsontext scanning compacting ScannerFacts.
#[local] Open Scope char_scope.
#[local] Open Scope list_scope.

Lemma compact_loop_cons src i c rest st :
  compact_loop true src i (c :: rest) st =
  let dst1 := if isHTML c
              then flush src (c_dst st) (c_start st) i ++ escape6 c
              else c_dst st in
  let start1 := if isHTML c then S i else c_start st in
  let dst2 := if isLineSep c rest
              then flush src dst1 start1 i
                     ++ escapeSep (nth 1 rest "000")
              else dst1 in
  let start2 := if isLineSep c rest then i + 3 else start1 in
  let '(scan, v) := scan_step (c_scan st) c in
  if ge_scanSkipSpace v then
    if opcode_eqb v scanError then CS dst2 start2 scan
    else compact_loop true src (S i) rest (CS (flush src dst2 start2 i) (S i) scan)
  else compact_loop true src (S i) rest (CS dst2 start2 scan).
Proof.
  cbn [compact_loop andb]. unfold isLineSep, escape6, escapeSep, CS.
  destruct (isHTML c);
    destruct rest as [|c1 [|c2 rest]]; cbn [nth];
    try destruct ((code c =? 226)%N && (code c1 =? 128)%N
                  && (N.ldiff (code c2) 1 =? 168)%N);
    destruct (scan_step (c_scan st) c) as [scan v]; reflexivity.
Qed.

Lemma At_app src i t rest :
  At src i (t ++ rest) -> At src (i + List.length t) rest.
Proof.
  intros (pre & -> & <-). exists (pre ++ t). split.
  - now rewrite <- app_assoc.
  - apply length_app.
Qed.

Lemma At_cons src i c rest : At src i (c :: rest) -> At src (S i) rest.
Proof.
  intros H. apply (At_app src i [c] rest) in H. now rewrite Nat.add_1_r in H.
Qed.

Lemma slice_snoc src i c rest start :
  At src i (c :: rest) -> start <= i ->
  slice src start (S i) = slice src start i ++ [c].
Proof.
  intros (pre & -> & <-) Hs. unfold slice.
  rewrite skipn_app. replace (start - List.length pre) with 0 by lia.
  cbn [skipn].
  assert (Hl : List.length (skipn start pre) = List.length pre - start)
    by apply length_skipn.
  rewrite !firstn_app, Hl.
  replace (List.length pre - start - (List.length pre - start)) with 0 by lia.
  replace (S (List.length pre) - start - (List.length pre - start)) with 1
    by lia.
  cbn [firstn]. rewrite app_nil_r.
  rewrite !firstn_all2 by lia. reflexivity.
Qed.

Lemma slice_empty src start i : i <= start -> slice src start i = [].
Proof. intros H. unfold slice. now replace (i - start) with 0 by lia. Qed.

Lemma flush_written src st i : flush src (c_dst st) (c_start st) i = written src st i.
Proof.
  unfold flush, written. destruct (Nat.ltb_spec (c_start st) i); [reflexivity|].
  now rewrite slice_empty, app_nil_r by lia.
Qed.

(** One byte that is kept. *)
Lemma compact_keep src i c rest st out s s' v :
  At src i (c :: rest) -> CI src i st out s ->
  isHTML c = false -> isLineSep c rest = false ->
  scan_step s c = (s', v) -> ge_scanSkipSpace v = false ->
  exists st',
    compact_loop true src i (c :: rest) st
    = compact_loop true src (S i) rest st'
    /\ CI src (S i) st' (out ++ [c]) s'.
Proof.
  intros Hat (Hs & Hst & Hw) Hh Hl Hstep Hv.
  rewrite compact_loop_cons, Hh, Hl, Hs, Hstep. cbv zeta. rewrite Hv.
  eexists. split; [reflexivity|]. unfold CI, CS, written in *.
  cbn [c_scan c_start c_dst].
  split; [reflexivity|]. split; [lia|].
  rewrite (slice_snoc src i c rest _ Hat Hst), app_assoc. now rewrite Hw.
Qed.

(** One byte of whitespace between tokens, which is dropped. *)
Lemma compact_drop src i c rest st out s s' :
  At src i (c :: rest) -> CI src i st out s ->
  isSpace c = true ->
  scan_step s c = (s', scanSkipSpace) ->
  exists st',
    compact_loop true src i (c :: rest) st
    = compact_loop true src (S i) rest st'
    /\ CI src (S i) st' out s'.
Proof.
  intros Hat (Hs & Hst & Hw) Hc Hstep.
  assert (Hh : isHTML c = false /\ isLineSep c rest = false).
  { destruct (isSpace_cases c Hc) as [->|[->|[->| ->]]];
      (split; [reflexivity|]); destruct rest as [|c1 [|c2 r]]; reflexivity. }
  destruct Hh as [Hh Hl].
  rewrite compact_loop_cons, Hh, Hl, Hs, Hstep. cbv zeta.
  cbn [ge_scanSkipSpace opcode_eqb].
  eexists. split; [reflexivity|]. unfold CI, CS. cbn [c_scan c_start c_dst].
  split; [reflexivity|]. split; [lia|].
  unfold written. cbn [c_dst c_start]. rewrite flush_written, Hw.
  now rewrite slice_empty, app_nil_r by lia.
Qed.

(** One of [<], [>], [&] inside a string literal. *)
Lemma compact_html src i c rest st out s s' :
  At src i (c :: rest) -> CI src i st out s ->
  isHTML c = true ->
  scan_step s c = (s', scanContinue) ->
  exists st',
    compact_loop true src i (c :: rest) st
    = compact_loop true src (S i) rest st'
    /\ CI src (S i) st' (out ++ escape6 c) s'.
Proof.
  intros Hat (Hs & Hst & Hw) Hh Hstep.
  assert (Hl : isLineSep c rest = false).
  { revert Hh. clear. unfold isHTML. intros H.
    apply orb_prop in H as [H|H]; [apply orb_prop in H as [H|H]|];
      apply Ascii.eqb_eq in H; subst c;
      destruct rest as [|c1 [|c2 r]]; reflexivity. }
  rewrite compact_loop_cons, Hh, Hl, Hs, Hstep. cbv zeta.
  cbn [ge_scanSkipSpace].
  eexists. split; [reflexivity|]. unfold CI, CS. cbn [c_scan c_start c_dst].
  split; [reflexivity|]. split; [lia|].
  unfold written. cbn [c_dst c_start]. rewrite flush_written, Hw.
  now rewrite slice_empty, app_nil_r by lia.
Qed.

(** The three bytes of U+2028 or U+2029 inside a string literal. *)
Lemma compact_linesep src i c c1 c2 rest st out s s1 s2 s3 :
  At src i (c :: c1 :: c2 :: rest) -> CI src i st out s ->
  isLineSep c (c1 :: c2 :: rest) = true ->
  scan_step s c = (s1, scanContinue) ->
  scan_step s1 c1 = (s2, scanContinue) ->
  scan_step s2 c2 = (s3, scanContinue) ->
  exists st',
    compact_loop true src i (c :: c1 :: c2 :: rest) st
    = compact_loop true src (i + 3) rest st'
    /\ CI src (i + 3) st' (out ++ escapeSep c2) s3.
Proof.
  intros Hat (Hs & Hst & Hw) Hl H1 H2 H3.
  assert (Hc : isHTML c = false /\ isHTML c1 = false /\ isHTML c2 = false
               /\ isLineSep c1 (c2 :: rest) = false
               /\ isLineSep c2 rest = false).
  { revert Hl. clear. unfold isLineSep. intros H.
    apply andb_prop in H as [H H2]. apply andb_prop in H as [H0 H1].
    apply N.eqb_eq in H0, H1, H2.
    assert (E0 : c = ascii_of_N 226).
    { rewrite <- H0. unfold code. now rewrite ascii_N_embedding. }
    assert (E1 : c1 = ascii_of_N 128).
    { rewrite <- H1. unfold code. now rewrite ascii_N_embedding. }
    subst c c1. repeat split; try reflexivity.
    - revert H2. each_byte c2; intros H2; try discriminate H2; reflexivity.
    - destruct rest as [|r1 [|r2 r]]; reflexivity.
    - revert H2. each_byte c2; intros H2; try discriminate H2;
        destruct rest as [|r1 [|r2 r]]; reflexivity. }
  destruct Hc as (Hh & Hh1 & Hh2 & Hl1 & Hl2).
  rewrite compact_loop_cons, Hh, Hl, Hs, H1. cbv zeta.
  cbn [ge_scanSkipSpace nth].
  rewrite compact_loop_cons, Hh1, Hl1. cbn [CS c_scan c_dst c_start].
  rewrite H2. cbv zeta. cbn [ge_scanSkipSpace].
  rewrite compact_loop_cons, Hh2, Hl2. cbn [CS c_scan c_dst c_start].
  rewrite H3. cbv zeta. cbn [ge_scanSkipSpace].
  replace (S (S (S i))) with (i + 3) by lia.
  eexists. split; [reflexivity|]. unfold CI, CS. cbn [c_scan c_start c_dst].
  split; [reflexivity|]. split; [lia|].
  unfold written. cbn [c_dst c_start]. rewrite flush_written, Hw.
  now rewrite slice_empty, app_nil_r by lia.
Qed.

Lemma safe_not_linesep c rest : isSafe c = true -> isLineSep c rest = false.
Proof.
  intros H. apply andb_prop in H as [_ H]. apply N.ltb_lt in H.
  unfold isLineSep. destruct rest as [|c1 [|c2 r]]; try reflexivity.
  destruct (N.eqb_spec (code c) 226); [lia|reflexivity].
Qed.

Lemma compacts_nil s : compacts [] s [] s.
Proof.
  intros src i rest st out _ H. exists st. cbn [app List.length].
  now rewrite Nat.add_0_r, app_nil_r.
Qed.

Lemma compacts_app t1 t2 s s1 s2 x1 x2 :
  compacts t1 s x1 s1 -> compacts t2 s1 x2 s2 ->
  compacts (t1 ++ t2) s (x1 ++ x2) s2.
Proof.
  intros H1 H2 src i rest st out Hat Hci.
  rewrite <- app_assoc in Hat |- *.
  destruct (H1 src i (t2 ++ rest) st out Hat Hci) as (st1 & -> & Hci1).
  destruct (H2 src (i + List.length t1) rest st1 (out ++ x1)
              (At_app _ _ _ _ Hat) Hci1) as (st2 & -> & Hci2).
  exists st2. rewrite length_app, Nat.add_assoc, app_assoc. now split.
Qed.

Lemma compacts_cons c t s s1 s2 x1 x2 :
  compacts [c] s x1 s1 -> compacts t s1 x2 s2 ->
  compacts (c :: t) s (x1 ++ x2) s2.
Proof. intros H1 H2. now apply (compacts_app [c] t s s1 s2). Qed.

Lemma compacts_safe c s s' v :
  isSafe c = true -> scan_step s c = (s', v) -> ge_scanSkipSpace v = false ->
  compacts [c] s [c] s'.
Proof.
  intros Hc Hstep Hv src i rest st out Hat Hci. cbn [app List.length].
  rewrite Nat.add_1_r.
  apply (compact_keep src i c rest st out s s' v Hat Hci); auto.
  - now apply andb_prop in Hc as [Hc%negb_true_iff _].
  - now apply safe_not_linesep.
Qed.

Lemma compacts_space c s s' :
  isSpace c = true -> scan_step s c = (s', scanSkipSpace) ->
  compacts [c] s [] s'.
Proof.
  intros Hc Hstep src i rest st out Hat Hci. cbn [app List.length].
  rewrite Nat.add_1_r, app_nil_r.
  now apply (compact_drop src i c rest st out s s').
Qed.

Lemma compacts_spaces ws f et ps :
  spaces ws -> beginsValue f || beginsKey f = true ->
  compacts ws (at_ f et ps) [] (at_ f et ps).
Proof.
  intros Hws Hf. induction ws as [|c ws IH]; [apply compacts_nil|].
  unfold spaces in *. cbn in Hws. apply andb_prop in Hws as [Hc Hws].
  apply (compacts_cons c ws _ (at_ f et ps) _ [] []); [|now apply IH].
  apply compacts_space; [exact Hc|]. now apply space_begin.
Qed.

Lemma compacts_spaces_end ws f et p ps :
  spaces ws -> ended f = true ->
  exists f', ended f' = true
    /\ compacts ws (at_ f et (p :: ps)) [] (at_ f' et (p :: ps)).
Proof.
  intros Hws. revert f. induction ws as [|c ws IH]; intros f Hf.
  - exists f. split; [exact Hf | apply compacts_nil].
  - unfold spaces in *. cbn in Hws. apply andb_prop in Hws as [Hc Hws].
    destruct (IH Hws stateEndValue eq_refl) as (f' & Hf' & H).
    exists f'. split; [exact Hf'|].
    apply (compacts_cons c ws _ (at_ stateEndValue et (p :: ps)) _ [] []);
      [|exact H].
    apply compacts_space; [exact Hc|]. now apply space_end.
Qed.

Lemma compacts_continues t s s' :
  continues s t s' -> forallb isSafe t = true -> compacts t s t s'.
Proof.
  revert s. induction t as [|c t IH]; intros s; cbn [continues forallb].
  - intros -> _. apply compacts_nil.
  - intros (s1 & H1 & H2) H. apply andb_prop in H as [Hc Ht].
    apply (compacts_cons c t s s1 s' [c] t); [|now apply IH].
    now apply (compacts_safe c s s1 scanContinue).
Qed.

Lemma compacts_literal t f' f et ps :
  Literal t f' -> forallb isSafe t = true -> beginsValue f = true ->
  compacts t (at_ f et ps) t (at_ f' et ps).
Proof.
  intros (c & t' & -> & _ & H) Hsafe Hf.
  destruct (H f et ps Hf) as (s1 & H1 & H2).
  cbn [forallb] in Hsafe. apply andb_prop in Hsafe as [Hc Ht].
  apply (compacts_cons c t' _ s1 _ [c] t').
  - now apply (compacts_safe c _ s1 scanBeginLiteral).
  - now apply compacts_continues.
Qed.

(** The bytes of a string literal after its opening quote. *)
Lemma linesep_in_body c b q rest :
  isLineSep c (b ++ q :: rest) = true -> isSafe q = true ->
  exists c1 c2 b', b = c1 :: c2 :: b'.
Proof.
  intros H Hq. apply andb_prop in Hq as [_ Hq]. apply N.ltb_lt in Hq.
  destruct b as [|c1 [|c2 b']].
  - exfalso. cbn [app] in H. unfold isLineSep in H.
    destruct rest as [|r rest]; [discriminate|].
    apply andb_prop in H as [H _]. apply andb_prop in H as [_ H].
    apply N.eqb_eq in H. lia.
  - exfalso. cbn [app] in H. unfold isLineSep in H.
    apply andb_prop in H as [_ H]. apply N.eqb_eq in H.
    assert (N.ldiff (code q) 1 <= code q)%N; [|lia].
    clear. unfold code. each_byte q; cbn; lia.
  - now exists c1, c2, b'.
Qed.

Lemma compacts_body b q s s' :
  continues s (b ++ [q]) s' -> isSafe q = true ->
  compacts (b ++ [q]) s (escapeHTML b ++ [q]) s'.
Proof.
  remember (List.length b) as n eqn:Hn.
  revert b s Hn. induction n as [n IH] using lt_wf_ind. intros b s Hn Hc Hq.
  destruct b as [|c b].
  - cbn [app escapeHTML]. cbn [app continues] in Hc.
    destruct Hc as (s1 & H1 & <-).
    now apply (compacts_safe q s s1 scanContinue).
  - cbn [app continues] in Hc. destruct Hc as (s1 & H1 & Hc).
    intros src i rest st out Hat Hci.
    destruct (isHTML c) eqn:Hh.
    + (* an escaped byte *)
      cbn [app] in Hat |- *.
      destruct (compact_html src i c _ st out s s1 Hat Hci Hh H1)
        as (st1 & -> & Hci1).
      destruct (IH (List.length b) ltac:(subst n; cbn; lia) b s1 eq_refl Hc Hq
                  src (S i) rest st1 _ (At_cons _ _ _ _ Hat) Hci1)
        as (st2 & -> & Hci2).
      exists st2. cbn [List.length escapeHTML]. rewrite Hh.
      fold (escape6 c). split; [f_equal; lia|].
      replace (i + S (List.length (b ++ [q])))
        with (S i + List.length (b ++ [q])) by lia.
      rewrite <- ?app_assoc in Hci2; rewrite <- ?app_assoc; exact Hci2.
    + destruct (isLineSep c ((b ++ [q]) ++ rest)) eqn:Hl.
      * (* U+2028 or U+2029 *)
        rewrite <- app_assoc in Hl. cbn [app] in Hl.
        destruct (linesep_in_body c b q rest Hl Hq) as (c1 & c2 & b' & ->).
        cbn [app continues] in Hc, Hat, Hl |- *.
        destruct Hc as (s2 & H2 & s3 & H3 & Hc).
        destruct (compact_linesep src i c c1 c2 _ st out s s1 s2 s3
                    Hat Hci Hl H1 H2 H3) as (st1 & -> & Hci1).
        assert (Hat3 : At src (i + 3) ((b' ++ [q]) ++ rest)).
        { apply (At_app src i [c; c1; c2]) in Hat. exact Hat. }
        destruct (IH (List.length b') ltac:(subst n; cbn; lia) b' s3 eq_refl
                    Hc Hq src (i + 3) rest st1 _ Hat3 Hci1)
          as (st2 & -> & Hci2).
        exists st2. cbn [List.length escapeHTML]. rewrite Hh.
        unfold isLineSep in Hl. rewrite Hl. fold (escapeSep c2).
        split; [f_equal; lia|].
        replace (i + S (S (S (List.length (b' ++ [q])))))
          with (i + 3 + List.length (b' ++ [q])) by lia.
        rewrite <- ?app_assoc in Hci2; rewrite <- ?app_assoc; exact Hci2.
      * (* a byte kept as it is *)
        cbn [app] in Hat |- *.
        destruct (compact_keep src i c _ st out s s1 scanContinue
                    Hat Hci Hh Hl H1 eq_refl) as (st1 & -> & Hci1).
        destruct (IH (List.length b) ltac:(subst n; cbn; lia) b s1 eq_refl Hc Hq
                    src (S i) rest st1 _ (At_cons _ _ _ _ Hat) Hci1)
          as (st2 & -> & Hci2).
        exists st2. split; [cbn [List.length]; f_equal; lia|].
        replace (i + List.length (c :: b ++ [q]))
          with (S i + List.length (b ++ [q])) by (cbn [List.length]; lia).
        assert (He : escapeHTML (c :: b) = c :: escapeHTML b).
        { cbn [escapeHTML]. rewrite Hh.
          destruct b as [|c1 [|c2 b']]; try reflexivity.
          rewrite <- app_assoc in Hl. cbn [app] in Hl. unfold isLineSep in Hl.
          now rewrite Hl. }
        rewrite He. rewrite <- ?app_assoc in Hci2; rewrite <- ?app_assoc; cbn [app] in *; exact Hci2.
Qed.

Lemma safe_digits t : forallb isDigit t = true -> forallb isSafe t = true.
Proof.
  induction t as [|c t IH]; cbn [forallb]; [reflexivity|].
  intros H. apply andb_prop in H as [Hc Ht]. rewrite (IH Ht), andb_true_r.
  destruct (isDigit_cases c Hc)
    as [<-|[<-|[<-|[<-|[<-|[<-|[<-|[<-|[<-|[<-|[]]]]]]]]]]]; reflexivity.
Qed.

Lemma safe_number n : wf_number n = true -> forallb isSafe (number_text n) = true.
Proof.
  intros Hn. unfold wf_number in Hn.
  apply andb_prop in Hn as [Hn Hexp]. apply andb_prop in Hn as [Hint Hfrac].
  unfold number_text. rewrite !forallb_app. repeat (apply andb_true_intro; split).
  - destruct (n_minus n); reflexivity.
  - destruct (n_int n) as [|c t]; [discriminate|]. cbn [wf_int] in Hint.
    destruct (Ascii.eqb_spec c "0") as [->|Hc].
    + destruct t; [reflexivity|discriminate].
    + apply andb_prop in Hint as [H19 Ht]. apply safe_digits.
      cbn [forallb]. rewrite Ht, andb_true_r.
      revert H19. clear. each_byte c; intros H; try discriminate H; reflexivity.
  - destruct (n_frac n) as [d|]; [|reflexivity].
    unfold digits in Hfrac. apply andb_prop in Hfrac as [_ Hd].
    cbn [forallb]. now rewrite (safe_digits d Hd).
  - destruct (n_exp n) as [[[e sg] d]|]; [|reflexivity].
    apply andb_prop in Hexp as [Hexp Hd]. apply andb_prop in Hexp as [He Hsg].
    unfold digits in Hd. apply andb_prop in Hd as [_ Hd].
    cbn [forallb]. rewrite forallb_app, (safe_digits d Hd), andb_true_r.
    apply andb_true_intro; split.
    + apply orb_prop in He as [He|He]; apply Ascii.eqb_eq in He; subst e;
        reflexivity.
    + destruct sg as [|x [|y sg]]; try discriminate; [reflexivity|].
      cbn in Hsg. apply orb_prop in Hsg as [H|H]; apply Ascii.eqb_eq in H;
        subst x; reflexivity.
Qed.

Lemma compacts_eq t s x x' s' : x = x' -> compacts t s x s' -> compacts t s x' s'.
Proof. now intros ->. Qed.

Lemma compacts_key k f et ps :
  wf_body k = true -> beginsKey f = true ->
  compacts (string_text k) (at_ f et ps) (string_text (escapeHTML k))
    (at_ stateEndValue et ps).
Proof.
  intros Hk Hf. unfold string_text.
  apply (compacts_cons quote (k ++ [quote]) _ (at_ stateInString et ps) _
           [quote] (escapeHTML k ++ [quote])).
  - apply (compacts_safe quote _ _ scanBeginLiteral); try reflexivity.
    apply scan_quote_value. rewrite Hf. apply orb_true_r.
  - apply compacts_body; [now apply scan_body | reflexivity].
Qed.

Lemma compacts_string body f et ps :
  wf_body body = true -> beginsValue f = true ->
  compacts (string_text body) (at_ f et ps) (string_text (escapeHTML body))
    (at_ stateEndValue et ps).
Proof.
  intros Hk Hf. unfold string_text.
  apply (compacts_cons quote (body ++ [quote]) _ (at_ stateInString et ps) _
           [quote] (escapeHTML body ++ [quote])).
  - apply (compacts_safe quote _ _ scanBeginLiteral); try reflexivity.
    apply scan_quote_value. now rewrite Hf.
  - apply compacts_body; [now apply scan_body | reflexivity].
Qed.

Lemma compact_text_mut :
  (forall v t, Text v t -> compacts_value v t)
  /\ (forall vs t, Elems vs t -> compacts_elems vs t)
  /\ (forall ms t, Members ms t -> compacts_members ms t).
Proof.
  apply Text_Elems_Members_ind.
  - intros f et ps Hf _. eexists. split.
    + right. exists stateEndValue. split; reflexivity.
    + apply compacts_literal; [|reflexivity|exact Hf].
      apply scan_keyword. cbn; auto.
  - intros f et ps Hf _. eexists. split.
    + right. exists stateEndValue. split; reflexivity.
    + apply compacts_literal; [|reflexivity|exact Hf].
      apply scan_keyword. cbn; auto.
  - intros f et ps Hf _. eexists. split.
    + right. exists stateEndValue. split; reflexivity.
    + apply compacts_literal; [|reflexivity|exact Hf].
      apply scan_keyword. cbn; auto.
  - intros n Hn f et ps Hf _. eexists. split.
    + right. exists (number_end n). split; [apply ended_number_end|reflexivity].
    + apply compacts_literal; [now apply scan_number|now apply safe_number|exact Hf].
  - intros body Hb f et ps Hf _. eexists. split.
    + right. exists stateEndValue. split; reflexivity.
    + now apply compacts_string.
  - (* empty array *)
    intros ws Hws f et ps Hf Hfit. exists (closed et ps). split; [now left|].
    eapply (compacts_cons "[" (ws ++ ["]"]) _ _ _ ["["] ["]"]).
    + eapply (compacts_safe "[" _ _ scanBeginArray); try reflexivity.
      now apply scan_open_array.
    + eapply (compacts_app ws ["]"] _ _ _ [] ["]"]).
      * now apply compacts_spaces.
      * eapply (compacts_safe "]" _ _ scanEndArray); try reflexivity.
        apply scan_close_empty_array.
  - (* array *)
    intros elems t He IH f et ps Hf Hfit.
    exists (closed et ps). split; [now left|].
    cbn [nesting] in Hfit. fold (deepest elems) in Hfit.
    destruct (IH stateBeginValueOrEmpty et ps eq_refl (fits_push _ _ _ Hfit))
      as (f' & Hf' & Hc).
    cbn [escaped compact_text]. rewrite map_map.
    eapply (compacts_cons "[" (t ++ ["]"]) _ _ _ ["["] (_ ++ ["]"])).
    + eapply (compacts_safe "[" _ _ scanBeginArray); try reflexivity.
      apply scan_open_array; [exact Hf|]. eapply fits_le; [exact Hfit|lia].
    + eapply compacts_app; [exact Hc|].
      eapply (compacts_safe "]" _ _ scanEndArray); try reflexivity.
      now apply scan_close_array.
  - (* empty object *)
    intros ws Hws f et ps Hf Hfit. exists (closed et ps). split; [now left|].
    eapply (compacts_cons "{" (ws ++ ["}"]) _ _ _ ["{"] ["}"]).
    + eapply (compacts_safe "{" _ _ scanBeginObject); try reflexivity.
      now apply scan_open_object.
    + eapply (compacts_app ws ["}"] _ _ _ [] ["}"]).
      * now apply compacts_spaces.
      * eapply (compacts_safe "}" _ _ scanEndObject); try reflexivity.
        apply scan_close_empty_object.
  - (* object *)
    intros members t Hm IH f et ps Hf Hfit.
    exists (closed et ps). split; [now left|].
    cbn [nesting] in Hfit. fold (deepestMember members) in Hfit.
    destruct (IH stateBeginStringOrEmpty et ps eq_refl (fits_push _ _ _ Hfit))
      as (f' & Hf' & Hc).
    cbn [escaped compact_text]. rewrite map_map. cbn [fst snd].
    fold member_compact.
    eapply (compacts_cons "{" (t ++ ["}"]) _ _ _ ["{"] (_ ++ ["}"])).
    + eapply (compacts_safe "{" _ _ scanBeginObject); try reflexivity.
      apply scan_open_object; [exact Hf|]. eapply fits_le; [exact Hfit|lia].
    + eapply compacts_app; [exact Hc|].
      eapply (compacts_safe "}" _ _ scanEndObject); try reflexivity.
      now apply scan_close_object.
  - (* last element *)
    intros v ws1 t ws2 H1 Ht IH H2 f et ps Hf Hfit.
    destruct (IH f et (parseArrayValue :: ps) Hf) as (s' & Hs' & Hc).
    { eapply fits_le; [exact Hfit|]. cbn. lia. }
    apply Done_cons in Hs' as (f1 & Hf1 & ->).
    destruct (compacts_spaces_end ws2 f1 et parseArrayValue ps H2 Hf1)
      as (f' & Hf' & Hc').
    exists f'. split; [exact Hf'|]. cbn [map sepConcat].
    eapply compacts_eq;
      [|eapply compacts_app;
          [apply compacts_spaces; [exact H1|now rewrite Hf]
          |eapply compacts_app; [exact Hc|exact Hc']]].
    cbn [app]. now rewrite app_nil_r.
  - (* more elements *)
    intros v ws1 t ws2 v' elems t' H1 Ht IH H2 He IHe f et ps Hf Hfit.
    destruct (IH f et (parseArrayValue :: ps) Hf) as (s' & Hs' & Hc).
    { eapply fits_le; [exact Hfit|]. unfold deepest. cbn [map fold_right]. lia. }
    apply Done_cons in Hs' as (f1 & Hf1 & ->).
    destruct (compacts_spaces_end ws2 f1 et parseArrayValue ps H2 Hf1)
      as (f2 & Hf2 & Hc2).
    destruct (IHe stateBeginValue et ps eq_refl) as (f' & Hf' & Hc').
    { eapply fits_le; [exact Hfit|]. unfold deepest. cbn [map fold_right]. lia. }
    exists f'. split; [exact Hf'|].
    eapply compacts_eq;
      [|eapply compacts_app;
          [apply compacts_spaces; [exact H1|now rewrite Hf]
          |eapply compacts_app;
             [exact Hc
             |eapply compacts_app;
                [exact Hc2
                |eapply (compacts_cons ","); [|exact Hc'];
                 eapply (compacts_safe "," _ _ scanArrayValue);
                 [reflexivity|now apply scan_comma_array|reflexivity]]]]].
    cbn [map sepConcat app]. reflexivity.
  - (* last member *)
    intros k v ws1 ws2 ws3 t ws4 H1 Hk H2 H3 Ht IH H4 f et ps Hf Hfit.
    destruct (compacts_spaces_end ws2 stateEndValue et parseObjectKey ps H2
                eq_refl) as (f1 & Hf1 & Hc1).
    destruct (IH stateBeginValue et (parseObjectValue :: ps) eq_refl)
      as (s' & Hs' & Hc).
    { eapply fits_le; [eapply fits_same; exact Hfit|].
      unfold deepestMember. cbn. lia. }
    apply Done_cons in Hs' as (f2 & Hf2 & ->).
    destruct (compacts_spaces_end ws4 f2 et parseObjectValue ps H4 Hf2)
      as (f' & Hf' & Hc').
    exists f'. split; [exact Hf'|].
    eapply compacts_eq;
      [|eapply compacts_app;
          [apply compacts_spaces; [exact H1|rewrite Hf; apply orb_true_r]
          |eapply compacts_app;
             [apply compacts_key; [exact Hk|exact Hf]
             |eapply compacts_app;
                [exact Hc1
                |eapply (compacts_cons ":");
                 [eapply (compacts_safe ":" _ _ scanObjectKey);
                  [reflexivity|now apply scan_colon|reflexivity]
                 |eapply compacts_app;
                    [apply compacts_spaces; [exact H3|reflexivity]
                    |eapply compacts_app; [exact Hc|exact Hc']]]]]]].
    cbn [map sepConcat app]. unfold member_compact. cbn [fst snd].
    now rewrite app_nil_r.
  - (* more members *)
    intros k v ws1 ws2 ws3 t ws4 m members t' H1 Hk H2 H3 Ht IH H4 Hm IHm
      f et ps Hf Hfit.
    destruct (compacts_spaces_end ws2 stateEndValue et parseObjectKey ps H2
                eq_refl) as (f1 & Hf1 & Hc1).
    destruct (IH stateBeginValue et (parseObjectValue :: ps) eq_refl)
      as (s' & Hs' & Hc).
    { eapply fits_le; [eapply fits_same; exact Hfit|].
      unfold deepestMember. cbn [map fold_right snd]. lia. }
    apply Done_cons in Hs' as (f2 & Hf2 & ->).
    destruct (compacts_spaces_end ws4 f2 et parseObjectValue ps H4 Hf2)
      as (f3 & Hf3 & Hc3).
    destruct (IHm stateBeginString et ps eq_refl) as (f' & Hf' & Hc').
    { eapply fits_le; [exact Hfit|].
      unfold deepestMember. cbn [map fold_right snd]. lia. }
    exists f'. split; [exact Hf'|].
    eapply compacts_eq;
      [|eapply compacts_app;
          [apply compacts_spaces; [exact H1|rewrite Hf; apply orb_true_r]
          |eapply compacts_app;
             [apply compacts_key; [exact Hk|exact Hf]
             |eapply compacts_app;
                [exact Hc1
                |eapply (compacts_cons ":");
                 [eapply (compacts_safe ":" _ _ scanObjectKey);
                  [reflexivity|now apply scan_colon|reflexivity]
                 |eapply compacts_app;
                    [apply compacts_spaces; [exact H3|reflexivity]
                    |eapply compacts_app;
                       [exact Hc
                       |eapply compacts_app;
                          [exact Hc3
                          |eapply (compacts_cons ","); [|exact Hc'];
                           eapply (compacts_safe "," _ _ scanObjectValue);
                           [reflexivity|now apply scan_comma_object
                           |reflexivity]]]]]]]]].
    cbn [map sepConcat app].
    change (member_compact (k, v))
      with (string_text (escapeHTML k) ++ ":" :: compact_text (escaped v)).
    now rewrite <- !app_assoc.
Qed.

(** [appendCompact] with HTML escaping writes a JSON text without its
    whitespace and with its string literals escaped. *)
Theorem appendCompact_text v t :
  Text v t -> fits [] (nesting v) ->
  appendCompact t true = inl (compact_text (escaped v)).
Proof.
  intros Ht Hfit. destruct compact_text_mut as (H & _ & _).
  destruct (H v t Ht stateBeginValue false [] eq_refl Hfit) as (s' & Hs' & Hc).
  destruct (Hc t 0 [] (CS [] 0 newScanner) []) as (st' & Hloop & Hci).
  { exists []. now rewrite app_nil_r. }
  { repeat split. auto. }
  unfold appendCompact. rewrite app_nil_r in Hloop.
  change {| c_dst := []; c_start := 0; c_scan := newScanner |}
    with (CS [] 0 newScanner).
  rewrite Hloop. cbn [compact_loop]. destruct Hci as (Hs & Hst & Hw).
  cbn [app Nat.add] in *. rewrite Hs.
  assert (Hout : (if Nat.ltb (c_start st') (List.length t)
                  then c_dst st' ++ skipn (c_start st') t
                  else c_dst st') = compact_text (escaped v)).
  { rewrite <- Hw. unfold written, slice.
    destruct (Nat.ltb_spec (c_start st') (List.length t)).
    - rewrite firstn_all2; [reflexivity|]. rewrite length_skipn. lia.
    - replace (List.length t - c_start st') with 0 by lia.
      cbn [firstn]. now rewrite app_nil_r. }
  assert (Heof : exists s'', scan_eof s' = (s'', scanEnd)).
  { destruct Hs' as [->|(f & Hf & ->)]; [eexists; reflexivity|].
    destruct f; try discriminate Hf; eexists; reflexivity. }
  destruct Heof as (s'' & ->). now rewrite Hout.
Qed.

End CompactFacts.

(** ** The snapshot document *)

Module SnapshotFacts.

Import json jsontext scanning ScannerFacts.
#[local] Open Scope char_scope.
#[local] Open Scope list_scope.

Lemma sepConcat_cons sep x y l :
  sepConcat sep (x :: y :: l) = x ++ sep ++ sepConcat sep (y :: l).
Proof. reflexivity. Qed.

Lemma escapeHTML_safe c b :
  compacting.isSafe c = true -> escapeHTML (c :: b) = c :: escapeHTML b.
Proof.
  intros H. pose proof (CompactFacts.safe_not_linesep c b H) as Hl.
  apply andb_prop in H as [Hh _]. apply negb_true_iff in Hh.
  cbn [escapeHTML]. rewrite Hh.
  destruct b as [|c1 [|c2 b']]; try reflexivity.
  unfold compacting.isLineSep in Hl. now rewrite Hl.
Qed.

Lemma hex_safe c : isHex c = true -> compacting.isSafe c = true.
Proof.
  intros H.
  destruct (isHex_cases c H)
    as [<-|[<-|[<-|[<-|[<-|[<-|[<-|[<-|[<-|[<-|[<-|[<-|[<-|[<-|[<-|[<-|[<-|[<-|[<-|[<-|[<-|[<-|[]]]]]]]]]]]]]]]]]]]]]]];
    reflexivity.
Qed.

Lemma simple_escape_safe c : isSimpleEscape c = true -> compacting.isSafe c = true.
Proof. each_byte c; intros H; try discriminate H; reflexivity. Qed.

Lemma wf_body_plain c b :
  isPlain c = true -> wf_body (c :: b) = wf_body b.
Proof.
  intros H. cbn [wf_body]. rewrite H.
  destruct (Ascii.eqb_spec c "\") as [->|_]; [discriminate H|reflexivity].
Qed.

(** Escaping keeps a string literal well formed. *)
Lemma wf_body_escapeHTML b : wf_body b = true -> wf_body (escapeHTML b) = true.
Proof.
  remember (List.length b) as n eqn:Hn.
  revert b Hn. induction n as [n IH] using lt_wf_ind. intros b Hn Hb.
  destruct b as [|c b]; [reflexivity|].
  cbn [wf_body] in Hb.
  destruct (Ascii.eqb_spec c "\") as [->|Hc].
  - destruct b as [|e b]; [discriminate|].
    rewrite (escapeHTML_safe "\" _ eq_refl).
    destruct (Ascii.eqb_spec e "u") as [->|He].
    + destruct b as [|h1 [|h2 [|h3 [|h4 b]]]]; try discriminate.
      apply andb_prop in Hb as [Hb Hb'].
      apply andb_prop in Hb as [Hb H4]. apply andb_prop in Hb as [Hb H3].
      apply andb_prop in Hb as [H1 H2].
      rewrite (escapeHTML_safe "u" _ eq_refl),
        (escapeHTML_safe h1 _ (hex_safe _ H1)),
        (escapeHTML_safe h2 _ (hex_safe _ H2)),
        (escapeHTML_safe h3 _ (hex_safe _ H3)),
        (escapeHTML_safe h4 _ (hex_safe _ H4)).
      cbn [wf_body Ascii.eqb Bool.eqb]. rewrite H1, H2, H3, H4. cbn [andb].
      apply (IH (List.length b)); [subst n; cbn; lia | reflexivity | exact Hb'].
    + apply andb_prop in Hb as [He' Hb'].
      rewrite (escapeHTML_safe e _ (simple_escape_safe _ He')).
      cbn [wf_body Ascii.eqb Bool.eqb].
      destruct (Ascii.eqb_spec e "u") as [->|_]; [now contradiction He|].
      rewrite He'. cbn [andb].
      apply (IH (List.length b)); [subst n; cbn; lia | reflexivity | exact Hb'].
  - apply andb_prop in Hb as [Hp Hb'].
    cbn [escapeHTML]. destruct (isHTML c) eqn:Hh.
    + assert (E : wf_body (escapeHTML b) = true).
      { apply (IH (List.length b)); [subst n; cbn; lia | reflexivity | exact Hb']. }
      revert Hh. clear - E. unfold isHTML. intros H.
      apply orb_prop in H as [H|H]; [apply orb_prop in H as [H|H]|];
        apply Ascii.eqb_eq in H; subst c; cbn; exact E.
    + destruct b as [|c1 [|c2 b']].
      * rewrite wf_body_plain by exact Hp. reflexivity.
      * rewrite wf_body_plain by exact Hp.
        apply (IH 1); [subst n; cbn; lia | reflexivity | exact Hb'].
      * destruct ((code c =? 226)%N && (code c1 =? 128)%N
                  && (N.ldiff (code c2) 1 =? 168)%N) eqn:Hl.
        -- assert (E : wf_body (escapeHTML b') = true).
           { apply (IH (List.length b')); [subst n; cbn; lia | reflexivity |].
             apply andb_prop in Hl as [Hl H2]. apply andb_prop in Hl as [_ H1].
             assert (P1 : isPlain c1 = true).
             { revert H1. clear. each_byte c1; intros H; try discriminate H;
                 reflexivity. }
             assert (P2 : isPlain c2 = true).
             { revert H2. clear. each_byte c2; intros H; try discriminate H;
                 reflexivity. }
             now rewrite (wf_body_plain c1 _ P1), (wf_body_plain c2 _ P2) in Hb'. }
           apply andb_prop in Hl as [_ H2]. revert H2 E. clear.
           each_byte c2; intros H2 E; try discriminate H2; cbn; exact E.
        -- rewrite wf_body_plain by exact Hp.
           apply (IH (List.length (c1 :: c2 :: b')));
             [subst n; cbn; lia | reflexivity | exact Hb'].
Qed.

(** The compact text of an escaped JSON text is a JSON text. *)
Lemma compact_is_text :
  (forall v t, Text v t -> Text (escaped v) (compact_text (escaped v)))
  /\ (forall vs t, Elems vs t ->
        Elems (map escaped vs)
          (sepConcat [","] (map compact_text (map escaped vs))))
  /\ (forall ms t, Members ms t ->
        Members (map (fun m => (escapeHTML (fst m), escaped (snd m))) ms)
          (sepConcat [","]
             (map (fun m => string_text (fst m) ++ ":" :: compact_text (snd m))
                (map (fun m => (escapeHTML (fst m), escaped (snd m))) ms)))).
Proof.
  apply Text_Elems_Members_ind.
  - constructor.
  - constructor.
  - constructor.
  - intros n Hn. now constructor.
  - intros body Hb. cbn [escaped compact_text]. constructor.
    now apply wf_body_escapeHTML.
  - intros ws _. cbn [escaped compact_text map sepConcat].
    apply (T_arr0 []). reflexivity.
  - intros elems t _ IH. cbn [escaped compact_text]. now constructor.
  - intros ws _. cbn [escaped compact_text map sepConcat].
    apply (T_obj0 []). reflexivity.
  - intros members t _ IH. cbn [escaped compact_text]. now constructor.
  - intros v ws1 t ws2 _ _ IH _. cbn [map sepConcat].
    rewrite <- (app_nil_r (compact_text (escaped v))).
    apply (E_last (escaped v) [] _ []); [reflexivity|exact IH|reflexivity].
  - intros v ws1 t ws2 v' elems t' _ _ IH _ _ IHe. cbn [map] in *.
    rewrite sepConcat_cons. cbn [app].
    apply (E_cons (escaped v) [] _ [] (escaped v') (map escaped elems));
      [reflexivity|exact IH|reflexivity|exact IHe].
  - intros k v ws1 ws2 ws3 t ws4 _ Hk _ _ _ IH _. cbn [map sepConcat fst snd].
    rewrite <- (app_nil_r (compact_text (escaped v))).
    apply (M_last (escapeHTML k) (escaped v) [] [] [] _ []);
      try reflexivity; [now apply wf_body_escapeHTML|exact IH].
  - intros k v ws1 ws2 ws3 t ws4 m members t' _ Hk _ _ _ IH _ _ IHm.
    cbn [map fst snd] in *. rewrite sepConcat_cons. rewrite <- app_assoc.
    cbn [app].
    apply (M_cons (escapeHTML k) (escaped v) [] [] [] _ []
             (escapeHTML (fst m), escaped (snd m)));
      try reflexivity; [now apply wf_body_escapeHTML|exact IH|exact IHm].
Qed.

Lemma nesting_escaped :
  (forall v t, Text v t -> nesting (escaped v) = nesting v)
  /\ (forall vs t, Elems vs t -> deepest (map escaped vs) = deepest vs)
  /\ (forall ms t, Members ms t ->
        deepestMember (map (fun m => (escapeHTML (fst m), escaped (snd m))) ms)
        = deepestMember ms).
Proof.
  apply Text_Elems_Members_ind; try reflexivity.
  - intros elems t _ IH. cbn [escaped nesting]. fold (deepest (map escaped elems)).
    fold (deepest elems). now rewrite IH.
  - intros members t _ IH. cbn [escaped nesting].
    fold (deepestMember (map (fun m => (escapeHTML (fst m), escaped (snd m))) members)).
    fold (deepestMember members). now rewrite IH.
  - intros v ws1 t ws2 _ _ IH _. unfold deepest. cbn [map fold_right].
    now rewrite IH.
  - intros v ws1 t ws2 v' elems t' _ _ IH _ _ IHe. unfold deepest in *.
    cbn [map fold_right] in *. now rewrite IH, IHe.
  - intros k v ws1 ws2 ws3 t ws4 _ _ _ _ _ IH _. unfold deepestMember.
    cbn [map fold_right snd]. now rewrite IH.
  - intros k v ws1 ws2 ws3 t ws4 m members t' _ _ _ _ _ IH _ _ IHm.
    unfold deepestMember in *. cbn [map fold_right snd] in *.
    now rewrite IH, IHm.
Qed.

(** *** The export date *)

Lemma bytes_of_append a b : bytes_of (a ++ b)%string = bytes_of a ++ bytes_of b.
Proof.
  unfold bytes_of. induction a as [|c a IH]; cbn; [reflexivity|].
  now rewrite IH.
Qed.

Lemma length_bytes_of s : List.length (bytes_of s) = String.length s.
Proof.
  unfold bytes_of. induction s as [|c s IH]; cbn; [reflexivity|].
  now rewrite IH.
Qed.

Lemma appendString_loop_plain b fuel :
  List.length b <= fuel -> forallb htmlSafe b = true ->
  appendString_loop fuel b = b.
Proof.
  revert fuel. induction b as [|c b IH]; intros fuel Hl Hb.
  - destruct fuel; reflexivity.
  - destruct fuel as [|fuel]; [cbn in Hl; lia|].
    cbn [forallb] in Hb. apply andb_prop in Hb as [Hc Hb].
    cbn [appendString_loop]. rewrite Hc.
    assert (H : (code c <? 128)%N = true).
    { unfold htmlSafe in Hc. apply andb_prop in Hc as [Hc _].
      now apply andb_prop in Hc as [_ Hc]. }
    rewrite H. cbn [app]. rewrite IH; [reflexivity| cbn in Hl; lia |exact Hb].
Qed.

(** A string of bytes that need no escape is written between quotes as it
    is. *)
Lemma appendString_plain s :
  forallb htmlSafe (bytes_of s) = true ->
  appendString s = string_text (bytes_of s).
Proof.
  intros H. unfold appendString, string_text.
  rewrite appendString_loop_plain; [reflexivity| |exact H].
  now rewrite length_bytes_of.
Qed.

Lemma wf_body_htmlSafe b : forallb htmlSafe b = true -> wf_body b = true.
Proof.
  induction b as [|c b IH]; [reflexivity|].
  cbn [forallb]. intros H. apply andb_prop in H as [Hc Hb].
  rewrite wf_body_plain; [now apply IH|].
  revert Hc. clear. each_byte c; intros H; try discriminate H; reflexivity.
Qed.

Lemma safe_uint u :
  forallb htmlSafe (bytes_of (NilEmpty.string_of_uint u)) = true.
Proof. unfold bytes_of. induction u; cbn; try rewrite IHu; reflexivity. Qed.

Lemma safe_zeros n : forallb htmlSafe (bytes_of (time.zeros n)) = true.
Proof. unfold bytes_of. induction n; cbn; try rewrite IHn; reflexivity. Qed.

Lemma safe_appendInt x width :
  forallb htmlSafe (bytes_of (time.appendInt x width)) = true.
Proof.
  unfold time.appendInt. rewrite !bytes_of_append, !forallb_app.
  repeat (apply andb_true_intro; split).
  - destruct (x <? 0)%Z; reflexivity.
  - apply safe_zeros.
  - unfold NilZero.string_of_uint.
    destruct (N.to_uint (Z.to_N (Z.abs x))); try reflexivity; apply safe_uint.
Qed.

(** The date the program stamps its documents with needs no escape. *)
Lemma safe_Format t :
  forallb htmlSafe (bytes_of (time.Format_2006_01_02 t)) = true.
Proof.
  unfold time.Format_2006_01_02. rewrite !bytes_of_append, !forallb_app.
  rewrite !safe_appendInt. reflexivity.
Qed.

Lemma Text_wrapper v t date :
  Text v t -> forallb htmlSafe (bytes_of date) = true ->
  Text (wrapper (escaped v) date) (compact_text (wrapper (escaped v) date)).
Proof.
  intros Ht Hd. destruct compact_is_text as (H & _ & _).
  unfold wrapper. cbn [compact_text map fst snd]. rewrite sepConcat_cons.
  cbn [sepConcat]. constructor.
  rewrite <- app_assoc. cbn [app].
  apply (M_cons (bytes_of "data") (escaped v) [] [] [] _ []
           (bytes_of "export_date", Str (bytes_of date)) []);
    try reflexivity; [exact (H v t Ht)|].
  rewrite <- (app_nil_r (string_text (bytes_of date))).
  apply (M_last (bytes_of "export_date") (Str (bytes_of date)) [] [] [] _ []);
    try reflexivity.
  constructor. now apply wf_body_htmlSafe.
Qed.

(** What the snapshot writer makes of a JSON text [data] of the rows [v]:
    [addExportDateToJSON] returns the compact text of the document
    [{data: v', export_date: date}], and [json.Indent] lays that text out
    on indented lines; [v'] is [v] with its string literals escaped for
    HTML, and every number literal, every other byte of a string literal
    and the order of the elements and members are those of [data]. *)
Theorem snapshot_of_text v data date :
  Text v data -> fits [] (S (nesting v)) ->
  forallb htmlSafe (bytes_of date) = true ->
  addExportDateToJSON (Some data) date
    = inl (compact_text (wrapper (escaped v) date))
  /\ Indent (compact_text (wrapper (escaped v) date)) "" "  "
     = inl (indented_text "" "  " 0 (wrapper (escaped v) date)).
Proof.
  intros Ht Hfit Hd. split.
  - unfold addExportDateToJSON, Marshal.
    cbn [sortKeys fold_right insertKey fst String.leb String.compare
         Ascii.compare].
    change (String.leb "data" "export_date") with true. cbv iota.
    cbn [encodeMembers encodeValue RawMessage_MarshalJSON].
    rewrite (CompactFacts.appendCompact_text v data Ht
               (fits_le [] _ _ Hfit (Nat.le_succ_diag_r _))).
    rewrite (appendString_plain date Hd).
    rewrite (appendString_plain "data" eq_refl).
    rewrite (appendString_plain "export_date" eq_refl).
    unfold wrapper. cbn [compact_text map fst snd]. rewrite sepConcat_cons.
    cbn [sepConcat app].
    repeat (rewrite <- app_assoc; cbn [app]). rewrite ?app_nil_r.
    reflexivity.
  - apply IndentFacts.Indent_text.
    + now apply Text_wrapper with (t := data).
    + destruct nesting_escaped as (H & _ & _).
      unfold wrapper. cbn [nesting map fold_right snd].
      rewrite (H v data Ht). rewrite Nat.max_0_r. exact Hfit.
Qed.

Lemma addExportDateToJSON_shape data date doc :
  forallb json.htmlSafe (bytes_of date) = true ->
  addExportDateToJSON (Some data) date = inl doc ->
  exists rows,
    json.appendCompact data true = inl rows
    /\ doc = (dq "{'data':" ++ rows ++ dq ",'export_date':'" ++ bytes_of date
                ++ dq "'}")%list.
Proof.
  intros Hd. unfold addExportDateToJSON, json.Marshal.
  cbn [json.sortKeys fold_right json.insertKey fst].
  change (String.leb "data" "export_date") with true. cbv iota.
  cbn [json.encodeMembers json.encodeValue json.RawMessage_MarshalJSON].
  destruct (json.appendCompact data true) as [rows|e]; [|discriminate].
  rewrite (appendString_plain date Hd).
  rewrite (appendString_plain "data" eq_refl).
  rewrite (appendString_plain "export_date" eq_refl).
  intros H. injection H as <-. exists rows. split; [reflexivity|].
  unfold string_text. cbn [app].
  repeat (rewrite <- app_assoc; cbn [app]). reflexivity.
Qed.

(** *** The snapshot file is a JSON text *)

Lemma spaces_newline d : spaces (newline "" "  " d).
Proof.
  unfold spaces, newline. cbn [bytes_of list_ascii_of_string app forallb].
  induction d as [|d IH]; [reflexivity|]. exact IH.
Qed.

(** The text [Indent] lays out is a text of the same document. *)
Lemma indented_is_text :
  (forall v t, Text v t -> forall d, Text v (indented_text "" "  " d v))
  /\ (forall vs t, Elems vs t -> forall d,
        Elems vs
          (newline "" "  " (S d)
             ++ sepConcat ("," :: newline "" "  " (S d))
                  (map (indented_text "" "  " (S d)) vs)
             ++ newline "" "  " d))
  /\ (forall ms t, Members ms t -> forall d,
        Members ms
          (newline "" "  " (S d)
             ++ sepConcat ("," :: newline "" "  " (S d))
                  (map (fun m => string_text (fst m) ++ ":" :: " "
                                   :: indented_text "" "  " (S d) (snd m)) ms)
             ++ newline "" "  " d)).
Proof.
  apply Text_Elems_Members_ind.
  - constructor.
  - constructor.
  - constructor.
  - intros n Hn d. now constructor.
  - intros body Hb d. now constructor.
  - intros ws _ d. apply (T_arr0 []). reflexivity.
  - intros elems t He IH d. destruct elems as [|e es]; [inversion He|].
    cbn [indented_text]. rewrite !app_assoc. constructor.
    rewrite <- !app_assoc. apply IH.
  - intros ws _ d. apply (T_obj0 []). reflexivity.
  - intros members t Hm IH d. destruct members as [|m ms]; [inversion Hm|].
    cbn [indented_text]. rewrite !app_assoc. constructor.
    rewrite <- !app_assoc. apply IH.
  - intros v ws1 t ws2 _ _ IH _ d. cbn [map sepConcat].
    apply E_last; [apply spaces_newline|apply IH|apply spaces_newline].
  - intros v ws1 t ws2 v' elems t' _ _ IH _ _ IHe d. cbn [map] in *.
    rewrite sepConcat_cons. rewrite <- !app_assoc. cbn [app].
    apply (E_cons v _ _ [] v' elems);
      [apply spaces_newline|apply IH|reflexivity|apply IHe].
  - intros k v ws1 ws2 ws3 t ws4 _ Hk _ _ _ IH _ d.
    cbn [map sepConcat fst snd]. rewrite <- !app_assoc. cbn [app].
    apply (M_last k v _ [] [" "] _ _);
      try reflexivity; try apply spaces_newline; [exact Hk|apply IH].
  - intros k v ws1 ws2 ws3 t ws4 m members t' _ Hk _ _ _ IH _ _ IHm d.
    cbn [map fst snd] in *. rewrite sepConcat_cons. rewrite <- !app_assoc.
    cbn [app].
    apply (M_cons k v _ [] [" "] _ [] m members);
      try reflexivity; try apply spaces_newline; [exact Hk|apply IH|apply IHm].
Qed.

Lemma unescape_plain c b : (c =? "\") = false -> unescape (c :: b) = c :: unescape b.
Proof. intros H. cbn [unescape]. now rewrite H. Qed.

(** The escapes [appendCompact] writes stand for the bytes they
    replace. *)
Lemma unescape_escapeHTML b :
  wf_body b = true -> unescape (escapeHTML b) = unescape b.
Proof.
  remember (List.length b) as n eqn:Hn.
  revert b Hn. induction n as [n IH] using lt_wf_ind. intros b Hn Hb.
  destruct b as [|c b]; [reflexivity|].
  cbn [wf_body] in Hb.
  destruct (Ascii.eqb_spec c "\") as [->|Hc].
  - destruct b as [|e b]; [discriminate|].
    rewrite (escapeHTML_safe "\" _ eq_refl).
    destruct (Ascii.eqb_spec e "u") as [->|He].
    + destruct b as [|h1 [|h2 [|h3 [|h4 b]]]]; try discriminate.
      apply andb_prop in Hb as [Hb Hb'].
      apply andb_prop in Hb as [Hb H4]. apply andb_prop in Hb as [Hb H3].
      apply andb_prop in Hb as [H1 H2].
      rewrite (escapeHTML_safe "u" _ eq_refl),
        (escapeHTML_safe h1 _ (hex_safe _ H1)),
        (escapeHTML_safe h2 _ (hex_safe _ H2)),
        (escapeHTML_safe h3 _ (hex_safe _ H3)),
        (escapeHTML_safe h4 _ (hex_safe _ H4)).
      cbn [unescape Ascii.eqb Bool.eqb]. f_equal.
      apply (IH (List.length b)); [subst n; cbn; lia | reflexivity | exact Hb'].
    + apply andb_prop in Hb as [He' Hb'].
      rewrite (escapeHTML_safe e _ (simple_escape_safe _ He')).
      cbn [unescape Ascii.eqb Bool.eqb].
      destruct (Ascii.eqb_spec e "u") as [->|_]; [now contradiction He|].
      f_equal.
      apply (IH (List.length b)); [subst n; cbn; lia | reflexivity | exact Hb'].
  - apply andb_prop in Hb as [Hp Hb'].
    assert (Hc' : (c =? "\") = false) by now apply Ascii.eqb_neq.
    rewrite (unescape_plain c b Hc').
    cbn [escapeHTML]. destruct (isHTML c) eqn:Hh.
    + assert (E : unescape (escapeHTML b) = unescape b).
      { apply (IH (List.length b)); [subst n; cbn; lia | reflexivity | exact Hb']. }
      revert Hh. clear - E. unfold isHTML. intros H.
      apply orb_prop in H as [H|H]; [apply orb_prop in H as [H|H]|];
        apply Ascii.eqb_eq in H; subst c; cbn; now rewrite E.
    + destruct b as [|c1 [|c2 b']].
      * cbv match. now rewrite (unescape_plain c _ Hc').
      * cbv match. rewrite (unescape_plain c _ Hc'). f_equal.
        apply (IH 1); [subst n; cbn; lia | reflexivity | exact Hb'].
      * destruct ((code c =? 226)%N && (code c1 =? 128)%N
                  && (N.ldiff (code c2) 1 =? 168)%N) eqn:Hl.
        -- apply andb_prop in Hl as [Hl H2]. apply andb_prop in Hl as [H0 H1].
           assert (P1 : isPlain c1 = true).
           { revert H1. clear. each_byte c1; intros H; try discriminate H;
               reflexivity. }
           assert (P2 : isPlain c2 = true).
           { revert H2. clear. each_byte c2; intros H; try discriminate H;
               reflexivity. }
           assert (E : unescape (escapeHTML b') = unescape b').
           { apply (IH (List.length b')); [subst n; cbn; lia | reflexivity |].
             now rewrite (wf_body_plain c1 _ P1), (wf_body_plain c2 _ P2) in Hb'. }
           assert (E0 : c = "226") by
             (revert H0; clear; each_byte c; intros H; try discriminate H;
              reflexivity).
           assert (E1 : c1 = "128") by
             (revert H1; clear; each_byte c1; intros H; try discriminate H;
              reflexivity).
           subst c c1. revert H2 E. clear.
           each_byte c2; intros H2 E; try discriminate H2; cbn; now rewrite E.
        -- rewrite (unescape_plain c _ Hc'). f_equal.
           apply (IH (List.length (c1 :: c2 :: b')));
             [subst n; cbn; lia | reflexivity | exact Hb'].
Qed.

(** Escaping for HTML changes no string of a document. *)
Lemma unescaped_escaped :
  (forall v t, Text v t -> unescaped (escaped v) = unescaped v)
  /\ (forall vs t, Elems vs t ->
        map unescaped (map escaped vs) = map unescaped vs)
  /\ (forall ms t, Members ms t ->
        map (fun m => (unescape (fst m), unescaped (snd m)))
          (map (fun m => (escapeHTML (fst m), escaped (snd m))) ms)
        = map (fun m => (unescape (fst m), unescaped (snd m))) ms).
Proof.
  apply Text_Elems_Members_ind; try reflexivity.
  - intros body Hb. cbn [escaped unescaped]. now rewrite unescape_escapeHTML.
  - intros elems t _ IH. cbn [escaped unescaped]. now rewrite IH.
  - intros members t _ IH. cbn [escaped unescaped]. now rewrite IH.
  - intros v ws1 t ws2 _ _ IH _. cbn [map]. now rewrite IH.
  - intros v ws1 t ws2 v' elems t' _ _ IH _ _ IHe. cbn [map] in *.
    now rewrite IH, IHe.
  - intros k v ws1 ws2 ws3 t ws4 _ Hk _ _ _ IH _. cbn [map fst snd].
    now rewrite IH, unescape_escapeHTML.
  - intros k v ws1 ws2 ws3 t ws4 m members t' _ Hk _ _ _ IH _ _ IHm.
    cbn [map fst snd] in *. now rewrite IH, IHm, unescape_escapeHTML.
Qed.

End SnapshotFacts.

(** ** The process *)

Import jsontext SnapshotFacts.

Lemma record_record p es es' : record (record p es) es' = record p (es ++ es')%list.
Proof. unfold record; simpl. now rewrite app_assoc. Qed.

Lemma record_nil p : record p [] = p.
Proof. destruct p; unfold record; simpl. now rewrite app_nil_r. Qed.

(** *** bytes.Contains *)

Lemma HasPrefix_spec s pre :
  gobytes.HasPrefix s pre = true <-> exists post, s = (pre ++ post)%list.
Proof.
  revert s; induction pre as [|c pre IH]; intros [|d s]; simpl.
  - split; [intros _; now exists [] | reflexivity].
  - split; [intros _; now exists (d :: s) | reflexivity].
  - split; [discriminate | intros [post H]; discriminate].
  - rewrite andb_true_iff, IH. split.
    + intros [Hc [post ->]]. apply Ascii.eqb_eq in Hc. subst. now exists post.
    + intros [post H]. injection H as -> ->. split.
      * apply Ascii.eqb_refl.
      * now exists post.
Qed.

Lemma Contains_spec b sub :
  gobytes.Contains b sub = true <-> exists pre post, b = (pre ++ sub ++ post)%list.
Proof.
  induction b as [|c b IH].
  - cbn [gobytes.Contains]. rewrite orb_false_r, HasPrefix_spec. split.
    + intros [post H]. now exists [], post.
    + intros [pre [post H]]. destruct pre; simpl in H.
      * now exists post.
      * discriminate.
  - cbn [gobytes.Contains]. rewrite orb_true_iff, HasPrefix_spec, IH. split.
    + intros [[post H] | [pre [post H]]].
      * now exists [], post.
      * exists (c :: pre), post. simpl. now rewrite H.
    + intros [pre [post H]]. destruct pre as [|d pre]; simpl in H.
      * left. now exists post.
      * right. injection H as -> ->. now exists pre, post.
Qed.

Lemma gitPush_run w p :
  gitPush w p =
  match w_CombinedOutput w p "git" ["push"] with
  | (output, Some err) =>
      (Some (Errorf "git push failed: %v, output: %s"
               [AError err; ABytes (Some output)]),
       record p [EvCommand "git" ["push"]])
  | (_, None) =>
      (None, record p [EvCommand "git" ["push"];
                       EvPrintln "Pushed changes to remote repository"])
  end.
Proof.
  unfold gitPush, bind, exec_CombinedOutput, call, fmt_Println, emit, ret, record.
  destruct (w_CombinedOutput w p "git" ["push"]) as [output [err|]]; simpl.
  - reflexivity.
  - now rewrite <- app_assoc.
Qed.

Lemma gitCommit_run w p msg :
  gitCommit msg w p =
  match w_CombinedOutput w p "git" (commitArgs msg) with
  | (output, Some err) =>
      if gobytes.Contains output (bytes_of "nothing to commit")
      then (None, record p [EvCommand "git" (commitArgs msg);
                            EvPrintln "Nothing to commit, working tree clean"])
      else (Some (Errorf "git commit failed: %v, output: %s"
                    [AError err; AString (string_of output)]),
            record p [EvCommand "git" (commitArgs msg)])
  | (_, None) =>
      gitPush w (record p [EvCommand "git" (commitArgs msg);
                           EvPrintf ("Committed changes with message: %s" ++ LF)
                             [AString ("Data export " ++ msg)]])
  end.
Proof.
  unfold gitCommit, commitArgs, bind, exec_CombinedOutput, call, fmt_Println,
    fmt_Printf, emit, ret, record.
  destruct (w_CombinedOutput w p "git" ["commit"; "-m"; "Data export " ++ msg])
    as [output [err|]].
  - destruct (gobytes.Contains output (bytes_of "nothing to commit")); simpl;
      rewrite <- ?app_assoc; reflexivity.
  - simpl. now rewrite <- app_assoc.
Qed.

Lemma gitAdd_run w p msg :
  gitAdd msg w p =
  match w_CombinedOutput w p "git" ["add"; "."] with
  | (output, Some err) =>
      (Some (Errorf "git add failed: %v, output: %s"
               [AError err; ABytes (Some output)]),
       record p [EvCommand "git" ["add"; "."]])
  | (_, None) =>
      gitCommit msg w (record p [EvCommand "git" ["add"; "."];
                                 EvPrintln "Added files to Git staging area"])
  end.
Proof.
  unfold gitAdd, bind, exec_CombinedOutput, call, fmt_Println, emit, ret, record.
  destruct (w_CombinedOutput w p "git" ["add"; "."]) as [output [err|]]; simpl.
  - reflexivity.
  - now rewrite <- app_assoc.
Qed.

Lemma gitCommitAndPush_run w p repoPath msg :
  gitCommitAndPush repoPath msg w p =
  match w_Getwd w p with
  | Some err =>
      (Some (Errorf "failed to get current directory: %v" [AError err]), p)
  | None =>
      match w_Chdir w p repoPath with
      | Some err =>
          (Some (Errorf "failed to change directory: %v" [AError err]),
           record p [EvChdir repoPath])
      | None =>
          let '(r, p') := gitAdd msg w (entered p repoPath) in
          (r, snd (os_Chdir (cwd p) w p'))
      end
  end.
Proof.
  unfold gitCommitAndPush, bind, os_Getwd, ask, os_Chdir, defer, bind, ret.
  destruct (w_Getwd w p); [reflexivity|].
  destruct (w_Chdir w p repoPath); [reflexivity|].
  fold (entered p repoPath).
  destruct (gitAdd msg w (entered p repoPath)) as [r p'].
  unfold os_Chdir. destruct (w_Chdir w p' (cwd p)); reflexivity.
Qed.

Lemma talk_not_chdir es :
  forallb isTalk es = true -> forallb (fun e => negb (isChdir e)) es = true.
Proof.
  induction es as [|e es IH]; [reflexivity|]. cbn [forallb].
  intros H. apply andb_prop in H as [He Hes]. rewrite (IH Hes), andb_true_r.
  now destruct e.
Qed.

Lemma history_gitAdd w p msg :
  exists es,
    history (snd (gitAdd msg w p)) = (history p ++ es)%list
    /\ forallb isTalk es = true
    /\ environ (snd (gitAdd msg w p)) = environ p
    /\ cwd (snd (gitAdd msg w p)) = cwd p
    /\ commands es =
       match snd (w_CombinedOutput w p "git" ["add"; "."]),
             snd (w_CombinedOutput w
                    (record p [EvCommand "git" ["add"; "."];
                               EvPrintln "Added files to Git staging area"])
                    "git" (commitArgs msg)) with
       | Some _, _ => [["add"; "."]]
       | None, Some _ => [["add"; "."]; commitArgs msg]
       | None, None => [["add"; "."]; commitArgs msg; ["push"]]
       end.
Proof.
  rewrite gitAdd_run.
  destruct (w_CombinedOutput w p "git" ["add"; "."]) as [o1 [e1|]]; cbn [snd].
  { eexists; repeat split; reflexivity. }
  rewrite gitCommit_run.
  destruct (w_CombinedOutput w _ "git" (commitArgs msg)) as [o2 [e2|]];
    cbn [snd].
  { destruct (gobytes.Contains o2 _); rewrite record_record;
      eexists; repeat split; reflexivity. }
  rewrite gitPush_run.
  destruct (w_CombinedOutput w _ "git" ["push"]) as [o3 [e3|]];
    rewrite !record_record; eexists; repeat split; reflexivity.
Qed.

Lemma loadConfig_run w p :
  loadConfig w p =
  match w_dotenv w with
  | inr e => (inr (Errorf "error loading .env file: %v" [AError e]), p)
  | inl envMap =>
      let env := (environ p ++ envMap)%list in
      match strconv.Atoi (envOr env "DB_PORT" "") with
      | inr e => (inr (Errorf "invalid DB_PORT: %v" [AError e]),
                  loaded p envMap)
      | inl port =>
          (inl {| Host := envOr env "DB_HOST" "localhost";
                  Port := port;
                  User := envOr env "DB_USER" "postgres";
                  Password := envOr env "DB_PASSWORD" "";
                  DBName := envOr env "DB_NAME" "hospital_db";
                  SSLMode := envOr env "DB_SSLMODE" "disable";
                  OutputDir := envOr env "OUTPUT_DIR" "data_exports" |},
           loaded p envMap)
      end
  end.
Proof.
  unfold loadConfig, bind, godotenv_Load.
  destruct (w_dotenv w) as [envMap|e]; [|reflexivity].
  unfold os_Getenv, ask. cbn [environ]. fold (envOr (environ p ++ envMap) "DB_PORT" "").
  cbv zeta.
  destruct (strconv.Atoi _) as [port|e]; [|reflexivity].
  unfold getEnvWithDefault, bind, os_LookupEnv, ask, ret, envOr, loaded.
  repeat (cbn [environ];
          match goal with
          | |- context [lookup ?k ?e] => destruct (lookup k e)
          end); reflexivity.
Qed.

Lemma exportView_run w p config date view :
  exists es,
    exportView config date view w p
      = (tt, record p (EvQueryRow (view_query view) :: es))
    /\ viewOutcome w p config date view es.
Proof.
  unfold exportView, viewOutcome, bind, db_QueryRow_Scan, call, fmt_Printf,
    emit, os_WriteFile, call, record.
  destruct (w_Scan w p (view_query view)) as [jsonData|err].
  2:{ eexists; split; [|reflexivity]. cbn. now rewrite <- app_assoc. }
  cbv zeta.
  destruct (addExportDateToJSON _ date) as [doc|err].
  2:{ eexists; split; [|reflexivity]. cbn. now rewrite <- app_assoc. }
  destruct (json.Indent doc "" "  ") as [pretty|err].
  2:{ eexists; split; [|reflexivity]. cbn. now rewrite <- app_assoc. }
  cbn [history environ cwd].
  destruct (w_WriteFile w _ (view_filename config view) pretty 420);
    (eexists; split; [|reflexivity]); cbn; now rewrite <- !app_assoc.
Qed.

Lemma forEach_app vs vs' body w p :
  forEach (vs ++ vs') body w p = forEach vs' body w (snd (forEach vs body w p)).
Proof.
  revert p; induction vs as [|v vs IH]; intros p; cbn [forEach app].
  - reflexivity.
  - unfold bind. destruct (body v w p) as [[] p1]. cbn [snd]. apply IH.
Qed.

Lemma main_session_run w p config :
  main_session config w p =
  match w_Ping w p with
  | Some err =>
      (tt, record p [EvPing;
                     EvPrintf ("Error pinging database: %v" ++ LF)
                       [AError err]])
  | None =>
      let q := record p [EvPing;
                         EvPrintln "Successfully connected to the database"] in
      match w_MkdirAll w q (OutputDir config) 493 with
      | Some err =>
          (tt, record q [EvMkdirAll (OutputDir config) 493;
                         EvPrintf ("Error creating output directory: %v" ++ LF)
                           [AError err]])
      | None =>
          main_export config w (record q [EvMkdirAll (OutputDir config) 493])
      end
  end.
Proof.
  unfold main_session, bind, db_Ping, call, fmt_Printf, fmt_Println, emit,
    os_MkdirAll, call, record.
  destruct (w_Ping w p) as [err|]; cbn [history environ cwd].
  - now rewrite <- app_assoc.
  - rewrite <- app_assoc. cbn [app].
    destruct (w_MkdirAll w _ (OutputDir config) 493) as [err|];
      cbn [history environ cwd]; rewrite <- ?app_assoc; reflexivity.
Qed.

Lemma main_connect_run w p config :
  main_connect config w p =
  match w_sql_Open w p "postgres" (connString config) with
  | Some err =>
      (tt, record p [EvSqlOpen "postgres" (connString config);
                     EvPrintf ("Error connecting to database: %v" ++ LF)
                       [AError err]])
  | None =>
      (tt, record (snd (main_session config w
                          (record p [EvSqlOpen "postgres" (connString config)])))
             [EvClose])
  end.
Proof.
  unfold main_connect, bind, sql_Open, call, fmt_Printf, emit, defer, bind,
    db_Close, emit, call, ret, record.
  destruct (w_sql_Open w p "postgres" (connString config)) as [err|];
    cbn [history environ cwd].
  - now rewrite <- app_assoc.
  - destruct (main_session config w _) as [[] q]. reflexivity.
Qed.

Lemma main_export_run w p config :
  let date := time.Format_2006_01_02 (w_Now w p) in
  let q := snd (forEach views (exportView config date) w p) in
  main_export config w p =
  match gitCommitAndPush (OutputDir config) date w q with
  | (Some err, q') =>
      (tt, record q' [EvPrintf ("Error with Git operations: %v" ++ LF)
                        [AError err]])
  | (None, q') =>
      (tt, record q'
             [EvPrintln "Data export and Git operations completed successfully"])
  end.
Proof.
  cbv zeta. unfold main_export, bind, time_Now, ask.
  destruct (forEach views _ w p) as [[] q]. cbn [snd].
  destruct (gitCommitAndPush _ _ w q) as [[err|] q']; reflexivity.
Qed.

Lemma writes_app a b : writes (a ++ b) = (writes a ++ writes b)%list.
Proof.
  induction a as [|e a IH]; [reflexivity|].
  destruct e; cbn [app writes]; rewrite IH; reflexivity.
Qed.

(** What one view adds to the files written. *)
Lemma exportView_writes w p config t view :
  exists es,
    history (snd (exportView config (time.Format_2006_01_02 t) view w p))
    = (history p ++ es)%list
    /\ (writes es = []
        \/ exists content,
             writes es = [(view_filename config view, content)]
             /\ stamped (time.Format_2006_01_02 t) content).
Proof.
  destruct (exportView_run w p config (time.Format_2006_01_02 t) view)
    as (es & -> & Hout).
  exists (EvQueryRow (view_query view) :: es). split; [reflexivity|].
  cbn [writes]. unfold viewOutcome in Hout.
  destruct (w_Scan w p (view_query view)) as [jsonData|err].
  2:{ subst es. now left. }
  cbv zeta in Hout.
  set (data := match jsonData with Some b => b | None => bytes_of "[]" end).
  assert (Hdata : match jsonData with
                   | Some _ => jsonData
                   | None => Some (bytes_of "[]")
                   end = Some data) by (destruct jsonData; reflexivity).
  rewrite Hdata in Hout. clear Hdata.
  destruct (addExportDateToJSON (Some data) _) as [doc|err] eqn:Edoc.
  2:{ subst es. now left. }
  destruct (json.Indent doc "" "  ") as [pretty|err] eqn:Epretty.
  2:{ subst es. now left. }
  assert (Hst : stamped (time.Format_2006_01_02 t) pretty).
  { destruct (addExportDateToJSON_shape data _ doc (safe_Format t) Edoc)
      as (rows & Hrows & Hdoc).
    exists data, rows. split; [exact Hrows|]. split; [now rewrite <- Hdoc|].
    intros v Hv Hfit.
    destruct (snapshot_of_text v data _ Hv Hfit (safe_Format t)) as [H1 H2].
    assert (E : doc = compact_text
                        (wrapper (escaped v) (time.Format_2006_01_02 t)))
      by congruence.
    rewrite E in Epretty. congruence. }
  right. exists pretty.
  destruct (w_WriteFile w _ _ pretty 420); subst es; cbn [writes];
    now split.
Qed.

Lemma forEach_writes w config t vs :
  forall p, exists es keep,
    history (snd (forEach vs (exportView config (time.Format_2006_01_02 t)) w p))
    = (history p ++ es)%list
    /\ List.length keep = List.length vs
    /\ map fst (writes es) = map (view_filename config) (select keep vs)
    /\ Forall (fun nc => stamped (time.Format_2006_01_02 t) (snd nc))
         (writes es).
Proof.
  induction vs as [|v vs IH]; intros p.
  - exists [], []. cbn. rewrite app_nil_r. repeat split; constructor.
  - cbn [forEach]. unfold bind.
    destruct (exportView_writes w p config t v) as (es1 & H1 & Hw).
    destruct (exportView config _ v w p) as [[] p1]. cbn [snd] in H1.
    destruct (IH p1) as (es2 & keep & H2 & Hlen & Hnames & Hst).
    rewrite H2, H1, <- app_assoc.
    destruct Hw as [Hw | (content & Hw & Hc)].
    + exists (es1 ++ es2)%list, (false :: keep). split; [reflexivity|].
      rewrite writes_app, Hw. cbn [app select List.length].
      repeat split; [now rewrite Hlen | exact Hnames | exact Hst].
    + exists (es1 ++ es2)%list, (true :: keep). split; [reflexivity|].
      rewrite writes_app, Hw. cbn [app select List.length map fst].
      repeat split; [now rewrite Hlen | now rewrite Hnames |].
      constructor; [exact Hc | exact Hst].
Qed.

(** *** The files a run writes *)







(** What [loadConfig] leaves of the process: its history. *)
Lemma loadConfig_history w p :
  history (snd (loadConfig w p)) = history p.
Proof.
  rewrite loadConfig_run. destruct (w_dotenv w); [|reflexivity].
  cbv zeta. destruct (strconv.Atoi _); reflexivity.
Qed.

Lemma snd_run w : snd (run w) = snd (main w (start w)).
Proof. unfold run. now destruct (main w (start w)). Qed.

(** *** The date of a run *)






(** *** The paths of the snapshot files *)














(** *** Sample rows *)

Lemma rows_sample_text : Text rows_sample_value rows_sample.
Proof.
  refine (T_arr _ (dq "{'unit':'A&E','wait':12.50}," ++ row_gap
                     ++ dq "{'unit':'<1h','wait':7}")%list _).
  refine (E_cons _ [] (dq "{'unit':'A&E','wait':12.50}") [] _ _
            (row_gap ++ dq "{'unit':'<1h','wait':7}")%list eq_refl _ eq_refl _).
  - refine (T_obj _ (dq "'unit':'A&E','wait':12.50") _).
    refine (M_cons (bytes_of "unit") _ [] [] [] (dq "'A&E'") [] _ _
              (dq "'wait':12.50")
              eq_refl eq_refl eq_refl eq_refl _ eq_refl _).
    + exact (T_str (bytes_of "A&E") eq_refl).
    + refine (M_last (bytes_of "wait") _ [] [] [] (dq "12.50") [] eq_refl
                eq_refl eq_refl
                eq_refl _ eq_refl).
      exact (T_num (mkNumber false (bytes_of "12") (Some (bytes_of "50")) None)
               eq_refl).
  - refine (E_last _ row_gap (dq "{'unit':'<1h','wait':7}") [] eq_refl _
              eq_refl).
    refine (T_obj _ (dq "'unit':'<1h','wait':7") _).
    refine (M_cons (bytes_of "unit") _ [] [] [] (dq "'<1h'") [] _ _
              (dq "'wait':7")
              eq_refl eq_refl eq_refl eq_refl _ eq_refl _).
    + exact (T_str (bytes_of "<1h") eq_refl).
    + refine (M_last (bytes_of "wait") _ [] [] [] (dq "7") [] eq_refl eq_refl
                eq_refl
                eq_refl _ eq_refl).
      exact (T_num (mkNumber false (bytes_of "7") None None) eq_refl).
Qed.

Lemma fits_small n : (n <= 100)%nat -> fits [] n.
Proof. unfold fits, json.maxNestingDepth. cbn [List.length]. lia. Qed.

(** *** The events of each part of a run *)

Lemma forallb_imp {A} (P Q : A -> bool) l :
  (forall x, P x = true -> Q x = true) ->
  forallb P l = true -> forallb Q l = true.
Proof.
  intros H. induction l as [|x l IH]; [reflexivity|]. cbn [forallb].
  intros E. apply andb_prop in E as [E1 E2]. now rewrite (H x E1), IH.
Qed.

(** What one view adds to the history: its query, then at most a file
    and a line. *)
Lemma exportView_events w p config date view :
  exists es,
    history (snd (exportView config date view w p))
    = (history p ++ EvQueryRow (view_query view) :: es)%list
    /\ forallb isViewEvent es = true /\ queries es = []
    /\ commands es = [].
Proof.
  destruct (exportView_run w p config date view) as (es & -> & Hout).
  exists es. split; [reflexivity|]. unfold viewOutcome in Hout.
  destruct (w_Scan w p (view_query view)) as [jsonData|err].
  2:{ subst es. now repeat split. }
  cbv zeta in Hout.
  destruct (addExportDateToJSON _ date) as [doc|err].
  2:{ subst es. now repeat split. }
  destruct (json.Indent doc "" "  ") as [pretty|err].
  2:{ subst es. now repeat split. }
  destruct (w_WriteFile w _ _ pretty 420); subst es; now repeat split.
Qed.

Lemma queries_app a b : queries (a ++ b) = (queries a ++ queries b)%list.
Proof.
  induction a as [|e a IH]; [reflexivity|].
  destruct e; cbn [app queries]; rewrite IH; reflexivity.
Qed.

Lemma commands_app a b : commands (a ++ b) = (commands a ++ commands b)%list.
Proof.
  induction a as [|e a IH]; [reflexivity|].
  destruct e; cbn [app commands]; rewrite IH; reflexivity.
Qed.

(** The loop queries every view once, in order, whatever happens to the
    views, and runs no sub-process. *)
Lemma forEach_events w config date vs :
  forall p, exists es,
    history (snd (forEach vs (exportView config date) w p))
    = (history p ++ es)%list
    /\ forallb isViewEvent es = true
    /\ queries es = map view_query vs
    /\ commands es = [].
Proof.
  induction vs as [|v vs IH]; intros p.
  - exists []. cbn. now rewrite app_nil_r.
  - cbn [forEach]. unfold bind.
    destruct (exportView_events w p config date v) as (es1 & H1 & Hv & Hq & Hc).
    destruct (exportView config date v w p) as [[] p1]. cbn [snd] in H1.
    destruct (IH p1) as (es2 & H2 & Hv2 & Hq2 & Hc2).
    exists ((EvQueryRow (view_query v) :: es1) ++ es2)%list.
    rewrite H2, H1, <- app_assoc. split; [reflexivity|].
    rewrite forallb_app, queries_app, commands_app. cbn [forallb queries
      commands isViewEvent map].
    now rewrite Hv, Hv2, Hq, Hq2, Hc, Hc2.
Qed.

Lemma talk_is_git es : forallb isTalk es = true -> forallb isGitEvent es = true.
Proof. apply forallb_imp. now intros []. Qed.

Lemma queries_git es : forallb isGitEvent es = true -> queries es = [].
Proof.
  induction es as [|e es IH]; [reflexivity|]. cbn [forallb].
  intros H. apply andb_prop in H as [He Hes].
  destruct e; try discriminate; cbn [queries]; exact (IH Hes).
Qed.

(** What the publisher adds to the history. *)
Lemma gitCommitAndPush_events w p repoPath msg :
  exists es,
    history (snd (gitCommitAndPush repoPath msg w p)) = (history p ++ es)%list
    /\ forallb isGitEvent es = true
    /\ exists n, commands es = firstn n [["add"; "."]; commitArgs msg; ["push"]].
Proof.
  rewrite gitCommitAndPush_run.
  destruct (w_Getwd w p).
  { exists []. cbn. rewrite app_nil_r. repeat split. now exists 0. }
  destruct (w_Chdir w p repoPath).
  { exists [EvChdir repoPath]. repeat split. now exists 0. }
  destruct (history_gitAdd w (entered p repoPath) msg)
    as (es & Hh & Ht & _ & _ & Hc).
  destruct (gitAdd msg w (entered p repoPath)) as [r p'].
  cbn [snd] in *.
  exists ([EvChdir repoPath] ++ es ++ [EvChdir (cwd p)])%list. split; [|split].
  - unfold os_Chdir. destruct (w_Chdir w p' (cwd p)); cbn [snd history];
      rewrite Hh; cbn [entered history]; now rewrite <- !app_assoc.
  - rewrite !forallb_app, (talk_is_git es Ht). reflexivity.
  - rewrite !commands_app, Hc. cbn [commands app]. rewrite app_nil_r.
    destruct (snd (w_CombinedOutput w _ "git" ["add"; "."])).
    { now exists 1. }
    destruct (snd (w_CombinedOutput w _ "git" (commitArgs msg))).
    { now exists 2. }
    now exists 3.
Qed.

Lemma isSuccessLine_spec e : isSuccessLine e = true <-> e = successLine.
Proof.
  unfold successLine. destruct e; cbn; try (split; [discriminate|intros H; discriminate H]).
  rewrite String.eqb_eq. split; [now intros ->|now intros [= ->]].
Qed.

(** None of the lines of the publisher is the line that ends a run
    without error. *)
Lemma gitAdd_no_success_line w p msg :
  exists es,
    history (snd (gitAdd msg w p)) = (history p ++ es)%list
    /\ forallb (fun e => negb (isSuccessLine e)) es = true.
Proof.
  rewrite gitAdd_run.
  destruct (w_CombinedOutput w p "git" ["add"; "."]) as [o1 [e1|]]; cbn [snd].
  { eexists; split; reflexivity. }
  rewrite gitCommit_run.
  destruct (w_CombinedOutput w _ "git" (commitArgs msg)) as [o2 [e2|]];
    cbn [snd].
  { destruct (gobytes.Contains o2 _); rewrite record_record;
      eexists; split; reflexivity. }
  rewrite gitPush_run.
  destruct (w_CombinedOutput w _ "git" ["push"]) as [o3 [e3|]];
    rewrite !record_record; eexists; split; reflexivity.
Qed.

Lemma gitCommitAndPush_no_success_line w p repoPath msg :
  exists es,
    history (snd (gitCommitAndPush repoPath msg w p)) = (history p ++ es)%list
    /\ forallb (fun e => negb (isSuccessLine e)) es = true.
Proof.
  rewrite gitCommitAndPush_run.
  destruct (w_Getwd w p).
  { exists []. cbn. now rewrite app_nil_r. }
  destruct (w_Chdir w p repoPath).
  { now exists [EvChdir repoPath]. }
  destruct (gitAdd_no_success_line w (entered p repoPath) msg) as (es & Hh & Hs).
  destruct (gitAdd msg w (entered p repoPath)) as [r p'].
  cbn [snd] in *.
  exists ([EvChdir repoPath] ++ es ++ [EvChdir (cwd p)])%list. split.
  - unfold os_Chdir. destruct (w_Chdir w p' (cwd p)); cbn [snd history];
      rewrite Hh; cbn [entered history]; now rewrite <- !app_assoc.
  - rewrite !forallb_app, Hs. reflexivity.
Qed.

(** The events of the export and the publication: those of the views,
    those of the publisher, and one last line. *)
Lemma main_export_events w p config :
  let date := time.Format_2006_01_02 (w_Now w p) in
  let q := snd (forEach views (exportView config date) w p) in
  let r := gitCommitAndPush (OutputDir config) date w q in
  exists es1 es2,
    history q = (history p ++ es1)%list
    /\ history (snd r) = (history q ++ es2)%list
    /\ history (snd (main_export config w p))
       = (history p ++ es1 ++ es2 ++ [lastLine (fst r)])%list
    /\ forallb isViewEvent es1 = true
    /\ queries es1 = map view_query views
    /\ commands es1 = []
    /\ Forall (fun nc => stamped date (snd nc)) (writes es1)
    /\ forallb isGitEvent es2 = true
    /\ forallb (fun e => negb (isSuccessLine e)) es2 = true
    /\ exists n,
         commands es2 = firstn n [["add"; "."]; commitArgs date; ["push"]].
Proof.
  cbv zeta. pose proof (main_export_run w p config) as Hrun. cbv zeta in Hrun.
  set (date := time.Format_2006_01_02 (w_Now w p)) in *.
  destruct (forEach_events w config date views p) as (es1 & H1 & Hv & Hq & Hc).
  destruct (forEach_writes w config (w_Now w p) views p)
    as (es1' & keep & H1' & _ & _ & Hst).
  fold date in H1', Hst.
  assert (E : es1' = es1).
  { rewrite H1 in H1'. now apply app_inv_head in H1'. }
  subst es1'.
  set (q := snd (forEach views (exportView config date) w p)) in *.
  destruct (gitCommitAndPush_events w q (OutputDir config) date)
    as (es2 & H2 & Hg & Hn).
  destruct (gitCommitAndPush_no_success_line w q (OutputDir config) date)
    as (es2' & H2' & Hs).
  assert (E : es2' = es2).
  { rewrite H2 in H2'. now apply app_inv_head in H2'. }
  subst es2'.
  exists es1, es2. repeat split; try assumption.
  rewrite Hrun.
  destruct (gitCommitAndPush (OutputDir config) date w q) as [[err|] q'];
    cbn [fst snd record history lastLine] in *; rewrite H2, H1;
    now rewrite <- !app_assoc.
Qed.

Lemma view_in_session es : forallb isViewEvent es = true -> forallb inSession es = true.
Proof. apply forallb_imp. now intros []. Qed.

Lemma git_in_session es : forallb isGitEvent es = true -> forallb inSession es = true.
Proof. apply forallb_imp. now intros []. Qed.

Lemma writes_view_git es : forallb isGitEvent es = true -> writes es = [].
Proof.
  induction es as [|e es IH]; [reflexivity|]. cbn [forallb].
  intros H. apply andb_prop in H as [He Hes].
  destruct e; try discriminate; cbn [writes]; exact (IH Hes).
Qed.

(** A session neither opens nor closes a connection. *)
Lemma main_session_events w p config :
  exists es,
    history (snd (main_session config w p)) = (history p ++ es)%list
    /\ forallb inSession es = true.
Proof.
  rewrite main_session_run.
  destruct (w_Ping w p).
  { eexists. split; reflexivity. }
  cbv zeta.
  destruct (w_MkdirAll w _ (OutputDir config) 493).
  { rewrite record_record. eexists. split; reflexivity. }
  rewrite record_record.
  set (q := record p _).
  destruct (main_export_events w q config)
    as (es1 & es2 & _ & _ & H & Hv & _ & _ & _ & Hg & _).
  rewrite H. unfold q. cbn [record history]. rewrite <- app_assoc.
  eexists. split; [reflexivity|].
  rewrite !forallb_app, (view_in_session _ Hv), (git_in_session _ Hg).
  cbn [app forallb]. now destruct (fst _).
Qed.

(** When every query fails, the loop writes no file. *)
Lemma forEach_no_rows w config date vs :
  (forall q view, exists err, w_Scan w q (view_query view) = inr err) ->
  forall p es,
    history (snd (forEach vs (exportView config date) w p))
    = (history p ++ es)%list ->
    writes es = [].
Proof.
  intros Hfail. induction vs as [|v vs IH]; intros p es.
  - cbn. intros H. rewrite <- (app_nil_r (history p)) in H at 1.
    apply app_inv_head in H. now subst es.
  - cbn [forEach]. unfold bind.
    destruct (exportView_run w p config date v) as (es1 & Hrun & Hout).
    rewrite Hrun. cbn [snd]. unfold viewOutcome in Hout.
    destruct (Hfail p v) as [err Herr]. rewrite Herr in Hout. subst es1.
    destruct (forEach_events w config date vs
                (record p [EvQueryRow (view_query v);
                           EvPrintf ("Error querying view %s: %v" ++ LF)
                             [AString v; AError err]]))
      as (es2 & H2 & _).
    rewrite H2. cbn [record history]. rewrite <- app_assoc. intros H.
    apply app_inv_head in H. subst es.
    rewrite writes_app. cbn [writes app]. now apply (IH _ _ H2).
Qed.

(** The shape of a run: [sql.Open] comes first, the events of a session
    follow, and [db.Close] comes last when the connection was opened. *)
Lemma run_shape w :
  let h := history (snd (run w)) in
  match loadConfig w (start w) with
  | (inr _, _) => forallb inSession h = true
  | (inl config, p) =>
      exists es,
        forallb inSession es = true
        /\ match w_sql_Open w p "postgres" (connString config) with
           | Some _ => h = EvSqlOpen "postgres" (connString config) :: es
           | None =>
               h = (EvSqlOpen "postgres" (connString config) :: es
                      ++ [EvClose])%list
           end
  end.
Proof.
  cbv zeta. rewrite snd_run. unfold main, bind.
  pose proof (loadConfig_history w (start w)) as Hh.
  destruct (loadConfig w (start w)) as [[config|err] p]; cbn [snd] in Hh.
  - rewrite main_connect_run.
    destruct (w_sql_Open w p "postgres" (connString config)) as [err|].
    + eexists. split; [|cbn [snd record history]; rewrite Hh; reflexivity].
      reflexivity.
    + destruct (main_session_events w
                  (record p [EvSqlOpen "postgres" (connString config)]) config)
        as (es & H & Hs).
      exists es. split; [exact Hs|].
      cbn [snd record history]. rewrite H. cbn [record history].
      rewrite Hh. cbn [app]. reflexivity.
  - unfold fmt_Printf, emit, call. cbn [snd history]. rewrite Hh. reflexivity.
Qed.

(** *** The status of the process *)




(** *** The error paths of a view *)


(** C1, as stated, fails: [git commit] reports nothing to commit, the
    commit step ends in success, and no push is run. *)
Lemma push_skipped_on_clean_tree :
  let r := gitCommitAndPush "data_exports" "2024-03-09" world_clean_tree
             (start world_clean_tree) in
  fst r = None
  /\ In (EvPrintln "Nothing to commit, working tree clean") (history (snd r))
  /\ ~ In (EvCommand "git" ["push"]) (history (snd r)).
Proof.
  cbv zeta. split; [reflexivity|]. split.
  - vm_compute. tauto.
  - vm_compute. intros H.
    repeat (destruct H as [H|H]; [discriminate H|]). exact H.
Qed.

(** C1, amended: the publisher runs [git add], [git commit] and [git push]
    in this order; a step is run exactly when the sub-process of the step
    before it succeeded.  When [git commit] fails with an output that
    contains "nothing to commit", the publisher prints the notice
    "Nothing to commit, working tree clean" and returns success at once:
    no push is run, and all that is left to happen is the change back to
    the original directory. *)
Theorem publisher_steps_in_order :
  forall w p repoPath msg,
    w_Getwd w p = None ->
    w_Chdir w p repoPath = None ->
    exists es,
      history (snd (gitCommitAndPush repoPath msg w p)) = (history p ++ es)%list
      /\ commands es =
         match snd (w_CombinedOutput w (entered p repoPath) "git" ["add"; "."]),
               snd (w_CombinedOutput w (staged p repoPath) "git"
                      (commitArgs msg)) with
         | Some _, _ => [["add"; "."]]
         | None, Some _ => [["add"; "."]; commitArgs msg]
         | None, None => [["add"; "."]; commitArgs msg; ["push"]]
         end
      /\ (forall out output err,
            w_CombinedOutput w (entered p repoPath) "git" ["add"; "."]
              = (out, None) ->
            w_CombinedOutput w (staged p repoPath) "git" (commitArgs msg)
              = (output, Some err) ->
            gobytes.Contains output (bytes_of "nothing to commit") = true ->
            fst (gitCommitAndPush repoPath msg w p) = None
            /\ es = [EvChdir repoPath;
                     EvCommand "git" ["add"; "."];
                     EvPrintln "Added files to Git staging area";
                     EvCommand "git" (commitArgs msg);
                     EvPrintln "Nothing to commit, working tree clean";
                     EvChdir (cwd p)]).
Proof.
  intros w p repoPath msg Hwd Hcd.
  rewrite gitCommitAndPush_run, Hwd, Hcd.
  destruct (history_gitAdd w (entered p repoPath) msg)
    as (es & Hh & _ & _ & _ & Hc).
  destruct (gitAdd msg w (entered p repoPath)) as [r p'] eqn:E.
  cbn [snd fst] in *.
  assert (Hhist : history (snd (os_Chdir (cwd p) w p'))
                  = (history p ++ [EvChdir repoPath] ++ es
                       ++ [EvChdir (cwd p)])%list).
  { unfold os_Chdir. destruct (w_Chdir w p' (cwd p)); cbn [snd history];
      rewrite Hh; cbn [entered history]; now rewrite <- !app_assoc. }
  exists ([EvChdir repoPath] ++ es ++ [EvChdir (cwd p)])%list. split; [|split].
  - exact Hhist.
  - assert (Happ : forall a b, commands (a ++ b) = (commands a ++ commands b)%list).
    { induction a as [|[] a IH]; intros b; simpl; rewrite ?IH; reflexivity. }
    cbn [app commands]. rewrite Happ, Hc. cbn [commands]. now rewrite app_nil_r.
  - intros out output err Ha Hco Hn.
    rewrite gitAdd_run, Ha, gitCommit_run in E. fold (staged p repoPath) in E.
    rewrite Hco, Hn in E. injection E as <- <-. split; [reflexivity|].
    unfold staged, entered, record in Hh. cbn [history] in Hh.
    rewrite <- !app_assoc in Hh. apply app_inv_head in Hh.
    cbn [app] in Hh. injection Hh as <-. reflexivity.
Qed.

Lemma publisher_steps_in_order_witness :
  w_Getwd world_clean_tree (start world_clean_tree) = None
  /\ w_Chdir world_clean_tree (start world_clean_tree) "data_exports" = None
  /\ fst (gitCommitAndPush "data_exports" "2024-03-09" world_clean_tree
            (start world_clean_tree)) = None
  /\ history (snd (gitCommitAndPush "data_exports" "2024-03-09"
                     world_clean_tree (start world_clean_tree)))
     = [EvChdir "data_exports";
        EvCommand "git" ["add"; "."];
        EvPrintln "Added files to Git staging area";
        EvCommand "git" ["commit"; "-m"; "Data export 2024-03-09"];
        EvPrintln "Nothing to commit, working tree clean";
        EvChdir "/srv/exporter"].
Proof.
  split; [reflexivity|]. split; [reflexivity|].
  destruct (publisher_steps_in_order world_clean_tree
              (start world_clean_tree) "data_exports" "2024-03-09"
              eq_refl eq_refl) as (es & H1 & _ & H3).
  destruct (H3 _ _ _ eq_refl eq_refl eq_refl) as [Hr Hes].
  split; [exact Hr|]. rewrite H1, Hes. reflexivity.
Defined.

(** C2: when DB_PORT is absent from the environment or its value does not
    parse as an integer, all the program does is print a configuration
    error and return: no database connection is opened, no directory is
    created and no file is written. *)
Theorem invalid_port_stops_before_any_io :
  forall w,
    lookup "DB_PORT" (loaded_environ w) = None
    \/ (exists v e, lookup "DB_PORT" (loaded_environ w) = Some v
                    /\ strconv.Atoi v = inr e) ->
    (exists err,
       history (snd (run w))
       = [EvPrintf ("Error loading configuration: %v" ++ LF) [AError err]])
    /\ forallb (fun e => negb (isIO e)) (history (snd (run w))) = true.
Proof.
  intros w H.
  assert (E : exists err,
             history (snd (run w))
             = [EvPrintf ("Error loading configuration: %v" ++ LF) [AError err]]).
  { unfold run, main, bind. rewrite loadConfig_run.
    unfold loaded_environ in H. cbn [start environ] in *.
    destruct (w_dotenv w) as [envMap|e].
    - cbv zeta. unfold envOr.
      destruct H as [H | (v & e & H & Hv)]; rewrite H.
      + cbn. eexists; reflexivity.
      + rewrite Hv. cbn. eexists; reflexivity.
    - cbn. eexists; reflexivity. }
  split; [exact E|]. destruct E as [err ->]. reflexivity.
Qed.

Lemma invalid_port_stops_before_any_io_witness :
  lookup "DB_PORT" (loaded_environ world_no_port) = None
  /\ forallb (fun e => negb (isIO e)) (history (snd (run world_no_port))) = true.
Proof.
  split; [reflexivity|].
  apply (invalid_port_stops_before_any_io world_no_port). left. reflexivity.
Defined.


(** A run in which the query of the first view fails: the files of the
    two other views, stamped with the date of the run. *)
Example snapshots_of_a_run :
  writes (history (snd (run world_first_view_fails)))
  = [("data_exports/daily_wait_time_stats.json",
      dq "{
  'data': [
    {},
    {}
  ],
  'export_date': '2024-03-09'
}");
     ("data_exports/monthly_avg_wait_times.json",
      dq "{
  'data': [
    {},
    {}
  ],
  'export_date': '2024-03-09'
}")].
Proof. now vm_compute. Qed.

(** C4: when the turn of a view comes, whatever happened to the views
    before it, its query is issued; the first of its four steps that fails
    is reported by a line that names the view (or its file) and ends the
    processing of that view only, and when none fails its complete
    document is written; in every case the loop goes on with the views
    after it. *)
Theorem per_view_failures_are_isolated :
  forall w p config date before view after,
    views = (before ++ view :: after)%list ->
    let body := exportView config date in
    let q := snd (forEach before body w p) in
    exists es,
      body view w q = (tt, record q (EvQueryRow (view_query view) :: es))
      /\ viewOutcome w q config date view es
      /\ forEach views body w p
         = forEach after body w
             (record q (EvQueryRow (view_query view) :: es)).
Proof.
  intros w p config date before view after Hv body q. subst body.
  destruct (exportView_run w q config date view) as (es & Hrun & Hout).
  exists es. split; [exact Hrun|]. split; [exact Hout|].
  rewrite Hv, forEach_app. fold q. cbn [forEach]. unfold bind.
  rewrite Hrun. reflexivity.
Qed.

Lemma per_view_failures_are_isolated_witness :
  views = (["hospital_seven_avg_change"] ++
           "daily_wait_time_stats" :: ["monthly_avg_wait_times"])%list
  /\ exists es,
       viewOutcome world_first_view_fails
         (snd (forEach ["hospital_seven_avg_change"]
                 (exportView config_default "2024-03-09")
                 world_first_view_fails (start world_first_view_fails)))
         config_default "2024-03-09" "daily_wait_time_stats" es.
Proof.
  split; [reflexivity|].
  destruct (per_view_failures_are_isolated world_first_view_fails
              (start world_first_view_fails) config_default "2024-03-09"
              ["hospital_seven_avg_change"] "daily_wait_time_stats"
              ["monthly_avg_wait_times"] eq_refl) as (es & _ & H & _).
  exists es. exact H.
Defined.

(** When the query of the first view fails, the files of the other two
    views are still written. *)
Example two_views_survive_the_first :
  map fst (writes (history (snd (run world_first_view_fails))))
  = ["data_exports/daily_wait_time_stats.json";
     "data_exports/monthly_avg_wait_times.json"].
Proof. vm_compute. reflexivity. Qed.

(** C5: when the query of a view returns the NULL of the database, the
    program goes on with the bytes of an empty array in its place, and the
    file it writes for the view is the document whose data member is the
    empty array, [[]]; the member is there, and it is not null. *)
Theorem null_rows_export_empty_array w p config t view :
  w_Scan w p (view_query view) = inl None ->
  let date := time.Format_2006_01_02 t in
  let file := (dq "{
  'data': [],
  'export_date': '" ++ bytes_of date ++ dq "'
}")%list in
  file = indented_text "" "  " 0 (wrapper (Arr []) date)
  /\ exists e,
       exportView config date view w p
       = (tt, record p [EvQueryRow (view_query view);
                        EvWriteFile (view_filename config view) file 420; e]).
Proof.
  intros Hnull date file.
  assert (Hfile : file = indented_text "" "  " 0 (wrapper (Arr []) date)).
  { unfold file, wrapper. cbn. unfold string_text.
    now rewrite <- app_assoc. }
  split; [exact Hfile|].
  destruct (exportView_run w p config date view) as (es & Hrun & Hout).
  unfold viewOutcome in Hout. rewrite Hnull in Hout. cbv zeta in Hout.
  destruct (snapshot_of_text (Arr []) (bytes_of "[]") date (T_arr0 [] eq_refl)
              (fits_small 2 ltac:(lia)) (safe_Format t)) as [Hdoc Hpretty].
  change (escaped (Arr [])) with (Arr []) in Hdoc, Hpretty.
  rewrite Hdoc, Hpretty, <- Hfile in Hout.
  rewrite Hrun.
  destruct (w_WriteFile w _ _ file 420); subst es; eexists; reflexivity.
Qed.

Lemma null_rows_export_empty_array_witness :
  w_Scan world_clean_tree (start world_clean_tree)
    (view_query "daily_wait_time_stats") = inl None
  /\ exists e,
       exportView config_default "2024-03-09" "daily_wait_time_stats"
         world_clean_tree (start world_clean_tree)
       = (tt, record (start world_clean_tree)
                [EvQueryRow (view_query "daily_wait_time_stats");
                 EvWriteFile "data_exports/daily_wait_time_stats.json"
                   (dq "{
  'data': [],
  'export_date': '2024-03-09'
}") 420; e]).
Proof.
  split; [reflexivity|].
  exact (proj2 (null_rows_export_empty_array world_clean_tree
                  (start world_clean_tree) config_default
                  (time.mkTime 2024 3 9) "daily_wait_time_stats" eq_refl)).
Defined.

(** C6, as stated, fails: the publisher enters the repository, its three
    git steps succeed, the deferred change back to the original directory
    fails, and the publisher returns success with the process left in the
    repository. *)
Lemma working_directory_left_in_repository :
  cwd (start world_cannot_return) = "/srv/exporter"
  /\ fst (gitCommitAndPush "data_exports" "2024-03-09" world_cannot_return
            (start world_cannot_return)) = None
  /\ cwd (snd (gitCommitAndPush "data_exports" "2024-03-09"
                 world_cannot_return (start world_cannot_return)))
     = "/srv/exporter/data_exports".
Proof. repeat split; now vm_compute. Qed.

(** C6, amended: once the publisher has changed into the repository, the
    last thing it does on every path, after every sub-process it runs and
    whatever their outcome, is a call to change back to the original
    working directory; no other change of directory happens in between,
    and the environment of the process is left as it was.  The error of
    that last call is ignored: the publisher returns what its git steps
    returned either way.  When the call succeeds the working directory is
    the original one again; when it fails the process stays in the
    repository. *)
Theorem publisher_restores_working_directory :
  forall w p repoPath msg,
    w_Getwd w p = None ->
    w_Chdir w p repoPath = None ->
    let r := gitCommitAndPush repoPath msg w p in
    let q := snd (gitAdd msg w (entered p repoPath)) in
    (exists es,
       history (snd r)
         = (history p ++ [EvChdir repoPath] ++ es ++ [EvChdir (cwd p)])%list
       /\ forallb (fun e => negb (isChdir e)) es = true)
    /\ environ (snd r) = environ p
    /\ fst r = fst (gitAdd msg w (entered p repoPath))
    /\ (w_Chdir w q (cwd p) = None -> rooted (cwd p) = true ->
        cwd (snd r) = cwd p)
    /\ (w_Chdir w q (cwd p) <> None ->
        cwd (snd r) = chdir_target (cwd p) repoPath).
Proof.
  intros w p repoPath msg Hwd Hcd. cbv zeta.
  rewrite gitCommitAndPush_run, Hwd, Hcd.
  destruct (history_gitAdd w (entered p repoPath) msg)
    as (es & Hh & Hes & Henv & Hcwd & _).
  destruct (gitAdd msg w (entered p repoPath)) as [r p'].
  cbn [snd fst] in *. split; [|split; [|split; [|split]]].
  - exists es. split; [|now apply talk_not_chdir].
    unfold os_Chdir. destruct (w_Chdir w p' (cwd p)); cbn [snd history];
      rewrite Hh; cbn [entered history]; now rewrite <- !app_assoc.
  - unfold os_Chdir. destruct (w_Chdir w p' (cwd p)); cbn [snd environ];
      exact Henv.
  - reflexivity.
  - intros Hback Hroot. unfold os_Chdir. rewrite Hback. cbn [snd cwd].
    unfold chdir_target. destruct (cwd p) as [|c s]; [discriminate|].
    cbn in Hroot.
    destruct c as [[] [] [] [] [] [] [] []]; try discriminate. reflexivity.
  - intros Hback. unfold os_Chdir.
    destruct (w_Chdir w p' (cwd p)); [|now contradiction Hback].
    cbn [snd cwd]. exact Hcwd.
Qed.

Lemma publisher_restores_working_directory_witness :
  cwd (snd (gitCommitAndPush "data_exports" "2024-03-09" world_commit_killed
              (start world_commit_killed)))
  = "/srv/exporter".
Proof.
  destruct (publisher_restores_working_directory world_commit_killed
              (start world_commit_killed) "data_exports" "2024-03-09"
              eq_refl eq_refl) as (_ & _ & _ & H & _).
  exact (H eq_refl eq_refl).
Defined.

(** C7, as stated, fails: the rows [rows_sample] are a JSON array, and
    neither the document [addExportDateToJSON] returns for them nor the
    snapshot file holds their bytes: the whitespace between the rows is
    gone, and [&] and [<] inside the strings are written as escapes. *)
Lemma rows_are_compacted_and_escaped :
  Text rows_sample_value rows_sample
  /\ addExportDateToJSON (Some rows_sample) "2024-03-09" = inl rows_sample_doc
  /\ gobytes.Contains rows_sample_doc rows_sample = false
  /\ json.Indent rows_sample_doc "" "  " = inl rows_sample_file
  /\ gobytes.Contains rows_sample_file rows_sample = false.
Proof.
  split; [exact rows_sample_text|]. repeat split; now vm_compute.
Qed.

(** C7, amended: for every JSON text of an array, the snapshot writer
    embeds the array in the object with the two keys data and export_date,
    in this order, without building a value of it, but not byte for byte:
    the array is compacted and escaped for HTML.  The whitespace between
    its tokens is dropped, and inside its strings the bytes [<], [>] and
    [&] and the characters U+2028 and U+2029 are replaced by their \u
    escapes; every number literal, every other byte of a string and the
    order of the elements and of the members are kept as they are written.
    The snapshot file is that document laid out on lines indented by two
    spaces; it is a JSON text of the object, and the rows in it stand for
    the rows of the input: same numbers as written, same strings once the
    escapes are read. *)
Theorem rows_embedded_compacted elems data date :
  Text (Arr elems) data ->
  fits [] (S (nesting (Arr elems))) ->
  forallb json.htmlSafe (bytes_of date) = true ->
  let rows := escaped (Arr elems) in
  let doc := (dq "{'data':" ++ compact_text rows ++ dq ",'export_date':'"
                ++ bytes_of date ++ dq "'}")%list in
  let file := indented_text "" "  " 0 (wrapper rows date) in
  addExportDateToJSON (Some data) date = inl doc
  /\ doc = compact_text (wrapper rows date)
  /\ json.Indent doc "" "  " = inl file
  /\ Text (wrapper rows date) file
  /\ unescaped rows = unescaped (Arr elems).
Proof.
  intros Ht Hfit Hd rows doc file.
  destruct (snapshot_of_text (Arr elems) data date Ht Hfit Hd) as [H1 H2].
  assert (E : doc = compact_text (wrapper rows date)).
  { unfold doc, wrapper. cbn [compact_text map fst snd].
    rewrite sepConcat_cons. cbn [sepConcat]. unfold string_text.
    cbn [app bytes_of list_ascii_of_string dq map Ascii.eqb Bool.eqb].
    repeat (rewrite <- app_assoc; cbn [app]). reflexivity. }
  rewrite E. repeat split; try assumption.
  - apply (proj1 indented_is_text _ _ (Text_wrapper _ _ _ Ht Hd)).
  - apply (proj1 unescaped_escaped _ _ Ht).
Qed.

Lemma rows_embedded_compacted_witness :
  Text rows_sample_value rows_sample
  /\ fits [] (S (nesting rows_sample_value))
  /\ forallb json.htmlSafe (bytes_of "2024-03-09") = true
  /\ addExportDateToJSON (Some rows_sample) "2024-03-09" = inl rows_sample_doc
  /\ json.Indent rows_sample_doc "" "  " = inl rows_sample_file.
Proof.
  split; [exact rows_sample_text|].
  split; [exact (fits_small 3 ltac:(lia))|].
  split; [reflexivity|].
  destruct (rows_embedded_compacted _ rows_sample "2024-03-09"
              rows_sample_text (fits_small 3 ltac:(lia)) eq_refl)
    as (H1 & _ & H2 & _).
  split; [exact H1 | exact H2].
Defined.

(** C8: when the settings file loads and DB_PORT parses, the loader
    returns a configuration; its port is the parsed number and every other
    field is the value of the field's variable when the environment,
    completed by the settings file, has that variable, and the documented
    default when it has not.  When the settings file cannot be loaded, the
    loader fails and the program prints the configuration error and does
    nothing else. *)
Theorem loadConfig_defaults :
  forall w p,
    (forall envMap port,
       w_dotenv w = inl envMap ->
       let env := (environ p ++ envMap)%list in
       strconv.Atoi (envOr env "DB_PORT" "") = inl port ->
       let reads (field key default : string) :=
         (lookup key env = None -> field = default)
         /\ (forall v, lookup key env = Some v -> field = v) in
       exists config,
         loadConfig w p = (inl config, loaded p envMap)
         /\ Port config = port
         /\ reads (Host config) "DB_HOST" "localhost"
         /\ reads (User config) "DB_USER" "postgres"
         /\ reads (Password config) "DB_PASSWORD" ""
         /\ reads (DBName config) "DB_NAME" "hospital_db"
         /\ reads (SSLMode config) "DB_SSLMODE" "disable"
         /\ reads (OutputDir config) "OUTPUT_DIR" "data_exports")
    /\ (forall e,
          w_dotenv w = inr e ->
          loadConfig w p
            = (inr (Errorf "error loading .env file: %v" [AError e]), p)
          /\ main w p
            = (tt, record p
                     [EvPrintf ("Error loading configuration: %v" ++ LF)
                        [AError (Errorf "error loading .env file: %v"
                                   [AError e])]])).
Proof.
  intros w p. split.
  - intros envMap port He. cbv zeta. intros Hport.
    rewrite loadConfig_run, He. cbv zeta. rewrite Hport.
    eexists. split; [reflexivity|].
    cbn [Port Host User Password DBName SSLMode OutputDir]. unfold envOr.
    split; [reflexivity|].
    repeat split;
      match goal with
      | |- lookup ?k ?e = None -> _ => intros ->; reflexivity
      | |- forall v, lookup ?k ?e = Some v -> _ => intros v ->; reflexivity
      end.
  - intros e He. unfold main, bind. rewrite loadConfig_run, He. split; reflexivity.
Qed.

Lemma loadConfig_defaults_witness :
  fst (loadConfig world_clean_tree (start world_clean_tree))
  = inl {| Host := "db.internal"; Port := 5432; User := "postgres";
           Password := ""; DBName := "hospital_db"; SSLMode := "disable";
           OutputDir := "data_exports" |}
  /\ history (snd (main world_no_dotenv (start world_no_dotenv)))
     = [EvPrintf ("Error loading configuration: %v" ++ LF)
          [AError (Errorf "error loading .env file: %v"
                     [AError (ErrExternal
                                "open .env: no such file or directory")])]].
Proof.
  split.
  - destruct (loadConfig_defaults world_clean_tree (start world_clean_tree))
      as [Hc _].
    destruct (Hc [("DB_HOST", "db.internal")] 5432%Z eq_refl eq_refl)
      as (config & Hrun & Hport & (_ & Hhost) & (Huser & _) & (Hpw & _)
          & (Hdb & _) & (Hssl & _) & (Hout & _)).
    rewrite Hrun. cbn [fst]. destruct config as [h po u pw db ssl od].
    cbn [Host Port User Password DBName SSLMode OutputDir] in *.
    rewrite Hport, (Hhost _ eq_refl), (Huser eq_refl), (Hpw eq_refl),
      (Hdb eq_refl), (Hssl eq_refl), (Hout eq_refl).
    reflexivity.
  - destruct (loadConfig_defaults world_no_dotenv (start world_no_dotenv))
      as [_ Hf].
    destruct (Hf _ eq_refl) as [_ ->]. reflexivity.
Defined.




(** C10: when the commit sub-process fails, the publisher returns no error
    exactly when the combined output contains the bytes "nothing to
    commit", whatever the error was; otherwise it returns the commit
    failure.  In both cases no push is run. *)
Theorem commit_failure_classified_by_output :
  forall w p repoPath msg out output err,
    w_Getwd w p = None ->
    w_Chdir w p repoPath = None ->
    w_CombinedOutput w (entered p repoPath) "git" ["add"; "."] = (out, None) ->
    w_CombinedOutput w (staged p repoPath) "git" (commitArgs msg)
      = (output, Some err) ->
    (fst (gitCommitAndPush repoPath msg w p) = None
     <-> exists pre post,
           output = (pre ++ bytes_of "nothing to commit" ++ post)%list)
    /\ (fst (gitCommitAndPush repoPath msg w p) = None
        \/ fst (gitCommitAndPush repoPath msg w p)
           = Some (Errorf "git commit failed: %v, output: %s"
                     [AError err; AString (string_of output)]))
    /\ exists es,
         history (snd (gitCommitAndPush repoPath msg w p))
           = (history p ++ es)%list
         /\ ~ In (EvCommand "git" ["push"]) es.
Proof.
  intros w p repoPath msg out output err Hwd Hcd Ha Hco.
  rewrite gitCommitAndPush_run, Hwd, Hcd, gitAdd_run, Ha, gitCommit_run.
  fold (staged p repoPath). rewrite Hco, <- Contains_spec.
  assert (Hhist : forall q, history (snd (os_Chdir (cwd p) w q))
                            = (history q ++ [EvChdir (cwd p)])%list).
  { intros q. unfold os_Chdir. destruct (w_Chdir w q (cwd p)); reflexivity. }
  destruct (gobytes.Contains output (bytes_of "nothing to commit"));
    cbn [fst snd]; (split; [|split]).
  - tauto.
  - now left.
  - eexists. rewrite Hhist. unfold staged, entered, record; cbn [history].
    rewrite <- !app_assoc. split; [reflexivity|].
    cbn. intros H. repeat (destruct H as [H|H]; [discriminate H|]). exact H.
  - split; [discriminate|]. intros H; discriminate H.
  - now right.
  - eexists. rewrite Hhist. unfold staged, entered, record; cbn [history].
    rewrite <- !app_assoc. split; [reflexivity|].
    cbn. intros H. repeat (destruct H as [H|H]; [discriminate H|]). exact H.
Qed.

Lemma commit_failure_classified_by_output_witness :
  fst (gitCommitAndPush "data_exports" "2024-03-09" world_commit_killed
         (start world_commit_killed))
  = Some (Errorf "git commit failed: %v, output: %s"
            [AError (ErrExternal "signal: killed"); AString ""]).
Proof.
  destruct (commit_failure_classified_by_output world_commit_killed
              (start world_commit_killed) "data_exports" "2024-03-09"
              [] [] (ErrExternal "signal: killed")
              eq_refl eq_refl eq_refl eq_refl) as (_ & [H|H] & _).
  - discriminate H.
  - exact H.
Defined.

(** ** Further properties of the program *)

(** X1: the program calls [sql.Open] at most once, before anything else
    the history records; when the call succeeds, [db.Close] is
    the last thing the program does, on every path, and it is called
    once; when the call fails or the configuration cannot be loaded, the
    connection is never closed. *)
Theorem connection_closed_when_opened w :
  let h := history (snd (run w)) in
  match loadConfig w (start w) with
  | (inr _, _) => forallb inSession h = true
  | (inl config, p) =>
      exists es,
        forallb inSession es = true
        /\ match w_sql_Open w p "postgres" (connString config) with
           | Some _ => h = EvSqlOpen "postgres" (connString config) :: es
           | None =>
               h = (EvSqlOpen "postgres" (connString config) :: es
                      ++ [EvClose])%list
           end
  end.
Proof. exact (run_shape w). Qed.

(** X2: the export issues one query per view, in the order of the list
    and whatever happens to the views before: the three queries of a run
    are these, each aggregating all the rows of its view on the server. *)
Theorem every_view_is_queried_once w p config :
  exists es,
    history (snd (main_export config w p)) = (history p ++ es)%list
    /\ queries es
       = ["SELECT json_agg(t) FROM (SELECT * FROM hospital_seven_avg_change) t";
          "SELECT json_agg(t) FROM (SELECT * FROM daily_wait_time_stats) t";
          "SELECT json_agg(t) FROM (SELECT * FROM monthly_avg_wait_times) t"].
Proof.
  destruct (main_export_events w p config)
    as (es1 & es2 & _ & _ & H & _ & Hq & _ & _ & Hg & _).
  eexists. split; [exact H|].
  rewrite !queries_app, Hq, (queries_git _ Hg). cbn [app].
  now destruct (fst _).
Qed.

(** X3: the line that ends a run without error is printed exactly when
    the publisher returns no error; the views have no part in it, and a
    run in which every query fails writes no file and still ends with
    that line when the publisher succeeds. *)
Theorem success_line_reports_the_publisher_only w p config :
  let date := time.Format_2006_01_02 (w_Now w p) in
  let q := snd (forEach views (exportView config date) w p) in
  exists es,
    history (snd (main_export config w p)) = (history p ++ es)%list
    /\ (In successLine es
        <-> fst (gitCommitAndPush (OutputDir config) date w q) = None)
    /\ ((forall q' view, exists err, w_Scan w q' (view_query view) = inr err) ->
        writes es = []).
Proof.
  cbv zeta.
  destruct (main_export_events w p config)
    as (es1 & es2 & H1 & _ & H & Hv & _ & _ & _ & Hg & Hs & _).
  cbv zeta in H1, H. eexists. split; [exact H|]. split.
  - rewrite !in_app_iff. split.
    + intros [Hin | [Hin | Hin]].
      * exfalso. rewrite forallb_forall in Hv. specialize (Hv _ Hin).
        discriminate Hv.
      * exfalso. rewrite forallb_forall in Hs. specialize (Hs _ Hin).
        discriminate Hs.
      * destruct (fst _); [|reflexivity].
        destruct Hin as [Hin|[]]. discriminate Hin.
    + intros ->. right. right. now left.
  - intros Hfail. rewrite !writes_app, (writes_view_git _ Hg).
    rewrite (forEach_no_rows w config _ views Hfail p es1 H1).
    now destruct (fst _).
Qed.

(** A run in which every query fails. *)
Example run_without_rows :
  history (snd (run world_no_views))
  = [EvSqlOpen "postgres"
       "host=localhost port=5432 user=postgres password= dbname=hospital_db sslmode=disable";
     EvPing;
     EvPrintln "Successfully connected to the database";
     EvMkdirAll "data_exports" 493;
     EvQueryRow (view_query "hospital_seven_avg_change");
     EvPrintf ("Error querying view %s: %v" ++ LF)
       [AString "hospital_seven_avg_change";
        AError (ErrExternal "pq: permission denied")];
     EvQueryRow (view_query "daily_wait_time_stats");
     EvPrintf ("Error querying view %s: %v" ++ LF)
       [AString "daily_wait_time_stats";
        AError (ErrExternal "pq: permission denied")];
     EvQueryRow (view_query "monthly_avg_wait_times");
     EvPrintf ("Error querying view %s: %v" ++ LF)
       [AString "monthly_avg_wait_times";
        AError (ErrExternal "pq: permission denied")];
     EvChdir "data_exports";
     EvCommand "git" ["add"; "."];
     EvPrintln "Added files to Git staging area";
     EvCommand "git" ["commit"; "-m"; "Data export 2024-03-09"];
     EvPrintf ("Committed changes with message: %s" ++ LF)
       [AString "Data export 2024-03-09"];
     EvCommand "git" ["push"];
     EvPrintln "Pushed changes to remote repository";
     EvChdir "/srv/exporter";
     successLine;
     EvClose].
Proof. now vm_compute. Qed.

(** X4: the sub-processes of a run are [git add .], [git commit -m] and
    [git push], in this order and each at most once; the message of the
    commit is "Data export " followed by the date that every file of the
    run carries as its export_date: the date is read once, before the
    first view. *)
Theorem commit_message_carries_the_export_date w p config :
  let date := time.Format_2006_01_02 (w_Now w p) in
  exists es n,
    history (snd (main_export config w p)) = (history p ++ es)%list
    /\ commands es
       = firstn n [["add"; "."]; ["commit"; "-m"; "Data export " ++ date];
                   ["push"]]
    /\ Forall (fun nc => stamped date (snd nc)) (writes es).
Proof.
  cbv zeta.
  destruct (main_export_events w p config)
    as (es1 & es2 & _ & _ & H & _ & _ & Hc & Hst & Hg & _ & n & Hn).
  eexists. exists n. split; [exact H|]. split.
  - rewrite !commands_app, Hc, Hn. cbn [app].
    destruct (fst _); cbn [lastLine successLine commands]; now rewrite app_nil_r.
  - rewrite !writes_app, (writes_view_git _ Hg).
    destruct (fst _); cbn [lastLine successLine writes]; now rewrite !app_nil_r.
Qed.

(** X5: the publisher returns no error exactly when it could read and
    change the working directory, [git add] succeeded, and either
    [git commit] and [git push] both succeeded or [git commit] failed
    with an output that contains "nothing to commit".  Whether the
    deferred change back to the original directory succeeds plays no
    part in the result. *)
Theorem publisher_succeeds_exactly_when w p repoPath msg :
  fst (gitCommitAndPush repoPath msg w p) = None
  <-> w_Getwd w p = None
      /\ w_Chdir w p repoPath = None
      /\ snd (w_CombinedOutput w (entered p repoPath) "git" ["add"; "."]) = None
      /\ match w_CombinedOutput w (staged p repoPath) "git" (commitArgs msg) with
         | (output, Some _) =>
             gobytes.Contains output (bytes_of "nothing to commit") = true
         | (_, None) =>
             snd (w_CombinedOutput w (committed p repoPath msg) "git" ["push"])
             = None
         end.
Proof.
  rewrite gitCommitAndPush_run.
  destruct (w_Getwd w p) as [e0|].
  { cbn [fst]. split; [discriminate|]. intros [H _]. discriminate H. }
  destruct (w_Chdir w p repoPath) as [e1|].
  { cbn [fst]. split; [discriminate|]. intros (_ & H & _). discriminate H. }
  rewrite gitAdd_run.
  destruct (w_CombinedOutput w (entered p repoPath) "git" ["add"; "."])
    as [o1 [e2|]]; cbn [fst snd].
  { split; [discriminate|]. intros (_ & _ & H & _). discriminate H. }
  rewrite gitCommit_run. fold (staged p repoPath).
  destruct (w_CombinedOutput w (staged p repoPath) "git" (commitArgs msg))
    as [o2 [e3|]].
  { destruct (gobytes.Contains o2 (bytes_of "nothing to commit")); cbn [fst].
    - tauto.
    - split; [discriminate|]. intros (_ & _ & _ & H). discriminate H. }
  rewrite gitPush_run. fold (committed p repoPath msg).
  destruct (w_CombinedOutput w (committed p repoPath msg) "git" ["push"])
    as [o3 [e4|]]; cbn [fst snd].
  - split; [discriminate|]. intros (_ & _ & _ & H). discriminate H.
  - tauto.
Qed.

(** X6: when the publisher cannot read the working directory or cannot
    change into the repository, it returns an error without running any
    sub-process and without a change back: nothing is deferred yet.  The
    working directory and the environment are as they were, and the only
    event is the failed change of directory, if it was tried. *)
Theorem publisher_runs_nothing_outside_repository w p repoPath msg :
  w_Getwd w p <> None \/ w_Chdir w p repoPath <> None ->
  let r := gitCommitAndPush repoPath msg w p in
  (exists err,
     fst r = Some (Errorf "failed to get current directory: %v" [AError err])
     /\ history (snd r) = history p
     \/ fst r = Some (Errorf "failed to change directory: %v" [AError err])
        /\ history (snd r) = (history p ++ [EvChdir repoPath])%list)
  /\ cwd (snd r) = cwd p
  /\ environ (snd r) = environ p.
Proof.
  intros H. cbv zeta. rewrite gitCommitAndPush_run.
  destruct (w_Getwd w p) as [e0|].
  { cbn [fst snd]. repeat split. exists e0. now left. }
  destruct (w_Chdir w p repoPath) as [e1|].
  { cbn [fst snd record history cwd environ]. repeat split. exists e1.
    now right. }
  destruct H as [H|H]; now contradiction H.
Qed.

Lemma publisher_runs_nothing_outside_repository_witness :
  w_Chdir world_no_repository (start world_no_repository) "data_exports"
    <> None
  /\ history (snd (gitCommitAndPush "data_exports" "2024-03-09"
                     world_no_repository (start world_no_repository)))
     = [EvChdir "data_exports"]
  /\ cwd (snd (gitCommitAndPush "data_exports" "2024-03-09"
                 world_no_repository (start world_no_repository)))
     = "/srv/exporter".
Proof.
  assert (H : w_Chdir world_no_repository (start world_no_repository)
                "data_exports" <> None) by discriminate.
  split; [exact H|].
  destruct (publisher_runs_nothing_outside_repository world_no_repository
              (start world_no_repository) "data_exports" "2024-03-09"
              (or_intror H)) as (_ & Hcwd & _).
  split; [reflexivity | exact Hcwd].
Defined.
